(** * chatgpt-mcp: the resilience layer, embedded and verified

    A shallow embedding of [chatgpt.ts] (response extraction, completion
    detection, the blocking poll loop, option matching, session state) and
    of [utils/backoff.ts], followed by the properties of the specification
    that are proved, or refuted, on it. *)

From Stdlib Require Import String Ascii ZArith NArith List Bool Lia.
From Stdlib Require Import Numbers.DecimalString.
From Stdlib Require QArith.
Import ListNotations.

Set Implicit Arguments.

(* ===================================================================== *)
(** * JavaScript strings *)
(* ===================================================================== *)

(** A JavaScript string is a sequence of UTF-16 code units; [length] is the
    number of code units, which is what [String.prototype.length] returns. *)
Definition jsstring := list N.

Module JS.

(** An ASCII literal, one code unit per character. *)
Definition lit (s : string) : jsstring :=
  map N_of_ascii (list_ascii_of_string s).

Fixpoint eqb (a b : jsstring) : bool :=
  match a, b with
  | [], [] => true
  | x :: a', y :: b' => N.eqb x y && eqb a' b'
  | _, _ => false
  end.

(** [s.startsWith(p)] *)
Fixpoint startsWith (p s : jsstring) : bool :=
  match p, s with
  | [], _ => true
  | x :: p', y :: s' => N.eqb x y && startsWith p' s'
  | _ :: _, [] => false
  end.

(** [s.includes(p)] *)
Fixpoint includes (p s : jsstring) : bool :=
  startsWith p s ||
  match s with
  | [] => false
  | _ :: s' => includes p s'
  end.

(** [s.replace(p, '')] for a string pattern [p]: the first occurrence of
    [p] is removed, the rest is left as it is. *)
Fixpoint removeFirst (p s : jsstring) : jsstring :=
  if startsWith p s then skipn (length p) s
  else match s with
       | [] => []
       | c :: s' => c :: removeFirst p s'
       end.

(** White space and line terminators: the class [\s] of regular expressions
    and the characters removed by [trim]. *)
Definition isSpace (c : N) : bool :=
  ((9 <=? c) && (c <=? 13) || (c =? 32) || (c =? 160) || (c =? 5760)
   || (8192 <=? c) && (c <=? 8202) || (c =? 8232) || (c =? 8233)
   || (c =? 8239) || (c =? 8287) || (c =? 12288) || (c =? 65279))%N.

Definition isDigit (c : N) : bool := ((48 <=? c) && (c <=? 57))%N.
Definition isUpper (c : N) : bool := ((65 <=? c) && (c <=? 90))%N.
Definition isLower (c : N) : bool := ((97 <=? c) && (c <=? 122))%N.

(** The class [\w], which decides the word boundary [\b]. *)
Definition isWord (c : N) : bool :=
  isDigit c || isUpper c || isLower c || (c =? 95)%N.

Fixpoint trimStart (s : jsstring) : jsstring :=
  match s with
  | [] => []
  | c :: s' => if isSpace c then trimStart s' else s
  end.

Fixpoint trimEnd (s : jsstring) : jsstring :=
  match s with
  | [] => []
  | c :: s' =>
      match trimEnd s' with
      | [] => if isSpace c then [] else [c]
      | r => c :: r
      end
  end.

Definition trim (s : jsstring) : jsstring := trimEnd (trimStart s).

(** [toLowerCase] on the ASCII letters. JavaScript also maps the cased
    letters outside ASCII, so this function is [String.prototype.toLowerCase]
    on ASCII text only: it serves in the concrete examples, whose texts
    are ASCII. The operations take the lowering function of the engine
    from the driver (field [lowerCase]), and the theorems hold for
    whatever that function is. *)
Definition lowerUnit (c : N) : N := if isUpper c then (c + 32)%N else c.
Definition toLowerCase (s : jsstring) : jsstring := map lowerUnit s.

(** Decimal rendering of an integral number, as in a template literal. *)
Definition ofZ (z : Z) : jsstring :=
  lit (NilZero.string_of_int (Z.to_int z)).

End JS.

(* ===================================================================== *)
(** * Regular expressions *)
(* ===================================================================== *)

(** The fragment of JavaScript regular expressions that [chatgpt.ts] uses,
    run by a backtracking matcher: alternatives are tried left to right and
    [*] is greedy, giving characters back one at a time. *)
Module Regex.

Inductive regex : Type :=
| Eps
| Chr (c : N)
| Cls (p : N -> bool)
| Bnd
| Cat (a b : regex)
| Alt (a b : regex)
| Many (p : N -> bool).

Definition Plus (p : N -> bool) : regex := Cat (Cls p) (Many p).
Definition Opt (r : regex) : regex := Alt r Eps.

Fixpoint Str (s : jsstring) : regex :=
  match s with
  | [] => Eps
  | c :: s' => Cat (Chr c) (Str s')
  end.

(** Canonicalisation under the [i] flag (without [u]): a character is
    compared through its upper-case form, and a character outside ASCII
    never folds to an ASCII one. The patterns hold ASCII letters, a space
    and U+2022 only, so folding the ASCII letters decides every
    comparison. *)
Definition canon (c : N) : N := if JS.isLower c then (c - 32)%N else c.

Definition sameChar (ignoreCase : bool) (pat c : N) : bool :=
  if ignoreCase then N.eqb (canon pat) (canon c) else N.eqb pat c.

Definition atBoundary (prev : option N) (s : jsstring) : bool :=
  xorb (match prev with Some c => JS.isWord c | None => false end)
       (match s with c :: _ => JS.isWord c | [] => false end).

Definition cont := option N -> jsstring -> option (option N * jsstring).

Fixpoint many (p : N -> bool) (prev : option N) (s : jsstring) (k : cont)
  : option (option N * jsstring) :=
  match s with
  | c :: s' =>
      if p c then
        match many p (Some c) s' k with
        | Some r => Some r
        | None => k prev s
        end
      else k prev s
  | [] => k prev []
  end.

(** [run i r prev s k] matches [r] at the head of [s], [prev] being the
    character before it, and hands what is left to [k]. *)
Fixpoint run (i : bool) (r : regex) (prev : option N) (s : jsstring)
  (k : cont) : option (option N * jsstring) :=
  match r with
  | Eps => k prev s
  | Chr c =>
      match s with
      | x :: s' => if sameChar i c x then k (Some x) s' else None
      | [] => None
      end
  | Cls p =>
      match s with
      | x :: s' => if p x then k (Some x) s' else None
      | [] => None
      end
  | Bnd => if atBoundary prev s then k prev s else None
  | Cat a b => run i a prev s (fun prev' s' => run i b prev' s' k)
  | Alt a b =>
      match run i a prev s k with
      | Some x => Some x
      | None => run i b prev s k
      end
  | Many p => many p prev s k
  end.

(** A match starting exactly here: the last character consumed and the
    rest of the input. *)
Definition matchAt (i : bool) (r : regex) (prev : option N) (s : jsstring)
  : option (option N * jsstring) :=
  run i r prev s (fun prev' s' => Some (prev', s')).

(** [re.test(s)] for a pattern that is not anchored. *)
Fixpoint searchFrom (i : bool) (r : regex) (prev : option N) (s : jsstring)
  : bool :=
  match matchAt i r prev s with
  | Some _ => true
  | None =>
      match s with
      | [] => false
      | c :: s' => searchFrom i r (Some c) s'
      end
  end.

Definition test (i : bool) (r : regex) (s : jsstring) : bool :=
  searchFrom i r None s.

(** [s.replace(/^r/, rep)]: the pattern is anchored at the start of the
    input and replaced once. *)
Definition replaceStart (i : bool) (r : regex) (rep s : jsstring)
  : jsstring :=
  match matchAt i r None s with
  | Some (_, rest) => rep ++ rest
  | None => s
  end.

(** [s.replace(/r/g, rep)]: every match, leftmost first, the search
    resuming where the previous match ended. [skip] counts the characters
    of the current match that are still to be passed over; after an empty
    match the search moves on by one character. *)
Fixpoint replaceAllFrom (i : bool) (r : regex) (rep : jsstring)
  (skip : nat) (prev : option N) (s : jsstring) : jsstring :=
  match s with
  | [] =>
      match skip, matchAt i r prev [] with
      | O, Some _ => rep
      | _, _ => []
      end
  | c :: s' =>
      match skip with
      | S n => replaceAllFrom i r rep n (Some c) s'
      | O =>
          match matchAt i r prev s with
          | Some (_, rest) =>
              match length s - length rest with
              | O => rep ++ c :: replaceAllFrom i r rep 0 (Some c) s'
              | S n => rep ++ replaceAllFrom i r rep n (Some c) s'
              end
          | None => c :: replaceAllFrom i r rep 0 (Some c) s'
          end
      end
  end.

Definition replaceAll (i : bool) (r : regex) (rep s : jsstring) : jsstring :=
  replaceAllFrom i r rep 0 None s.

End Regex.

(* ===================================================================== *)
(** * The cleaning pass of the Response Extractor *)
(* ===================================================================== *)

Module Clean.
Import Regex.

Definition bullet : N := 8226.    (* U+2022 *)
Definition ellipsis : N := 8230.  (* U+2026 *)

(** UI chrome phrases that appear in turn elements but are not part of the
    response. *)
Definition phrasesToRemove : list jsstring :=
  [ JS.lit "ChatGPT said:";
    JS.lit "ChatGPT said";
    JS.lit "Pro thinking";
    JS.lit "Answer now";
    JS.lit "Extended thinking";
    JS.lit "Show thinking";
    JS.lit "Hide thinking";
    JS.lit "Reasoning";
    JS.lit "Thinking...";
    JS.lit "Thinking" ++ [ellipsis];
    [bullet; 32%N] ].

(** [while (cleaned.includes(phrase)) cleaned = cleaned.replace(phrase, '')].
    Each round removes [length phrase] characters, so [length cleaned]
    rounds are enough for a phrase that is not empty (lemma
    [stripPhrase_gone]). *)
Fixpoint stripPhraseLoop (fuel : nat) (phrase cleaned : jsstring)
  : jsstring :=
  match fuel with
  | O => cleaned
  | S n =>
      if JS.includes phrase cleaned
      then stripPhraseLoop n phrase (JS.removeFirst phrase cleaned)
      else cleaned
  end.

Definition stripPhrase (phrase cleaned : jsstring) : jsstring :=
  stripPhraseLoop (length cleaned) phrase cleaned.

(** [for (const phrase of phrasesToRemove) ...] *)
Definition stripPhrases (phrases : list jsstring) (text : jsstring)
  : jsstring :=
  fold_left (fun cleaned phrase => stripPhrase phrase cleaned) phrases text.

(** [/^Thinking\s*/i] *)
Definition reThinking : regex :=
  Cat (Str (JS.lit "Thinking")) (Many JS.isSpace).

(** [/Pro\s+thinking\s*•?\s*/gi] *)
Definition reProThinking : regex :=
  Cat (Str (JS.lit "Pro"))
    (Cat (Plus JS.isSpace)
       (Cat (Str (JS.lit "thinking"))
          (Cat (Many JS.isSpace)
             (Cat (Opt (Chr bullet)) (Many JS.isSpace))))).

(** [/^\d+\s*(seconds?|secs?)\s*/i] *)
Definition reTimer : regex :=
  Cat (Plus JS.isDigit)
    (Cat (Many JS.isSpace)
       (Cat (Alt (Cat (Str (JS.lit "second")) (Opt (Chr 115)))
                 (Cat (Str (JS.lit "sec")) (Opt (Chr 115))))
            (Many JS.isSpace))).

(** [/\s+/g] *)
Definition reSpaces : regex := Plus JS.isSpace.

Definition collapseSpaces (s : jsstring) : jsstring :=
  JS.trim (replaceAll false reSpaces [32%N] s).

Definition cleanText (text : jsstring) : jsstring :=
  let cleaned := stripPhrases phrasesToRemove text in
  let cleaned := replaceStart true reThinking [] cleaned in
  let cleaned := replaceAll true reProThinking [] cleaned in
  let cleaned := replaceStart true reTimer [] cleaned in
  collapseSpaces cleaned.


End Clean.

(** ** White space, for the proofs *)

Module Whitespace.

(** What [/\s+/g] replaced by a space comes to: runs of white space become
    one space; [inSpace] says that the run has begun. *)
Fixpoint squeeze (inSpace : bool) (s : jsstring) : jsstring :=
  match s with
  | [] => []
  | c :: s' =>
      if JS.isSpace c then
        if inSpace then squeeze true s' else 32%N :: squeeze true s'
      else c :: squeeze false s'
  end.

(** A text whose white space is single spaces, none of them next to
    another; [afterSpace] says that the text follows a space. *)
Inductive tidy : bool -> jsstring -> Prop :=
| tidy_nil (afterSpace : bool) : tidy afterSpace []
| tidy_char (afterSpace : bool) (c : N) (s : jsstring) :
    JS.isSpace c = false -> tidy false s -> tidy afterSpace (c :: s)
| tidy_space (s : jsstring) : tidy true s -> tidy false (32%N :: s).

Definition headed (s : jsstring) : Prop :=
  match s with
  | c :: _ => JS.isSpace c = false
  | [] => True
  end.

End Whitespace.


(* ===================================================================== *)
(** * The rendered page *)
(* ===================================================================== *)

(** The DOM as far as [chatgpt.ts] reads it: a tree of elements and text
    nodes. [innerText] is what the browser renders for an element; it
    depends on layout and on CSS visibility, so every element carries it as
    observed ([None] where the property is undefined, as on an element that
    is not an [HTMLElement]). [textContent] is computed from the tree. *)
Module Dom.

#[warnings="-register-all"]
Inductive Node : Type :=
| Text (data : jsstring)
| Element (tag : jsstring) (attrs : list (jsstring * jsstring))
          (rendered : option jsstring) (children : list Node).

Definition Document := list Node.

(** The document as the root that [document.querySelectorAll] searches. *)
Definition documentNode (d : Document) : Node :=
  Element (JS.lit "#document") [] None d.

Fixpoint assoc (a : jsstring) (l : list (jsstring * jsstring))
  : option jsstring :=
  match l with
  | [] => None
  | (k, v) :: l' => if JS.eqb k a then Some v else assoc a l'
  end.

Definition getAttribute (a : jsstring) (n : Node) : option jsstring :=
  match n with
  | Text _ => None
  | Element _ attrs _ _ => assoc a attrs
  end.

Definition innerText (n : Node) : option jsstring :=
  match n with
  | Text _ => None
  | Element _ _ r _ => r
  end.

Fixpoint textContent (n : Node) : jsstring :=
  match n with
  | Text d => d
  | Element _ _ _ ch => concat (map textContent ch)
  end.

(** The white space that separates the tokens of a [class] attribute. *)
Definition isAsciiSpace (c : N) : bool :=
  ((c =? 9) || (c =? 10) || (c =? 12) || (c =? 13) || (c =? 32))%N.

Fixpoint tokensFrom (cur : jsstring) (s : jsstring) : list jsstring :=
  match s with
  | [] => match cur with [] => [] | _ => [rev cur] end
  | c :: s' =>
      if isAsciiSpace c then
        match cur with
        | [] => tokensFrom [] s'
        | _ => rev cur :: tokensFrom [] s'
        end
      else tokensFrom (c :: cur) s'
  end.

Definition classList (n : Node) : list jsstring :=
  match getAttribute (JS.lit "class") n with
  | Some v => tokensFrom [] v
  | None => []
  end.

(** The selectors of [chatgpt.ts]: a type selector [tag], a class selector
    [.c], and the attribute selectors [[a="v"]], [[a^="v"]], [[a*="v"]]; a
    compound selector is a conjunction and a selector list a disjunction. *)
Inductive simple : Type :=
| Tag (t : jsstring)
| HasClass (c : jsstring)
| AttrIs (a v : jsstring)
| AttrStarts (a v : jsstring)
| AttrHas (a v : jsstring).

Definition compound := list simple.
Definition selector := list compound.

Definition nonEmpty (s : jsstring) : bool :=
  match s with [] => false | _ :: _ => true end.

Definition matchesSimple (n : Node) (s : simple) : bool :=
  match n with
  | Text _ => false
  | Element tag _ _ _ =>
      match s with
      | Tag t => JS.eqb tag t
      | HasClass c => existsb (JS.eqb c) (classList n)
      | AttrIs a v =>
          match getAttribute a n with
          | Some x => JS.eqb x v
          | None => false
          end
      | AttrStarts a v =>
          match getAttribute a n with
          | Some x => nonEmpty v && JS.startsWith v x
          | None => false
          end
      | AttrHas a v =>
          match getAttribute a n with
          | Some x => nonEmpty v && JS.includes v x
          | None => false
          end
      end
  end.

Definition matches (sel : selector) (n : Node) : bool :=
  existsb (fun c => forallb (matchesSimple n) c) sel.

(** The elements below [n], in document order. *)
Fixpoint descendants (n : Node) : list Node :=
  match n with
  | Text _ => []
  | Element _ _ _ ch =>
      flat_map (fun c =>
                  match c with
                  | Text _ => []
                  | Element _ _ _ _ => c :: descendants c
                  end) ch
  end.

Definition querySelectorAll (sel : selector) (n : Node) : list Node :=
  filter (matches sel) (descendants n).

Definition querySelector (sel : selector) (n : Node) : option Node :=
  hd_error (querySelectorAll sel n).

(** [n.querySelectorAll(sel).forEach(e => e.remove())] *)
Fixpoint removeAll (sel : selector) (n : Node) : Node :=
  match n with
  | Text d => Text d
  | Element t a r ch =>
      Element t a r
        (flat_map (fun c => if matches sel c then [] else [removeAll sel c])
                  ch)
  end.

(** [xs[xs.length - 1]] *)
Definition lastOf (xs : list Node) : option Node :=
  nth_error xs (length xs - 1).

Definition isSome {A : Type} (o : option A) : bool :=
  match o with Some _ => true | None => false end.

End Dom.

(* ===================================================================== *)
(** * Response Extractor *)
(* ===================================================================== *)

Module Extractor.
Import Dom Clean.

Definition turnSelector : selector :=
  [[AttrStarts (JS.lit "data-testid") (JS.lit "conversation-turn-")]].

Definition chromeSelectors : list selector :=
  [ [[Tag (JS.lit "button")]];
    [[AttrIs (JS.lit "role") (JS.lit "button")]];
    [[AttrHas (JS.lit "class") (JS.lit "actions")]];
    [[AttrHas (JS.lit "class") (JS.lit "toolbar")]];
    [[Tag (JS.lit "nav")]];
    [[Tag (JS.lit "header")]];
    [[Tag (JS.lit "footer")]];
    [[AttrHas (JS.lit "class") (JS.lit "thinking")]];
    [[AttrHas (JS.lit "class") (JS.lit "reasoning")]];
    [[AttrHas (JS.lit "data-testid") (JS.lit "thinking")]] ].

Definition markdownSelector : selector :=
  [ [HasClass (JS.lit "markdown")];
    [HasClass (JS.lit "prose")];
    [AttrHas (JS.lit "class") (JS.lit "markdown")] ].

Definition assistantSelector : selector :=
  [[AttrIs (JS.lit "data-message-author-role") (JS.lit "assistant")]].

(** [x?.trim()] followed by [if (x)]: the trimmed text when it is defined
    and not empty. *)
Definition trimmed (raw : option jsstring) : option jsstring :=
  match raw with
  | Some t => match JS.trim t with [] => None | t' => Some t' end
  | None => None
  end.

(** Each strategy gives [Some r] when the code returns [r] from it, and
    [None] when the code goes on to the next one. *)

(** Strategy 1: innerText of the turn element. *)
Definition strategy1 (lastTurn : Node) : option jsstring :=
  match trimmed (innerText lastTurn) with
  | Some t =>
      let cleaned := cleanText t in
      if 0 <? length cleaned then Some cleaned else None
  | None => None
  end.

(** Strategy 2: clone, strip chrome elements, get textContent. *)
Definition strippedClone (lastTurn : Node) : Node :=
  fold_left (fun clone sel => removeAll sel clone) chromeSelectors lastTurn.

Definition strategy2 (lastTurn : Node) : option jsstring :=
  match trimmed (Some (textContent (strippedClone lastTurn))) with
  | Some t =>
      let cleaned := cleanText t in
      if 0 <? length cleaned then Some cleaned else None
  | None => None
  end.

(** Strategy 3: markdown/prose inside the turn. *)
Definition strategy3 (lastTurn : Node) : option jsstring :=
  match querySelector markdownSelector lastTurn with
  | Some markdown =>
      match trimmed (Some (textContent markdown)) with
      | Some mdText => Some (cleanText mdText)
      | None => None
      end
  | None => None
  end.

(** Strategy 4: an assistant-authored element anywhere on the page. *)
Definition strategy4 (doc : Document) : option jsstring :=
  match lastOf (querySelectorAll assistantSelector (documentNode doc)) with
  | Some lastMsg =>
      match trimmed (innerText lastMsg) with
      | Some msgText => Some (cleanText msgText)
      | None => None
      end
  | None => None
  end.

Definition orElse {A : Type} (a : option A) (b : option A) : option A :=
  match a with Some x => Some x | None => b end.

(** The function that [getLatestResponseText] evaluates in the page;
    [None] is [null]. *)
Definition latestResponseText (doc : Document) : option jsstring :=
  let turns := querySelectorAll turnSelector (documentNode doc) in
  if length turns <? 2 then None
  else
    match lastOf turns with
    | None => None
    | Some lastTurn =>
        orElse (strategy1 lastTurn)
          (orElse (strategy2 lastTurn)
             (orElse (strategy3 lastTurn) (strategy4 doc)))
    end.

(** The cascade in the words of the specification: every strategy yields a
    cleaned text (empty when it finds nothing), and the result is the first
    of them that is not empty, in the fixed order, or absence. *)
Definition cleanedOf (raw : option jsstring) : jsstring :=
  match trimmed raw with
  | Some t => cleanText t
  | None => []
  end.

Definition candidates (doc : Document) (lastTurn : Node) : list jsstring :=
  [ cleanedOf (innerText lastTurn);
    cleanedOf (Some (textContent (strippedClone lastTurn)));
    cleanedOf (option_map textContent (querySelector markdownSelector lastTurn));
    cleanedOf (match lastOf (querySelectorAll assistantSelector (documentNode doc)) with
               | Some m => innerText m
               | None => None
               end) ].

Definition cascadeSpec (doc : Document) : option jsstring :=
  match lastOf (querySelectorAll turnSelector (documentNode doc)) with
  | Some lastTurn => find nonEmpty (candidates doc lastTurn)
  | None => None
  end.

End Extractor.

(* ===================================================================== *)
(** * Completion Detector *)
(* ===================================================================== *)

Module Detector.
Import Dom Regex.

Record Indicators : Type := {
  turnCount : nat;
  lastTurnHasCopy : bool;
  isThinking : bool
}.

Definition copySelector : selector :=
  [[AttrIs (JS.lit "data-testid") (JS.lit "copy-turn-action-button")]].

Definition thinkingSelector : selector :=
  [ [AttrHas (JS.lit "class") (JS.lit "thinking")];
    [AttrHas (JS.lit "class") (JS.lit "reasoning")];
    [AttrHas (JS.lit "data-testid") (JS.lit "thinking")] ].

(** [/\b(thinking|reasoning)\b/i] *)
Definition thinkingPatterns : regex :=
  Cat Bnd (Cat (Alt (Str (JS.lit "thinking")) (Str (JS.lit "reasoning"))) Bnd).

(** The function that [isGenerationComplete] evaluates in the page. *)
Definition pageIndicators (doc : Document) : Indicators :=
  let turns := querySelectorAll Extractor.turnSelector (documentNode doc) in
  match (if 2 <=? length turns then lastOf turns else None) with
  | Some lastTurn =>
      let turnText :=
        match innerText lastTurn with
        | Some t => t
        | None => []
        end in
      let hasThinkingUI := isSome (querySelector thinkingSelector lastTurn) in
      {| turnCount := length turns;
         lastTurnHasCopy := isSome (querySelector copySelector lastTurn);
         isThinking :=
           hasThinkingUI
           || (test true thinkingPatterns turnText
               && (length turnText <? 200)) |}
  | None =>
      {| turnCount := length turns;
         lastTurnHasCopy := false;
         isThinking := false |}
  end.

Local Open Scope Z_scope.

Record Verdict : Type := {
  complete : bool;
  contentLength : Z;
  newStableCount : Z
}.

Definition FALLBACK_STABLE_THRESHOLD : Z := 10.

(** [currentText?.length ?? 0] *)
Definition lengthOf (currentText : option jsstring) : Z :=
  match currentText with
  | Some t => Z.of_nat (length t)
  | None => 0
  end.

(** Check content stability. *)
Definition stabilityUpdate (lastContentLength stableCount currentLength : Z)
  : Z :=
  if (0 <? currentLength) && (currentLength =? lastContentLength)
  then stableCount + 1
  else 0.

(** [isGenerationComplete] once the page has been read: [indicators] are
    the signals of the page and [currentText] the extracted response. The
    counters are numbers holding integers. *)
Definition verdict (indicators : Indicators) (currentText : option jsstring)
  (lastContentLength stableCount : Z) : Verdict :=
  let currentLength := lengthOf currentText in
  let newStableCount :=
    stabilityUpdate lastContentLength stableCount currentLength in
  let highConfidence :=
    (lastTurnHasCopy indicators && (0 <? currentLength)
     && (1 <=? newStableCount))
    || (negb (isThinking indicators) && (0 <? currentLength)
        && (FALLBACK_STABLE_THRESHOLD <=? newStableCount)) in
  {| complete := highConfidence;
     contentLength := currentLength;
     newStableCount := newStableCount |}.

(** The primary path of the decision, on its own. *)
Definition primaryPath (indicators : Indicators) (v : Verdict) : bool :=
  lastTurnHasCopy indicators && (0 <? contentLength v)
  && (1 <=? newStableCount v).

(** The counters of the poll loop after a run over extracted texts of the
    given lengths: [lastContentLength = result.contentLength] and
    [stableCount = result.newStableCount] after every check. The stable
    counts are listed, one per check. *)
Fixpoint stableCounts (lastContentLength stableCount : Z) (lengths : list Z)
  : list Z :=
  match lengths with
  | [] => []
  | c :: rest =>
      let n := stabilityUpdate lastContentLength stableCount c in
      n :: stableCounts c n rest
  end.

End Detector.

(* ===================================================================== *)
(** * Poll Scheduler: backoff *)
(* ===================================================================== *)

Module Backoff.
Local Open Scope Z_scope.

(** Fibonacci-based delays in seconds: 2, 3, 5, 8, 13, 21, 30 (capped). *)
Definition FIB_DELAYS : list Z := [2; 3; 5; 8; 13; 21; 30].

(** [FIB_DELAYS[index]]: an index outside the array reads [undefined],
    which turns the delay into [NaN] ([None]). *)
Definition at_index (xs : list Z) (index : Z) : option Z :=
  if index <? 0 then None else nth_error xs (Z.to_nat index).

(** The delay in milliseconds. *)
Definition fibonacciBackoffMax (pollNumber maxSeconds : Z) : option Z :=
  let index := Z.min pollNumber (Z.of_nat (length FIB_DELAYS) - 1) in
  match at_index FIB_DELAYS index with
  | Some d => let seconds := Z.min d maxSeconds in Some (seconds * 1000)
  | None => None
  end.

(** [maxSeconds = 30] by default. *)
Definition fibonacciBackoff (pollNumber : Z) : option Z :=
  fibonacciBackoffMax pollNumber 30.

(** The schedule of the specification, in seconds. *)
Definition schedule : list Z := [2; 3; 5; 8; 13; 21; 30; 30].

End Backoff.

(* ===================================================================== *)
(** * Option Resolver: matching *)
(* ===================================================================== *)

Module Resolver.

(** A discovered option: its normalised label and the handle of its
    element. *)
Record DiscoveredOption : Type := {
  text : jsstring;
  element : nat
}.

Record MatchResult : Type := {
  success : bool;
  selected : option jsstring;
  available : list jsstring;
  clicked : option nat
}.

Section Matching.

(** [String.prototype.toLowerCase] *)
Variable lower : jsstring -> jsstring.

(** [for (const opt of availableOptions) { if (p(opt)) { ...; return } }] *)
Fixpoint firstOption (p : DiscoveredOption -> bool)
  (availableOptions : list DiscoveredOption) : option DiscoveredOption :=
  match availableOptions with
  | [] => None
  | opt :: rest => if p opt then Some opt else firstOption p rest
  end.

Definition isExact (targetLower : jsstring) (opt : DiscoveredOption) : bool :=
  JS.eqb (lower (text opt)) targetLower.

Definition isPrefix (targetLower : jsstring) (opt : DiscoveredOption) : bool :=
  JS.startsWith targetLower (lower (text opt)).

Definition isSubstring (targetLower : jsstring) (opt : DiscoveredOption)
  : bool :=
  JS.includes targetLower (lower (text opt)).

Definition hit (availableOptions : list DiscoveredOption)
  (opt : DiscoveredOption) : MatchResult :=
  {| success := true;
     selected := Some (text opt);
     available := map text availableOptions;
     clicked := Some (element opt) |}.

(** Match: exact, then starts with, then contains. *)
Definition matchOption (targetInput : jsstring)
  (availableOptions : list DiscoveredOption) : MatchResult :=
  let targetLower := JS.trim (lower targetInput) in
  match firstOption (isExact targetLower) availableOptions with
  | Some opt => hit availableOptions opt
  | None =>
      match firstOption (isPrefix targetLower) availableOptions with
      | Some opt => hit availableOptions opt
      | None =>
          match firstOption (isSubstring targetLower) availableOptions with
          | Some opt => hit availableOptions opt
          | None =>
              {| success := false;
                 selected := None;
                 available := map text availableOptions;
                 clicked := None |}
          end
      end
  end.

(** [opt] is the first option of the list that satisfies [p]. *)
Definition firstSatisfying (p : DiscoveredOption -> bool)
  (opts : list DiscoveredOption) (opt : DiscoveredOption) : Prop :=
  exists before after,
    opts = before ++ opt :: after
    /\ p opt = true
    /\ Forall (fun o => p o = false) before.

Definition noneSatisfying (p : DiscoveredOption -> bool)
  (opts : list DiscoveredOption) : Prop :=
  Forall (fun o => p o = false) opts.

End Matching.

Definition labelled (labels : list jsstring) : list DiscoveredOption :=
  map (fun '(i, l) => {| text := l; element := i |})
      (combine (seq 0 (length labels)) labels).

End Resolver.

(* ===================================================================== *)
(** * Session, browser driver and the blocking operations *)
(* ===================================================================== *)

Module Runtime.
Import Dom.
Local Open Scope Z_scope.

(** ** Data *)

Record SessionState : Type := {
  isLoggedIn : bool;
  currentModel : option jsstring;
  conversationId : option jsstring;
  currentProjectUrl : option jsstring
}.

Record AskResult : Type := {
  response : jsstring;
  elapsed_seconds : Z;
  model : option jsstring;
  chat_id : option jsstring;
  poll_count : Z;
  error : option jsstring
}.

Record SimpleResult : Type := {
  success : bool;
  message : jsstring
}.

(** The state of the process: the module variables of [chatgpt.ts]
    ([sessionState], [sessionInitialized]) and of [browser.ts] ([page],
    here whether it is set), the clock in milliseconds, and the number of
    interactions with the browser made so far. *)
Record World : Type := {
  sessionState : SessionState;
  sessionInitialized : bool;
  pageOpen : bool;
  now : Z;
  tick : nat
}.

(** The state in which the module is loaded. *)
Definition initialSession : SessionState :=
  {| isLoggedIn := false;
     currentModel := None;
     conversationId := None;
     currentProjectUrl := None |}.

Definition initialWorld (startTime : Z) : World :=
  {| sessionState := initialSession;
     sessionInitialized := false;
     pageOpen := false;
     now := startTime;
     tick := 0 |}.

(** The semantic roles of [SELECTORS] that [chatgpt.ts] uses. *)
Inductive Role : Type :=
| promptTextarea
| sendButton
| loggedInIndicator
| loginPrompt
| attachButton.

(** The browser and the application behind it, as the code meets them: the
    [t]-th interaction finds what the driver answers at [t]. A rejected
    promise is given by the message of its error. *)
Record Driver : Type := {
  latency : nat -> N;                       (* time the interaction takes, ms *)
  launch : nat -> option jsstring;          (* launching Chromium rejects *)
  goto : nat -> jsstring -> option jsstring;  (* [page.goto(url)] rejects *)
  snapshot : nat -> jsstring + Document;    (* [page.evaluate]: the DOM it runs over *)
  present : nat -> Role -> bool;            (* [p.$] finds one of the selectors *)
  visible : nat -> Role -> bool;            (* [waitForSelector] finds one, visible *)
  act : nat -> option jsstring;             (* click, fill, type, press, file chooser *)
  location : nat -> jsstring;               (* [page.url()] *)
  selectorOpened : nat -> jsstring + bool;  (* the model selector button was clicked *)
  dropdown : nat -> jsstring + option (list Resolver.DiscoveredOption);
                                            (* the options found in the open dropdown,
                                               [None] without a dropdown container *)
  lowerCase : jsstring -> jsstring          (* [String.prototype.toLowerCase] *)
}.

(** ** Computations *)

(** An [async] function: it returns, throws an error (kept by its message)
    or, in the model, runs out of the fuel given to a loop. *)
Inductive Outcome (A : Type) : Type :=
| Ret (a : A)
| Throw (msg : jsstring)
| Diverge.
Arguments Ret {A} a.
Arguments Throw {A} msg.
Arguments Diverge {A}.

Definition M (A : Type) : Type := World -> Outcome A * World.

Definition ret {A : Type} (a : A) : M A := fun w => (Ret a, w).

Definition bind {A B : Type} (c : M A) (k : A -> M B) : M B :=
  fun w =>
    match c w with
    | (Ret a, w') => k a w'
    | (Throw e, w') => (Throw e, w')
    | (Diverge, w') => (Diverge, w')
    end.

Definition throw {A : Type} (e : jsstring) : M A := fun w => (Throw e, w).

Definition diverge {A : Type} : M A := fun w => (Diverge, w).

(** [try { c } catch (error) { h(error.message) }] *)
Definition tryCatch {A : Type} (c : M A) (h : jsstring -> M A) : M A :=
  fun w =>
    match c w with
    | (Throw e, w') => h e w'
    | r => r
    end.

Notation "x <- c ;; k" := (bind c (fun x => k))
  (at level 61, c at next level, right associativity).
Notation "c ;; k" := (bind c (fun _ => k))
  (at level 61, right associativity).

Definition getSession : M SessionState := fun w => (Ret (sessionState w), w).

Definition modifySession (f : SessionState -> SessionState) : M unit :=
  fun w =>
    (Ret tt,
     {| sessionState := f (sessionState w);
        sessionInitialized := sessionInitialized w;
        pageOpen := pageOpen w;
        now := now w;
        tick := tick w |}).

Definition setIsLoggedIn (b : bool) : M unit :=
  modifySession (fun s =>
    {| isLoggedIn := b;
       currentModel := currentModel s;
       conversationId := conversationId s;
       currentProjectUrl := currentProjectUrl s |}).

Definition setCurrentModel (m : option jsstring) : M unit :=
  modifySession (fun s =>
    {| isLoggedIn := isLoggedIn s;
       currentModel := m;
       conversationId := conversationId s;
       currentProjectUrl := currentProjectUrl s |}).

Definition setConversationId (c : option jsstring) : M unit :=
  modifySession (fun s =>
    {| isLoggedIn := isLoggedIn s;
       currentModel := currentModel s;
       conversationId := c;
       currentProjectUrl := currentProjectUrl s |}).

Definition setCurrentProjectUrl (u : option jsstring) : M unit :=
  modifySession (fun s =>
    {| isLoggedIn := isLoggedIn s;
       currentModel := currentModel s;
       conversationId := conversationId s;
       currentProjectUrl := u |}).

Definition setSessionInitialized (b : bool) : M unit :=
  fun w =>
    (Ret tt,
     {| sessionState := sessionState w;
        sessionInitialized := b;
        pageOpen := pageOpen w;
        now := now w;
        tick := tick w |}).

Definition setPageOpen (b : bool) : M unit :=
  fun w =>
    (Ret tt,
     {| sessionState := sessionState w;
        sessionInitialized := sessionInitialized w;
        pageOpen := b;
        now := now w;
        tick := tick w |}).

(** [c] keeps the relation [R] between the state it starts in and the
    state it ends in, however it ends. *)
Definition preserves {A : Type} (R : World -> World -> Prop) (c : M A)
  : Prop :=
  forall w o w', c w = (o, w') -> R w w'.

(** [c] ends: it returns or throws. *)
Definition total {A : Type} (c : M A) : Prop :=
  forall w, fst (c w) <> Diverge.

(** Time does not go back, an open page stays open, an initialised
    session stays initialised. *)
Definition advances (w w' : World) : Prop :=
  now w <= now w'
  /\ (pageOpen w = true -> pageOpen w' = true)
  /\ (sessionInitialized w = true -> sessionInitialized w' = true).

Definition sameModel (w w' : World) : Prop :=
  currentModel (sessionState w') = currentModel (sessionState w).

(** The session state with the conversation identifier cleared, and with
    the destination set as well. *)
Definition cleared (s : SessionState) : SessionState :=
  {| isLoggedIn := isLoggedIn s;
     currentModel := currentModel s;
     conversationId := None;
     currentProjectUrl := currentProjectUrl s |}.

Definition moved (url : jsstring) (s : SessionState) : SessionState :=
  {| isLoggedIn := isLoggedIn s;
     currentModel := currentModel s;
     conversationId := None;
     currentProjectUrl := Some url |}.

(** [Date.now()] *)
Definition dateNow : M Z := fun w => (Ret (now w), w).

(** A value used as a condition: [null] and the empty string are false. *)
Definition truthy (s : option jsstring) : option jsstring :=
  match s with
  | Some ((_ :: _) as t) => Some t
  | _ => None
  end.

Definition quoted (s : jsstring) : jsstring := [34%N] ++ s ++ [34%N].

(** [xs.join(', ')] *)
Fixpoint join (xs : list jsstring) : jsstring :=
  match xs with
  | [] => []
  | [x] => x
  | x :: rest => x ++ JS.lit ", " ++ join rest
  end.

Definition chatgptUrl : jsstring := JS.lit "https://chatgpt.com".

(** ** Pure parts of the operations *)

Fixpoint takeWhile (p : N -> bool) (s : jsstring) : jsstring :=
  match s with
  | [] => []
  | c :: s' => if p c then c :: takeWhile p s' else []
  end.

(** The class [[a-f0-9-]]. *)
Definition isIdChar (c : N) : bool :=
  ((97 <=? c) && (c <=? 102))%N || JS.isDigit c || (c =? 45)%N.

(** [url.match(/\/c\/([a-f0-9-]+)/)], the first group of the leftmost
    match. *)
Fixpoint conversationIdOf (url : jsstring) : option jsstring :=
  match (if JS.startsWith (JS.lit "/c/") url
         then takeWhile isIdChar (skipn 3 url) else []) with
  | (_ :: _) as id => Some id
  | [] =>
      match url with
      | [] => None
      | _ :: rest => conversationIdOf rest
      end
  end.

Definition projectLinkSelector : selector :=
  [[Tag (JS.lit "a"); AttrHas (JS.lit "href") (JS.lit "/g/g-p-")]].

Definition hrefOf (el : Node) : jsstring :=
  match getAttribute (JS.lit "href") el with
  | Some h => h
  | None => []
  end.

(** The function that [selectProject] evaluates in the page: exact match
    first, then partial match. *)
Definition findProjectUrl (lower : jsstring -> jsstring) (name : jsstring)
  (doc : Document) : option jsstring :=
  let projectLinks := querySelectorAll projectLinkSelector (documentNode doc) in
  let isProject el := JS.includes (JS.lit "/project") (hrefOf el) in
  let linkText el := lower (JS.trim (textContent el)) in
  match find (fun el => isProject el
                        && JS.eqb (linkText el) (lower name))
             projectLinks with
  | Some el => Some (hrefOf el)
  | None =>
      match find (fun el => isProject el
                            && JS.includes (lower name) (linkText el))
                 projectLinks with
      | Some el => Some (hrefOf el)
      | None => None
      end
  end.

Definition modelButtonSelectors : list selector :=
  [ [[Tag (JS.lit "button");
      AttrIs (JS.lit "aria-label") (JS.lit "Model selector")]];
    [[Tag (JS.lit "button");
      AttrIs (JS.lit "aria-haspopup") (JS.lit "menu")]];
    [[AttrIs (JS.lit "data-testid") (JS.lit "model-selector")]] ].

(** The function that [selectModel] evaluates first: the label of the
    model selector button. *)
Fixpoint currentModelOf (selectors : list selector) (doc : Document)
  : option jsstring :=
  match selectors with
  | [] => None
  | sel :: rest =>
      match querySelector sel (documentNode doc) with
      | Some btn =>
          let text := JS.trim (textContent btn) in
          if nonEmpty text
             && (JS.includes (JS.lit "GPT") text
                 || JS.includes (JS.lit "Pro") text
                 || JS.includes (JS.lit "4o") text)
          then Some text
          else currentModelOf rest doc
      | None => currentModelOf rest doc
      end
  end.

Definition failure (e : jsstring) : AskResult :=
  {| response := [];
     elapsed_seconds := 0;
     model := None;
     chat_id := None;
     poll_count := 0;
     error := Some e |}.

Definition timeoutMessage (timeoutMinutes elapsedSeconds : Z) : jsstring :=
  JS.lit "Timeout after " ++ JS.ofZ timeoutMinutes
  ++ JS.lit " minutes (" ++ JS.ofZ elapsedSeconds
  ++ JS.lit "s). Response may still be generating.".

(** What [pollUntilComplete] returns. *)
Module Poll.
Record Result : Type := {
  response : jsstring;
  pollCount : Z;
  elapsedSeconds : Z
}.
End Poll.

(** ** The operations *)

Section Operations.

Variable D : Driver.

(** [CONFIG.defaultProject], which [ensureSession] reads; [None] when the
    configuration does not set it. *)
Variable defaultProject : option jsstring.

(** One interaction with the browser: it takes the time the driver says
    and yields the index under which the driver answers. *)
Definition interact : M nat :=
  fun w =>
    (Ret (tick w),
     {| sessionState := sessionState w;
        sessionInitialized := sessionInitialized w;
        pageOpen := pageOpen w;
        now := now w + Z.of_N (latency D (tick w));
        tick := S (tick w) |}).

(** [wait(ms)] and [sleep(ms)]: the timer fires after [ms] milliseconds at
    the earliest. *)
Definition wait (ms : Z) : M unit :=
  fun w =>
    (Ret tt,
     {| sessionState := sessionState w;
        sessionInitialized := sessionInitialized w;
        pageOpen := pageOpen w;
        now := now w + Z.max 0 ms + Z.of_N (latency D (tick w));
        tick := S (tick w) |}).

(** [isBrowserRunning()]. A page that has been opened is taken to stay
    open: nothing closes it from outside during a call. *)
Definition isBrowserRunning (w : World) : bool := pageOpen w.

Definition launchBrowser : M unit :=
  fun w =>
    if pageOpen w then (Ret tt, w)
    else
      (t <- interact ;;
       match launch D t with
       | Some e => throw e
       | None => setPageOpen true
       end) w.

Definition getPage : M unit :=
  fun w => if pageOpen w then (Ret tt, w) else launchBrowser w.

Definition navigateTo (url : jsstring) : M bool :=
  getPage ;;
  t <- interact ;;
  ret (match goto D t url with None => true | Some _ => false end).

Definition findElement (role : Role) : M bool :=
  getPage ;; t <- interact ;; ret (visible D t role).

Definition elementExists (role : Role) : M bool :=
  getPage ;; t <- interact ;; ret (present D t role).

(** An action on an element or on the page that may reject. *)
Definition perform : M unit :=
  t <- interact ;;
  match act D t with
  | Some e => throw e
  | None => ret tt
  end.

Definition typeText (role : Role) (text : jsstring) : M bool :=
  found <- findElement role ;;
  if found then perform ;; perform ;; perform ;; ret true
  else ret false.

Definition clickElement (role : Role) : M bool :=
  found <- findElement role ;;
  if found then perform ;; ret true else ret false.

(** [page.evaluate(f)] *)
Definition evaluate {A : Type} (f : Document -> A) : M A :=
  t <- interact ;;
  match snapshot D t with
  | inl e => throw e
  | inr doc => ret (f doc)
  end.

(** [page.url()] *)
Definition pageUrl : M jsstring :=
  fun w => (Ret (location D (tick w)), w).

Definition checkLoginStatus : M bool :=
  hasLoggedInIndicator <- elementExists loggedInIndicator ;;
  hasLoginPrompt <- elementExists loginPrompt ;;
  hasPromptArea <- elementExists promptTextarea ;;
  ret ((hasLoggedInIndicator || hasPromptArea) && negb hasLoginPrompt).

(** [for (let attempt = 0; attempt < 3; attempt++)], by the attempts that
    are left. *)
Fixpoint loginAttempts (left : nat) : M bool :=
  match left with
  | O => ret false
  | S n =>
      isLoggedIn <- checkLoginStatus ;;
      if isLoggedIn then ret true
      else wait 3000 ;; loginAttempts n
  end.

(** [selectProject], over the [ensureSession] that it calls. *)
Definition selectProjectWith (ensure : M unit) (projectName : jsstring)
  : M SimpleResult :=
  tryCatch
    (ensure ;;
     getPage ;;
     projectUrl <- evaluate (findProjectUrl (lowerCase D) projectName) ;;
     match truthy projectUrl with
     | None =>
         ret {| success := false;
                message := JS.lit "Project " ++ quoted projectName
                           ++ JS.lit " not found in sidebar." |}
     | Some projectUrl =>
         let fullUrl :=
           if JS.startsWith (JS.lit "http") projectUrl then projectUrl
           else JS.lit "https://chatgpt.com" ++ projectUrl in
         t <- interact ;;
         match goto D t fullUrl with
         | Some e => throw e
         | None =>
             wait 2000 ;;
             setCurrentProjectUrl (Some fullUrl) ;;
             setConversationId None ;;
             ret {| success := true;
                    message := JS.lit "Selected project: " ++ projectName
                               ++ JS.lit ". New conversations will stay within this project." |}
         end
     end)
    (fun e =>
       ret {| success := false;
              message := JS.lit "Failed to select project: " ++ e |}).

(** [ensureSession]. It calls [selectProject], which calls it back;
    [depth] bounds the nesting of these calls, and two levels are enough
    (lemma [ensureSession_returns_or_throws]): the inner call finds the
    session initialised and returns at once. *)
Fixpoint ensureSessionAt (depth : nat) : M unit :=
  match depth with
  | O => diverge
  | S d =>
      fun w =>
        if sessionInitialized w && isBrowserRunning w then (Ret tt, w)
        else
          (launchBrowser ;;
           navigated <- navigateTo chatgptUrl ;;
           if negb navigated
           then throw (JS.lit "Failed to navigate to ChatGPT")
           else
             wait 3000 ;;
             isLoggedIn <- loginAttempts 3 ;;
             setIsLoggedIn isLoggedIn ;;
             setSessionInitialized true ;;
             if negb isLoggedIn
             then throw (JS.lit "Not logged in to ChatGPT. Please log in manually in the browser window, then retry.")
             else
               st <- getSession ;;
               match truthy defaultProject, truthy (currentProjectUrl st) with
               | Some project, None =>
                   selectProjectWith (ensureSessionAt d) project ;; ret tt
               | _, _ => ret tt
               end) w
  end.

Definition ensureSession : M unit := ensureSessionAt 2.

Definition selectProject (projectName : jsstring) : M SimpleResult :=
  selectProjectWith ensureSession projectName.

Definition newConversation : M SimpleResult :=
  tryCatch
    (ensureSession ;;
     st <- getSession ;;
     let targetUrl :=
       match truthy (currentProjectUrl st) with
       | Some u => u
       | None => chatgptUrl
       end in
     navigateTo targetUrl ;;
     wait 1500 ;;
     setConversationId None ;;
     st <- getSession ;;
     let inProject :=
       match truthy (currentProjectUrl st) with
       | Some _ => JS.lit " within current project"
       | None => []
       end in
     ret {| success := true;
            message := JS.lit "New conversation started" ++ inProject
                       ++ JS.lit "." |})
    (fun e =>
       ret {| success := false;
              message := JS.lit "Failed to start new conversation: " ++ e |}).

(** [getLatestResponseText]: a failure to read the page gives [null]. *)
Definition getLatestResponseText : M (option jsstring) :=
  tryCatch (getPage ;; evaluate Extractor.latestResponseText)
           (fun _ => ret None).

Definition isGenerationComplete (lastContentLength stableCount : Z)
  : M Detector.Verdict :=
  getPage ;;
  indicators <- evaluate Detector.pageIndicators ;;
  currentText <- getLatestResponseText ;;
  ret (Detector.verdict indicators currentText lastContentLength stableCount).

Definition selectModel (modelName : jsstring) : M jsstring :=
  getPage ;;
  currentModel <- evaluate (currentModelOf modelButtonSelectors) ;;
  match (match currentModel with
         | Some cm =>
             if JS.includes (lowerCase D modelName) (lowerCase D cm)
             then Some cm else None
         | None => None
         end) with
  | Some cm => setCurrentModel (Some cm) ;; ret cm
  | None =>
      t <- interact ;;
      match selectorOpened D t with
      | inl e => throw e
      | inr clicked =>
          if negb clicked
          then throw (JS.lit "Failed to find model selector button.")
          else
            wait 2000 ;;
            t <- interact ;;
            match dropdown D t with
            | inl e => throw e
            | inr found =>
                let result :=
                  match found with
                  | Some availableOptions =>
                      Resolver.matchOption (lowerCase D) modelName
                        availableOptions
                  | None =>
                      {| Resolver.success := false;
                         Resolver.selected := None;
                         Resolver.available := [];
                         Resolver.clicked := None |}
                  end in
                if negb (Resolver.success result)
                then
                  perform ;;
                  wait 300 ;;
                  let availableStr :=
                    match Resolver.available result with
                    | [] => JS.lit "none detected"
                    | l => join l
                    end in
                  throw (quoted modelName
                         ++ JS.lit " not found. Available options: "
                         ++ availableStr)
                else
                  wait 500 ;;
                  let chosen :=
                    match truthy (Resolver.selected result) with
                    | Some l => l
                    | None => modelName
                    end in
                  setCurrentModel (Some chosen) ;;
                  ret chosen
            end
      end
  end.

Definition sendPromptText (prompt : jsstring) : M unit :=
  typed <- typeText promptTextarea prompt ;;
  if negb typed
  then throw (JS.lit "Failed to find prompt textarea. The ChatGPT UI may have changed.")
  else
    wait 500 ;;
    sent <- clickElement sendButton ;;
    (if negb sent then getPage ;; perform else ret tt) ;;
    wait 1000 ;;
    getPage ;;
    url <- pageUrl ;;
    match conversationIdOf url with
    | Some id => setConversationId (Some id)
    | None => ret tt
    end.

(** [sleep(fibonacciBackoff(pollCount))]; a delay that is not a number
    makes the timer fire at once. *)
Definition backoffDelay (pollCount : Z) : Z :=
  match Backoff.fibonacciBackoff pollCount with
  | Some ms => ms
  | None => 0
  end.

(** [while (Date.now() < deadline) { ... }]: [Some r] when the body
    returns [r], [None] when the condition ends the loop. *)
Fixpoint pollLoop (fuel : nat) (startTime deadline : Z)
  (pollCount lastContentLength stableCount : Z) : M (option Poll.Result) :=
  match fuel with
  | O => diverge
  | S n =>
      t <- dateNow ;;
      if t <? deadline then
        wait (backoffDelay pollCount) ;;
        let pollCount := pollCount + 1 in
        result <- isGenerationComplete lastContentLength stableCount ;;
        if Detector.complete result then
          response <- getLatestResponseText ;;
          t' <- dateNow ;;
          let elapsedSeconds := (t' - startTime) / 1000 in
          ret (Some {| Poll.response :=
                         match response with Some r => r | None => [] end;
                       Poll.pollCount := pollCount;
                       Poll.elapsedSeconds := elapsedSeconds |})
        else
          pollLoop n startTime deadline pollCount
            (Detector.contentLength result) (Detector.newStableCount result)
      else ret None
  end.

(** Every round waits two seconds at least, so the loop makes no more
    than [30 * timeoutMinutes] rounds (lemma [pollLoop_terminates]). *)
Definition pollFuel (timeoutMinutes : Z) : nat :=
  S (Z.to_nat (30 * timeoutMinutes)).

(** [timeoutMinutes] is a number holding an integer. *)
Definition pollUntilComplete (timeoutMinutes : Z) : M Poll.Result :=
  startTime <- dateNow ;;
  let deadline := startTime + timeoutMinutes * 60 * 1000 in
  r <- pollLoop (pollFuel timeoutMinutes) startTime deadline 0 0 0 ;;
  match r with
  | Some result => ret result
  | None =>
      t <- dateNow ;;
      let elapsedSeconds := (t - startTime) / 1000 in
      throw (timeoutMessage timeoutMinutes elapsedSeconds)
  end.

Definition answered (result : Poll.Result) : M AskResult :=
  st <- getSession ;;
  ret {| response := Poll.response result;
         elapsed_seconds := Poll.elapsedSeconds result;
         model := currentModel st;
         chat_id := conversationId st;
         poll_count := Poll.pollCount result;
         error := None |}.

(** What [blockingAsk] does between [ensureSession] and the poll loop; it
    gives [Some r] where the code returns [r] early. *)
Definition switchProject (project : option jsstring) : M (option AskResult) :=
  match truthy project with
  | Some project =>
      getPage ;;
      currentUrl <- pageUrl ;;
      st <- getSession ;;
      let needsProjectSwitch :=
        negb (isSome (truthy (currentProjectUrl st)))
        || negb (JS.includes (JS.lit "/g/g-p-") currentUrl) in
      if needsProjectSwitch then
        result <- selectProject project ;;
        if negb (success result)
        then ret (Some (failure (message result)))
        else ret None
      else ret None
  | None => ret None
  end.

Definition switchModel (model : option jsstring) : M (option AskResult) :=
  match truthy model with
  | Some model =>
      tryCatch (selectModel model ;; ret None)
        (fun e => ret (Some (failure (JS.lit "Model selection failed: " ++ e))))
  | None => ret None
  end.

Definition blockingAsk (prompt : jsstring) (model project : option jsstring)
  (timeoutMinutes : Z) : M AskResult :=
  tryCatch
    (ensureSession ;;
     early <- switchProject project ;;
     match early with
     | Some r => ret r
     | None =>
         early <- switchModel model ;;
         match early with
         | Some r => ret r
         | None =>
             sendPromptText prompt ;;
             result <- pollUntilComplete timeoutMinutes ;;
             answered result
         end
     end)
    (fun e => ret (failure e)).

Definition blockingReply (prompt : jsstring) (timeoutMinutes : Z)
  : M AskResult :=
  tryCatch
    (ensureSession ;;
     sendPromptText prompt ;;
     result <- pollUntilComplete timeoutMinutes ;;
     answered result)
    (fun e => ret (failure e)).

Definition uploadFiles (filePaths : list jsstring) (prompt : option jsstring)
  (timeoutMinutes : Z) : M AskResult :=
  tryCatch
    (ensureSession ;;
     getPage ;;
     attachClicked <- clickElement attachButton ;;
     if negb attachClicked
     then throw (JS.lit "Failed to find attach/upload button.")
     else
       perform ;;
       perform ;;
       wait 3000 ;;
       match truthy prompt with
       | Some prompt =>
           typed <- typeText promptTextarea prompt ;;
           if negb typed
           then throw (JS.lit "Failed to type prompt after file upload.")
           else ret tt
       | None => ret tt
       end ;;
       wait 500 ;;
       sent <- clickElement sendButton ;;
       (if negb sent then perform else ret tt) ;;
       wait 1000 ;;
       url <- pageUrl ;;
       match conversationIdOf url with
       | Some id => setConversationId (Some id)
       | None => ret tt
       end ;;
       result <- pollUntilComplete timeoutMinutes ;;
       answered result)
    (fun e => ret (failure e)).

(** What each blocking operation does before it enters the poll loop:
    [Some r] where [blockingAsk] returns [r] early, [None] or [tt] where
    the poll loop is reached. *)
Definition askPrelude (prompt : jsstring) (model project : option jsstring)
  : M (option AskResult) :=
  ensureSession ;;
  early <- switchProject project ;;
  match early with
  | Some r => ret (Some r)
  | None =>
      early <- switchModel model ;;
      match early with
      | Some r => ret (Some r)
      | None => sendPromptText prompt ;; ret None
      end
  end.

Definition replyPrelude (prompt : jsstring) : M unit :=
  ensureSession ;; sendPromptText prompt.

Definition uploadPrelude (filePaths : list jsstring)
  (prompt : option jsstring) : M unit :=
  ensureSession ;;
  getPage ;;
  attachClicked <- clickElement attachButton ;;
  if negb attachClicked
  then throw (JS.lit "Failed to find attach/upload button.")
  else
    perform ;;
    perform ;;
    wait 3000 ;;
    match truthy prompt with
    | Some prompt =>
        typed <- typeText promptTextarea prompt ;;
        if negb typed
        then throw (JS.lit "Failed to type prompt after file upload.")
        else ret tt
    | None => ret tt
    end ;;
    wait 500 ;;
    sent <- clickElement sendButton ;;
    (if negb sent then perform else ret tt) ;;
    wait 1000 ;;
    url <- pageUrl ;;
    match conversationIdOf url with
    | Some id => setConversationId (Some id)
    | None => ret tt
    end.

End Operations.

End Runtime.

(* ===================================================================== *)
(** * Concrete pages and drivers *)
(* ===================================================================== *)

Module Examples.
Import Dom Runtime.
Local Open Scope string_scope.

Definition elem (tag : string) (attrs : list (string * string))
  (rendered : string) (children : list Node) : Node :=
  Element (JS.lit tag)
    (map (fun '(k, v) => (JS.lit k, JS.lit v)) attrs)
    (Some (JS.lit rendered)) children.

Definition txt (s : string) : Node := Text (JS.lit s).

Definition turn (n rendered : string) (children : list Node) : Node :=
  elem "article" [("data-testid", "conversation-turn-" ++ n)]
    rendered children.

Definition copyButton : Node :=
  elem "button" [("data-testid", "copy-turn-action-button")] "" [].

(** A finished exchange followed by a new prompt whose answer is still
    being written: the copy button is in the second turn only. *)
Definition pageStreaming : Document :=
  [ elem "main" [] ""
      [ turn "1" "What is 6 x 7?" [txt "What is 6 x 7?"];
        turn "2" "42" [elem "div" [("class", "markdown")] "42" [txt "42"];
                       copyButton];
        turn "3" "And 6 x 8?" [txt "And 6 x 8?"];
        turn "4" "4" [elem "div" [("class", "markdown")] "4" [txt "4"]] ] ].

(** The answer turn shows a reasoning label only, inside its formatted
    content. *)
Definition pageReasoningLabel : Document :=
  [ elem "main" [] ""
      [ turn "1" "hi" [txt "hi"];
        turn "2" "Reasoning"
          [elem "div" [("class", "markdown prose")] "Reasoning"
             [txt "Reasoning"]] ] ].

(** The same last turn after an earlier exchange whose answer is tagged as
    written by the assistant. *)
Definition pageReasoningAfterAnswer : Document :=
  [ elem "main" [] ""
      [ turn "1" "hi" [txt "hi"];
        turn "2" "Hello"
          [elem "div" [("data-message-author-role", "assistant")] "Hello"
             [txt "Hello"]];
        turn "3" "why?" [txt "why?"];
        turn "4" "Reasoning"
          [elem "div" [("class", "markdown prose")] "Reasoning"
             [txt "Reasoning"]] ] ].

(** One turn region, and an assistant-authored region with text. *)
Definition pageSingleTurn : Document :=
  [ elem "main" [] ""
      [ turn "1" "Hello"
          [elem "div" [("data-message-author-role", "assistant")] "Hello"
             [txt "Hello"]] ] ].

(** A browser in which every step succeeds at once, the user is logged
    in, and the page never shows a conversation. *)
Definition quiet : Driver :=
  {| latency := fun _ => 0%N;
     launch := fun _ => None;
     goto := fun _ _ => None;
     snapshot := fun _ => inr [];
     present := fun _ r => match r with loginPrompt => false | _ => true end;
     visible := fun _ _ => true;
     act := fun _ => None;
     location := fun _ => JS.lit "https://chatgpt.com/c/abc-123";
     selectorOpened := fun _ => inr true;
     dropdown := fun _ => inr None;
     lowerCase := JS.toLowerCase |}.

(** The sidebar lists the project [claude]. *)
Definition sidebar : Document :=
  [ elem "nav" [] ""
      [ elem "a" [("href", "/g/g-p-1234-claude/project")] "claude"
          [txt "claude"] ] ].

Definition withSidebar : Driver :=
  {| latency := fun _ => 0%N;
     launch := fun _ => None;
     goto := fun _ _ => None;
     snapshot := fun _ => inr sidebar;
     present := fun _ r => match r with loginPrompt => false | _ => true end;
     visible := fun _ _ => true;
     act := fun _ => None;
     location := fun _ => JS.lit "https://chatgpt.com/";
     selectorOpened := fun _ => inr true;
     dropdown := fun _ => inr None;
     lowerCase := JS.toLowerCase |}.

(** The browser of a user who is not logged in: the login prompt shows at
    every look. *)
Definition loggedOut : Driver :=
  {| latency := fun _ => 0%N;
     launch := fun _ => None;
     goto := fun _ _ => None;
     snapshot := fun _ => inr [];
     present := fun _ r => match r with loginPrompt => true | _ => false end;
     visible := fun _ _ => true;
     act := fun _ => None;
     location := fun _ => JS.lit "https://chatgpt.com/auth/login";
     selectorOpened := fun _ => inr true;
     dropdown := fun _ => inr None;
     lowerCase := JS.toLowerCase |}.

(** An exchange whose answer is written out: the copy button is in the
    last turn. *)
Definition pageDone : Document :=
  [ elem "main" [] ""
      [ turn "1" "What is 6 x 7?" [txt "What is 6 x 7?"];
        turn "2" "42" [elem "div" [("class", "markdown")] "42" [txt "42"];
                       copyButton] ] ].

(** A browser that shows the finished exchange, in the conversation
    [abc-123], and whose model menu lists two models. *)
Definition finished : Driver :=
  {| latency := fun _ => 0%N;
     launch := fun _ => None;
     goto := fun _ _ => None;
     snapshot := fun _ => inr pageDone;
     present := fun _ r => match r with loginPrompt => false | _ => true end;
     visible := fun _ _ => true;
     act := fun _ => None;
     location := fun _ => JS.lit "https://chatgpt.com/c/abc-123";
     selectorOpened := fun _ => inr true;
     dropdown := fun _ =>
       inr (Some [ {| Resolver.text := JS.lit "GPT-5 Instant";
                      Resolver.element := 0%nat |};
                   {| Resolver.text := JS.lit "GPT-5 Pro";
                      Resolver.element := 1%nat |} ]);
     lowerCase := JS.toLowerCase |}.

(** A session that is up: logged in, a model chosen, inside a
    conversation. *)
Definition runningWorld : World :=
  {| sessionState :=
       {| isLoggedIn := true;
          currentModel := Some (JS.lit "GPT-5 Pro");
          conversationId := Some (JS.lit "abc-123");
          currentProjectUrl := None |};
     sessionInitialized := true;
     pageOpen := true;
     now := 0;
     tick := 0 |}.

Definition timeoutText : jsstring :=
  JS.lit "Timeout after 1 minutes (82s). Response may still be generating.".

(** The world in which [blockingReply] on the quiet browser starts to
    poll, and the one in which its loop ends. *)
Definition pollStart : World :=
  Eval vm_compute in
    snd (replyPrelude quiet None (JS.lit "hi") (initialWorld 0)).

Definition pollEnd : World :=
  Eval vm_compute in
    snd (pollLoop quiet (pollFuel 1) (now pollStart)
           (now pollStart + 1 * 60 * 1000) 0 0 0 pollStart).

Definition uploadStart : World :=
  Eval vm_compute in
    snd (uploadPrelude quiet None [JS.lit "/tmp/notes.txt"] None
           (initialWorld 0)).

Definition uploadEnd : World :=
  Eval vm_compute in
    snd (pollLoop quiet (pollFuel 1) (now uploadStart)
           (now uploadStart + 1 * 60 * 1000) 0 0 0 uploadStart).

End Examples.



(* ===================================================================== *)
(** * Option Resolver: discovery of the options *)
(* ===================================================================== *)

Module Discovery.
Import Dom Regex.

(** [s.split(sep)[0]], for a separator that is not empty: the text before
    the first occurrence of [sep], or all of it. *)
Fixpoint before (sep s : jsstring) : jsstring :=
  if JS.startsWith sep s then []
  else match s with
       | [] => []
       | c :: s' => c :: before sep s'
       end.

(** [getOptionText]: the first line of the label, without the description
    that follows the name of a mode. *)
Definition getOptionText (el : Node) : jsstring :=
  let text := JS.trim (textContent el) in
  let firstLine := JS.trim (before [10%N] text) in
  let mainText :=
    JS.trim
      (before (JS.lit "Research")
         (before (JS.lit "Thinks")
            (before (JS.lit "Answers")
               (before (JS.lit "Decides") firstLine)))) in
  if (0 <? length mainText) && (length mainText <? 40)
  then mainText
  else firstn 40 firstLine.

(** An element found by one of the candidate selectors, with the box that
    [getBoundingClientRect] gives for it. The sizes are numbers that are
    only compared with constants. *)
Record Candidate : Type := {
  node : Node;
  width : QArith_base.Q;
  height : QArith_base.Q;
  handle : nat
}.

Definition num (z : Z) : QArith_base.Q := QArith_base.inject_Z z.

(** [rect.width === 0 || rect.height === 0 || rect.height < 20 ||
    rect.height > 100] *)
Definition badSize (item : Candidate) : bool :=
  QArith_base.Qeq_bool (width item) (num 0)
  || QArith_base.Qeq_bool (height item) (num 0)
  || negb (QArith_base.Qle_bool (num 20) (height item))
  || negb (QArith_base.Qle_bool (height item) (num 100)).

Definition skipPatterns : list jsstring :=
  [ JS.lit "how long"; JS.lit "right away"; JS.lit "longer for";
    JS.lit "Close"; JS.lit "Back" ].

(** [/^(Auto|Instant|Thinking|Pro|Legacy|GPT|ChatGPT)/i] *)
Definition modePatterns : regex :=
  Alt (Str (JS.lit "Auto"))
    (Alt (Str (JS.lit "Instant"))
       (Alt (Str (JS.lit "Thinking"))
          (Alt (Str (JS.lit "Pro"))
             (Alt (Str (JS.lit "Legacy"))
                (Alt (Str (JS.lit "GPT")) (Str (JS.lit "ChatGPT"))))))).

Definition isMode (text : jsstring) : bool :=
  match matchAt true modePatterns None text with
  | Some _ => true
  | None => false
  end.

Section Scan.

(** [String.prototype.toLowerCase] *)
Variable lower : jsstring -> jsstring.

Definition skipped (text : jsstring) : bool :=
  existsb (fun p => JS.includes (lower p) (lower text)) skipPatterns.

(** The two nested loops of [selectModel] that fill [availableOptions]:
    [items] are the elements that the candidate selectors find, in the
    order in which the loops visit them, and [seenTexts] the labels kept
    so far. *)
Fixpoint scan (seenTexts : list jsstring) (items : list Candidate)
  : list Resolver.DiscoveredOption :=
  match items with
  | [] => []
  | item :: rest =>
      if badSize item then scan seenTexts rest
      else
        let text := getOptionText (node item) in
        if (length text <? 2) || (50 <? length text)
           || existsb (JS.eqb text) seenTexts
        then scan seenTexts rest
        else if skipped text then scan seenTexts rest
        else if isMode text
        then {| Resolver.text := text; Resolver.element := handle item |}
             :: scan (text :: seenTexts) rest
        else scan seenTexts rest
  end.

Definition discoverOptions (items : list Candidate)
  : list Resolver.DiscoveredOption :=
  scan [] items.

(** What holds of an option that the scan keeps. *)
Definition kept (items : list Candidate) (opt : Resolver.DiscoveredOption)
  : Prop :=
  2 <= length (Resolver.text opt) <= 40
  /\ isMode (Resolver.text opt) = true
  /\ skipped (Resolver.text opt) = false
  /\ exists item,
       In item items
       /\ badSize item = false
       /\ Resolver.text opt = getOptionText (node item)
       /\ Resolver.element opt = handle item.

End Scan.

End Discovery.

(* ===================================================================== *)
(** * Notions used by the proofs *)
(* ===================================================================== *)

Module Support.
Import Dom Regex Runtime.

(** A continuation of the matcher that never hands back more input than it
    was given. *)
Definition shrinking (k : cont) : Prop :=
  forall prev s q rest, k prev s = Some (q, rest) -> length rest <= length s.



(** An element with the elements below it; nothing for a text node. *)
Definition below (c : Node) : list Node :=
  match c with
  | Text _ => []
  | Element _ _ _ _ => c :: descendants c
  end.

(** [t] is the cleaned form of a trimmed text that is not empty. *)
Definition cleanedFromText (t : jsstring) : Prop :=
  exists raw, raw <> [] /\ JS.trim raw = raw /\ t = Clean.cleanText raw.

(** [keeps f]: the part [f] of the state is after what it was before. *)
Definition keeps {X : Type} (f : World -> X) (w w' : World) : Prop :=
  f w' = f w.

Definition sameLogin : World -> World -> Prop :=
  keeps (fun w => isLoggedIn (sessionState w)).

Definition sameInit : World -> World -> Prop :=
  keeps (fun w => sessionInitialized w).

Definition sameSession : World -> World -> Prop :=
  keeps (fun w => sessionState w).

Definition exceptModel : World -> World -> Prop :=
  keeps (fun w => (isLoggedIn (sessionState w),
                   conversationId (sessionState w),
                   currentProjectUrl (sessionState w))).

Definition exceptConversation : World -> World -> Prop :=
  keeps (fun w => (isLoggedIn (sessionState w),
                   currentModel (sessionState w),
                   currentProjectUrl (sessionState w))).

(** [c] ends; it keeps [R] when it throws, and establishes [Q] between
    the states when it returns. *)
Definition effect {A : Type} (R : World -> World -> Prop)
  (Q : A -> World -> World -> Prop) (c : M A) : Prop :=
  forall w,
    match c w with
    | (Ret a, w') => Q a w w'
    | (Throw _, w') => R w w'
    | (Diverge, _) => False
    end.

(** The session state and the initialisation flag are as before. *)
Definition untouched : World -> World -> Prop :=
  keeps (fun w => (sessionState w, sessionInitialized w)).

(** The time that has passed at the least when the poll loop tests its
    condition with [pollCount] checks made: the sum of the delays slept
    so far, 2 + 3 + 5 + 8 + 13 + 21 seconds and thirty for every later
    one. *)
Definition slept (startTime pollCount t : Z) : Prop :=
  (startTime <= t
   /\ (1 <= pollCount -> startTime + 2000 <= t)
   /\ (2 <= pollCount -> startTime + 5000 <= t)
   /\ (3 <= pollCount -> startTime + 10000 <= t)
   /\ (4 <= pollCount -> startTime + 18000 <= t)
   /\ (5 <= pollCount -> startTime + 31000 <= t)
   /\ (6 <= pollCount -> startTime + 52000 + 30000 * (pollCount - 6) <= t))%Z.

(** The session is up: [sessionInitialized && isBrowserRunning()], the
    test with which [ensureSession] starts. *)
Definition up (w : World) : bool :=
  sessionInitialized w && isBrowserRunning w.

(** [projectUrl.startsWith('http') ? projectUrl :
    `https://chatgpt.com${projectUrl}`] *)
Definition fullUrlOf (projectUrl : jsstring) : jsstring :=
  if JS.startsWith (JS.lit "http") projectUrl then projectUrl
  else JS.lit "https://chatgpt.com" ++ projectUrl.

(** [url] is the address of a link that the page has shown for the
    project [name]: what [selectProject] finds and navigates to. *)
Definition projectAddress (D : Driver) (name url : jsstring) : Prop :=
  exists t doc href,
    snapshot D t = inr doc
    /\ truthy (findProjectUrl (lowerCase D) name doc) = Some href
    /\ url = fullUrlOf href.

(** The project that [ensureSession] selects on its way: the default
    project, when the session has to be initialised and has no
    destination yet. *)
Definition autoSelected (defaultProject : option jsstring) (w : World)
  : option jsstring :=
  if up w then None
  else
    match truthy defaultProject, truthy (currentProjectUrl (sessionState w)) with
    | Some project, None => Some project
    | _, _ => None
    end.

(** The destination in [w'] is the one of [w], or the address of the
    project that was selected on the way. *)
Definition destinationKept (D : Driver) (defaultProject : option jsstring)
  (w w' : World) : Prop :=
  currentProjectUrl (sessionState w') = currentProjectUrl (sessionState w)
  \/ exists project url,
       autoSelected defaultProject w = Some project
       /\ projectAddress D project url
       /\ currentProjectUrl (sessionState w') = Some url.

(** The login flag after a call that got past [ensureSession]: as before
    in a session that was up, true after the login check otherwise. *)
Definition loginAfter (w : World) : bool :=
  if up w then isLoggedIn (sessionState w) else true.

(** The texts of the two errors that [ensureSession] and [sendPromptText]
    raise themselves. *)
Definition notLoggedInText : jsstring :=
  JS.lit "Not logged in to ChatGPT. Please log in manually in the browser window, then retry.".

Definition noTextareaText : jsstring :=
  JS.lit "Failed to find prompt textarea. The ChatGPT UI may have changed.".

End Support.

(* ===================================================================== *)
(** * Concrete runs and menus *)
(* ===================================================================== *)

Module Cases.
Import Dom Runtime Examples Discovery.
Local Open Scope string_scope.

(** The state after [ensureSession] has failed on the login check. *)
Definition lockedOut : World :=
  Eval vm_compute in
    snd (ensureSession loggedOut None (initialWorld 0)).

(** What the poll loop returns on the finished exchange, and the state in
    which it ends. *)
Definition polled : Poll.Result :=
  {| Poll.response := JS.lit "42";
     Poll.pollCount := 2;
     Poll.elapsedSeconds := 5 |}.

Definition polledEnd : World :=
  Eval vm_compute in snd (pollUntilComplete finished 1 (initialWorld 0)).

(** What [blockingAsk] returns for the model [pro] on the finished
    exchange, and the state in which it ends. *)
Definition asked : AskResult :=
  {| response := JS.lit "42";
     elapsed_seconds := 5;
     model := Some (JS.lit "GPT-5 Pro");
     chat_id := Some (JS.lit "abc-123");
     poll_count := 2;
     error := None |}.

Definition askedEnd : World :=
  Eval vm_compute in
    snd (blockingAsk finished None (JS.lit "hi") (Some (JS.lit "pro")) None 1
           (initialWorld 0)).

(** An element of the open model menu, 200 pixels wide. *)
Definition menuItem (children : list Node) (h : Z) (n : nat) : Candidate :=
  {| node := Element (JS.lit "div") [(JS.lit "role", JS.lit "menuitem")]
               None children;
     width := num 200;
     height := num h;
     handle := n |}.

(** A menu as the candidate selectors visit it: two modes with their
    descriptions, the first mode found a second time, a mode that is not
    laid out, the button that closes the menu, and a third mode. *)
Definition menuItems : list Candidate :=
  [ menuItem [txt "Auto"; Text [10%N]; txt "Decides how long to think"] 48 0;
    menuItem [txt "InstantAnswers right away"] 48 1;
    menuItem [txt "Auto"; Text [10%N]; txt "Decides how long to think"] 48 2;
    menuItem [txt "Pro"] 0 3;
    menuItem [txt "Close"] 40 4;
    menuItem [txt "Thinking"] 40 5 ].

(** A turn whose answer is followed by its copy button. *)
Definition turnWithButton : Node :=
  turn "2" "42" [elem "div" [("class", "markdown")] "42" [txt "42"];
                 copyButton].

End Cases.

Unset Implicit Arguments.

(* ===================================================================== *)
(** * Properties: strings *)
(* ===================================================================== *)

Module JSFacts.

Lemma eqb_eq (a b : jsstring) : JS.eqb a b = true <-> a = b.
Proof.
  revert b; induction a as [|x a IH]; intros [|y b]; simpl;
    try (split; (discriminate || reflexivity)).
  rewrite andb_true_iff, N.eqb_eq, IH.
  split; [intros [-> ->]; reflexivity | intros H; inversion H; auto].
Qed.

Lemma eqb_refl (a : jsstring) : JS.eqb a a = true.
Proof. apply eqb_eq; reflexivity. Qed.

Lemma eqb_neq (a b : jsstring) : JS.eqb a b = false <-> a <> b.
Proof.
  split.
  - intros H E. apply eqb_eq in E. congruence.
  - intros H. destruct (JS.eqb a b) eqn:E; [|reflexivity].
    apply eqb_eq in E. contradiction.
Qed.

Lemma startsWith_length (p s : jsstring) :
  JS.startsWith p s = true -> length p <= length s.
Proof.
  revert s; induction p as [|x p IH]; intros [|y s]; simpl; try lia;
    try discriminate.
  rewrite andb_true_iff. intros [_ H]. apply IH in H. lia.
Qed.

Lemma removeFirst_length (p s : jsstring) :
  JS.includes p s = true ->
  length (JS.removeFirst p s) + length p = length s.
Proof.
  induction s as [|c s IH]; intros H.
  - destruct p; simpl in *; [reflexivity | discriminate].
  - cbn [JS.removeFirst]. destruct (JS.startsWith p (c :: s)) eqn:E.
    + apply startsWith_length in E. rewrite length_skipn. lia.
    + cbn [JS.includes] in H. rewrite E in H. simpl in H.
      apply IH in H. simpl. lia.
Qed.

End JSFacts.

(* ===================================================================== *)
(** * Properties: backoff, stability, completion *)
(* ===================================================================== *)

Module DetectorFacts.
Import Dom Detector Extractor.
Local Open Scope Z_scope.

Lemma backoff_capped (n : Z) :
  6 <= n -> Backoff.fibonacciBackoff n = Some 30000.
Proof.
  intros H. unfold Backoff.fibonacciBackoff, Backoff.fibonacciBackoffMax.
  replace (Z.min n (Z.of_nat (length Backoff.FIB_DELAYS) - 1)) with 6
    by (simpl; lia).
  reflexivity.
Qed.

Lemma backoff_listed (n : Z) :
  0 <= n <= 7 ->
  Backoff.fibonacciBackoff n
  = Some (1000 * nth (Z.to_nat n) Backoff.schedule 0).
Proof.
  intros H.
  assert (C : n = 0 \/ n = 1 \/ n = 2 \/ n = 3 \/ n = 4 \/ n = 5
              \/ n = 6 \/ n = 7) by lia.
  repeat (destruct C as [-> | C]; [reflexivity|]). subst; reflexivity.
Qed.

(** C8. The backoff delay, in milliseconds, is a thousand times the entry
    of the schedule [2,3,5,8,13,21,30,30] (seconds) for the iterations 0 to
    7; from iteration 6 on it is the final value, 30 seconds; and every
    iteration number that is not negative has a delay. *)
Theorem backoff_follows_schedule (n : Z) (Hn : 0 <= n) :
  (exists ms, Backoff.fibonacciBackoff n = Some ms)
  /\ (n <= 7 ->
      Backoff.fibonacciBackoff n
      = Some (1000 * nth (Z.to_nat n) Backoff.schedule 0))
  /\ (6 <= n -> Backoff.fibonacciBackoff n = Some (1000 * 30)).
Proof.
  split; [|split].
  - destruct (Z_le_gt_dec 6 n) as [H|H].
    + eexists; apply backoff_capped; assumption.
    + eexists; apply backoff_listed; lia.
  - intros H. apply backoff_listed. lia.
  - apply backoff_capped.
Qed.

Lemma backoff_follows_schedule_witness :
  (exists ms, Backoff.fibonacciBackoff 7 = Some ms)
  /\ (7 <= 7 ->
      Backoff.fibonacciBackoff 7
      = Some (1000 * nth (Z.to_nat 7) Backoff.schedule 0))
  /\ (6 <= 7 -> Backoff.fibonacciBackoff 7 = Some (1000 * 30)).
Proof. apply (backoff_follows_schedule 7). lia. Defined.

Lemma backoff_at_least_two_seconds (n : Z) :
  0 <= n -> exists ms, Backoff.fibonacciBackoff n = Some ms /\ 2000 <= ms.
Proof.
  intros Hn. destruct (Z_le_gt_dec 6 n) as [H|H].
  - eexists; split; [apply backoff_capped; assumption | lia].
  - eexists; split; [apply backoff_listed; lia|].
    assert (C : n = 0 \/ n = 1 \/ n = 2 \/ n = 3 \/ n = 4 \/ n = 5) by lia.
    repeat (destruct C as [-> | C]; [simpl; lia|]). subst; simpl; lia.
Qed.

(** C3. The new stable count is the previous one plus one when the current
    length is positive and equal to the previous length, and 0 otherwise;
    it is the stable count of the verdict; and the lengths 0,5,5,5,7,7,
    fed one after the other from the initial counters, give the stable
    counts 0,0,1,2,0,1. *)
Theorem stable_count_update (L S C : Z) :
  stabilityUpdate L S C
  = (if Z_lt_dec 0 C then if Z.eq_dec C L then S + 1 else 0 else 0)
  /\ (forall ind text,
         newStableCount (verdict ind text L S)
         = stabilityUpdate L S (lengthOf text)
         /\ contentLength (verdict ind text L S) = lengthOf text)
  /\ stableCounts 0 0 [0; 5; 5; 5; 7; 7] = [0; 0; 1; 2; 0; 1].
Proof.
  split; [|split; [intros; split; reflexivity | reflexivity]].
  unfold stabilityUpdate.
  destruct (Z_lt_dec 0 C) as [H|H]; destruct (Z.eq_dec C L) as [E|E];
    destruct (Z.ltb_spec 0 C); destruct (Z.eqb_spec C L);
    simpl; try reflexivity; lia.
Qed.

(** C1. The verdict is complete exactly when (a) the copy button is inside
    the last turn, the extracted text is not empty and the updated stable
    count is at least 1, or (b) the turn is not thinking, the extracted
    text is not empty and the updated stable count is at least the
    fallback threshold, which is 10; while the turn is thinking, only the
    copy button can complete. *)
Theorem completion_decision (ind : Indicators) (text : option jsstring)
  (L S : Z) :
  let v := verdict ind text L S in
  (complete v = true <->
     (lastTurnHasCopy ind = true /\ 0 < contentLength v
      /\ 1 <= newStableCount v)
     \/ (isThinking ind = false /\ 0 < contentLength v
         /\ FALLBACK_STABLE_THRESHOLD <= newStableCount v))
  /\ contentLength v = lengthOf text
  /\ newStableCount v = stabilityUpdate L S (contentLength v)
  /\ FALLBACK_STABLE_THRESHOLD = 10
  /\ (isThinking ind = true -> lastTurnHasCopy ind = false ->
      complete v = false).
Proof.
  cbv zeta. unfold verdict; simpl.
  repeat split; try reflexivity.
  - rewrite orb_true_iff, !andb_true_iff, negb_true_iff, !Z.ltb_lt,
      !Z.leb_le. tauto.
  - rewrite orb_true_iff, !andb_true_iff, negb_true_iff, !Z.ltb_lt,
      !Z.leb_le. tauto.
  - intros -> ->. reflexivity.
Qed.

Lemma querySelectorAll_none (sel : selector) (n : Node) :
  Forall (fun e => matches sel e = false) (descendants n) ->
  querySelectorAll sel n = [].
Proof.
  unfold querySelectorAll. induction (descendants n) as [|e l IH];
    intros H; [reflexivity|].
  inversion H; subst. simpl. rewrite H2. auto.
Qed.

Lemma not_copy_button (e : Node) :
  getAttribute (JS.lit "data-testid") e
  <> Some (JS.lit "copy-turn-action-button") ->
  matches copySelector e = false.
Proof.
  intros H. unfold matches, copySelector. simpl.
  destruct e as [d|t a r ch]; [reflexivity|]. simpl in *.
  destruct (assoc (JS.lit "data-testid") a) as [x|]; [|reflexivity].
  destruct (JS.eqb x (JS.lit "copy-turn-action-button")) eqn:E;
    [|reflexivity].
  apply JSFacts.eqb_eq in E. subst. contradiction.
Qed.

(** C2. When no element inside the most recent turn is a copy button,
    whatever the earlier turns hold, the detector reads no completion
    marker, the primary path does not fire, and the verdict can be complete
    through the fallback only. *)
Theorem marker_scoped_to_last_turn (doc : Document) (lastTurn : Node)
  (text : option jsstring) (L S : Z)
  (Hlast : lastOf (querySelectorAll turnSelector (documentNode doc))
           = Some lastTurn)
  (Habsent : Forall (fun e =>
                       getAttribute (JS.lit "data-testid") e
                       <> Some (JS.lit "copy-turn-action-button"))
                    (descendants lastTurn)) :
  let ind := pageIndicators doc in
  let v := verdict ind text L S in
  lastTurnHasCopy ind = false
  /\ primaryPath ind v = false
  /\ complete v
     = negb (isThinking ind) && (0 <? contentLength v)
       && (FALLBACK_STABLE_THRESHOLD <=? newStableCount v).
Proof.
  cbv zeta.
  assert (H : lastTurnHasCopy (pageIndicators doc) = false).
  { unfold pageIndicators. rewrite Hlast.
    destruct (2 <=? length (querySelectorAll turnSelector (documentNode doc)))%nat;
      [|reflexivity].
    simpl. unfold querySelector.
    rewrite querySelectorAll_none; [reflexivity|].
    eapply Forall_impl; [|exact Habsent].
    intros e He. apply not_copy_button. exact He. }
  unfold primaryPath, verdict; simpl. rewrite H. simpl. auto.
Qed.

Lemma marker_scoped_to_last_turn_witness :
  isSome (querySelector copySelector (documentNode Examples.pageStreaming))
  = true
  /\ lastTurnHasCopy (pageIndicators Examples.pageStreaming) = false
  /\ complete (verdict (pageIndicators Examples.pageStreaming)
                 (latestResponseText Examples.pageStreaming) 1 5) = false.
Proof.
  split; [reflexivity|].
  destruct (marker_scoped_to_last_turn Examples.pageStreaming
              (Examples.turn "4" "4"
                 [Examples.elem "div" [("class", "markdown")] "4"
                    [Examples.txt "4"]])%string
              (latestResponseText Examples.pageStreaming) 1 5)
    as (H1 & _ & H3).
  - reflexivity.
  - repeat constructor; simpl; discriminate.
  - split; [exact H1|]. rewrite H3. reflexivity.
Defined.

End DetectorFacts.

(* ===================================================================== *)
(** * Properties: the extraction cascade *)
(* ===================================================================== *)

Module ExtractorFacts.
Import Dom Extractor Clean.

(** C10. On a page with fewer than two conversation-turn regions the
    extractor gives absence, whatever else the page holds: an
    assistant-authored region with text does not change it. *)
Theorem fewer_than_two_turns_absent (doc : Document)
  (Hturns : length (querySelectorAll turnSelector (documentNode doc)) < 2) :
  latestResponseText doc = None.
Proof.
  unfold latestResponseText.
  destruct (Nat.ltb_spec
              (length (querySelectorAll turnSelector (documentNode doc))) 2);
    [reflexivity | lia].
Qed.

Lemma fewer_than_two_turns_absent_witness :
  length (querySelectorAll turnSelector (documentNode Examples.pageSingleTurn))
  = 1
  /\ strategy4 Examples.pageSingleTurn = Some (JS.lit "Hello")
  /\ latestResponseText Examples.pageSingleTurn = None.
Proof.
  split; [reflexivity|]. split; [reflexivity|].
  apply (fewer_than_two_turns_absent Examples.pageSingleTurn).
  simpl. lia.
Defined.

(** C5, at the failing pages. The last turn shows the label "Reasoning"
    inside its formatted content. Strategies 1 and 2 clean it to the empty
    text and go on; strategy 3 returns the cleaned text without looking at
    it, so the result is the empty string: not absence when every strategy
    is empty, and not the text of strategy 4 when that one has some. *)
Theorem strategy3_returns_empty_text :
  strategy1 (Examples.turn "2" "Reasoning"
               [Examples.elem "div" [("class", "markdown prose")] "Reasoning"
                  [Examples.txt "Reasoning"]])%string = None
  /\ latestResponseText Examples.pageReasoningLabel = Some []
  /\ cascadeSpec Examples.pageReasoningLabel = None
  /\ strategy4 Examples.pageReasoningAfterAnswer = Some (JS.lit "Hello")
  /\ latestResponseText Examples.pageReasoningAfterAnswer = Some []
  /\ cascadeSpec Examples.pageReasoningAfterAnswer = Some (JS.lit "Hello").
Proof. vm_compute. repeat split; reflexivity. Qed.

Lemma trimmed_nonEmpty (raw : option jsstring) (t : jsstring) :
  trimmed raw = Some t -> nonEmpty t = true.
Proof.
  unfold trimmed. destruct raw as [r|]; [|discriminate].
  destruct (JS.trim r); [discriminate|].
  intros H; inversion H; reflexivity.
Qed.

Lemma strategy1_spec (lastTurn : Node) :
  strategy1 lastTurn
  = (if nonEmpty (cleanedOf (innerText lastTurn))
     then Some (cleanedOf (innerText lastTurn)) else None).
Proof.
  unfold strategy1, cleanedOf.
  destruct (trimmed (innerText lastTurn)) as [t|]; [|reflexivity].
  destruct (cleanText t); reflexivity.
Qed.

Lemma strategy2_spec (lastTurn : Node) :
  strategy2 lastTurn
  = (if nonEmpty (cleanedOf (Some (textContent (strippedClone lastTurn))))
     then Some (cleanedOf (Some (textContent (strippedClone lastTurn))))
     else None).
Proof.
  unfold strategy2, cleanedOf.
  destruct (trimmed (Some (textContent (strippedClone lastTurn)))) as [t|];
    [|reflexivity].
  destruct (cleanText t); reflexivity.
Qed.

(** Where the code returns a text that is not empty, or absence, it agrees
    with the cascade of the specification. *)
Lemma cascade_agrees_off_empty (doc : Document) :
  2 <= length (querySelectorAll turnSelector (documentNode doc)) ->
  latestResponseText doc <> Some [] ->
  latestResponseText doc = cascadeSpec doc.
Proof.
  unfold latestResponseText, cascadeSpec. intros Hlen.
  destruct (Nat.ltb_spec
              (length (querySelectorAll turnSelector (documentNode doc))) 2)
    as [Hlt|_]; [lia|].
  destruct (lastOf (querySelectorAll turnSelector (documentNode doc)))
    as [lastTurn|]; [|reflexivity].
  unfold candidates. cbn [find].
  rewrite strategy1_spec, strategy2_spec.
  destruct (nonEmpty (cleanedOf (innerText lastTurn))); [reflexivity|].
  destruct (nonEmpty (cleanedOf (Some (textContent (strippedClone lastTurn)))));
    [reflexivity|].
  unfold orElse, strategy3, strategy4, cleanedOf, option_map.
  set (last4 := lastOf (querySelectorAll assistantSelector (documentNode doc))).
  destruct (querySelector markdownSelector lastTurn) as [md|].
  - destruct (trimmed (Some (textContent md))) as [t|].
    + destruct (cleanText t) as [|c l];
        [intros H; exfalso; apply H; reflexivity | reflexivity].
    + cbn [nonEmpty].
      destruct last4 as [m|]; [|reflexivity].
      destruct (trimmed (innerText m)) as [t|]; [|reflexivity].
      destruct (cleanText t) as [|c l];
        [intros H; exfalso; apply H; reflexivity | reflexivity].
  - change (trimmed None) with (@None jsstring). cbn [nonEmpty].
    destruct last4 as [m|]; [|reflexivity].
    destruct (trimmed (innerText m)) as [t|]; [|reflexivity].
    destruct (cleanText t) as [|c l];
      [intros H; exfalso; apply H; reflexivity | reflexivity].
Qed.

End ExtractorFacts.

(* ===================================================================== *)
(** * Properties: option matching *)
(* ===================================================================== *)

Module ResolverFacts.
Import Resolver.

Lemma firstOption_spec (p : DiscoveredOption -> bool)
  (opts : list DiscoveredOption) :
  match firstOption p opts with
  | Some opt => firstSatisfying p opts opt
  | None => noneSatisfying p opts
  end.
Proof.
  induction opts as [|o opts IH]; simpl.
  - constructor.
  - destruct (p o) eqn:E.
    + exists [], opts. repeat split; auto.
    + destruct (firstOption p opts) as [opt|].
      * destruct IH as (before & after & -> & Hp & Hall).
        exists (o :: before), after. repeat split; auto.
      * constructor; assumption.
Qed.

(** C7. The match goes by tiers: the first option whose lowered label
    equals the lowered, trimmed target; failing any, the first whose label
    starts with it; failing any, the first whose label contains it; failing
    all, no selection and nothing clicked. The labels found are reported in
    every case. With the options GPT-5 Instant, GPT-5 Thinking and GPT-5
    Pro, the target "pro" selects GPT-5 Pro. *)
Theorem option_match_precedence (lower : jsstring -> jsstring)
  (target : jsstring) (opts : list DiscoveredOption) :
  let t := JS.trim (lower target) in
  let r := matchOption lower target opts in
  available r = map text opts
  /\ ((exists opt, firstSatisfying (isExact lower t) opts opt
                   /\ r = hit opts opt)
      \/ (noneSatisfying (isExact lower t) opts
          /\ exists opt, firstSatisfying (isPrefix lower t) opts opt
                         /\ r = hit opts opt)
      \/ (noneSatisfying (isExact lower t) opts
          /\ noneSatisfying (isPrefix lower t) opts
          /\ exists opt, firstSatisfying (isSubstring lower t) opts opt
                         /\ r = hit opts opt)
      \/ (noneSatisfying (isExact lower t) opts
          /\ noneSatisfying (isPrefix lower t) opts
          /\ noneSatisfying (isSubstring lower t) opts
          /\ success r = false /\ selected r = None /\ clicked r = None))
  /\ selected (matchOption JS.toLowerCase (JS.lit "pro")
                 (labelled [JS.lit "GPT-5 Instant"; JS.lit "GPT-5 Thinking";
                            JS.lit "GPT-5 Pro"]))
     = Some (JS.lit "GPT-5 Pro").
Proof.
  cbv zeta. unfold matchOption.
  pose proof (firstOption_spec (isExact lower (JS.trim (lower target))) opts)
    as H1.
  pose proof (firstOption_spec (isPrefix lower (JS.trim (lower target))) opts)
    as H2.
  pose proof (firstOption_spec (isSubstring lower (JS.trim (lower target)))
                opts) as H3.
  destruct (firstOption (isExact lower (JS.trim (lower target))) opts)
    as [o1|].
  { split; [reflexivity|]. split; [|reflexivity]. left. exists o1. auto. }
  destruct (firstOption (isPrefix lower (JS.trim (lower target))) opts)
    as [o2|].
  { split; [reflexivity|]. split; [|reflexivity]. right; left.
    split; [assumption|]. exists o2. auto. }
  destruct (firstOption (isSubstring lower (JS.trim (lower target))) opts)
    as [o3|].
  { split; [reflexivity|]. split; [|reflexivity]. right; right; left.
    split; [assumption|]. split; [assumption|]. exists o3. auto. }
  split; [reflexivity|]. split; [|reflexivity]. right; right; right.
  repeat split; assumption.
Qed.

End ResolverFacts.

(* ===================================================================== *)
(** * Properties: the cleaning pass *)
(* ===================================================================== *)

Module CleanFacts.
Import Regex Clean Whitespace.

(** The phrase loop ends because the phrase is gone, not because the fuel
    is. *)
Lemma stripPhraseLoop_gone (phrase : jsstring) :
  phrase <> [] ->
  forall fuel s, length s <= fuel ->
    JS.includes phrase (stripPhraseLoop fuel phrase s) = false.
Proof.
  intros Hp. induction fuel as [|n IH]; intros s Hs.
  - destruct s; [|simpl in Hs; lia]. destruct phrase; [congruence|].
    reflexivity.
  - simpl. destruct (JS.includes phrase s) eqn:E; [|exact E].
    apply IH. pose proof (JSFacts.removeFirst_length phrase s E).
    destruct phrase; [congruence|]. simpl in *. lia.
Qed.

Lemma stripPhrase_gone (phrase s : jsstring) :
  phrase <> [] -> JS.includes phrase (stripPhrase phrase s) = false.
Proof. intros Hp. apply stripPhraseLoop_gone; auto. Qed.

Lemma stripPhrase_absent (phrase s : jsstring) :
  JS.includes phrase s = false -> stripPhrase phrase s = s.
Proof.
  unfold stripPhrase. intros H. destruct (length s); simpl; [reflexivity|].
  rewrite H. reflexivity.
Qed.




(** ** White space *)

Lemma many_spaces (s : jsstring) :
  forall prev, exists q,
    many JS.isSpace prev s (fun a b => Some (a, b))
    = Some (q, JS.trimStart s).
Proof.
  induction s as [|c s IH]; intros prev; simpl.
  - eexists; reflexivity.
  - destruct (JS.isSpace c).
    + destruct (IH (Some c)) as [q ->]. eexists; reflexivity.
    + eexists; reflexivity.
Qed.

Lemma matchAt_spaces (prev : option N) (s : jsstring) :
  match s with
  | c :: s' =>
      if JS.isSpace c
      then exists q, matchAt false reSpaces prev s = Some (q, JS.trimStart s')
      else matchAt false reSpaces prev s = None
  | [] => matchAt false reSpaces prev s = None
  end.
Proof.
  destruct s as [|c s]; [reflexivity|].
  unfold matchAt, reSpaces, Plus. simpl.
  destruct (JS.isSpace c); [|reflexivity].
  apply many_spaces.
Qed.

Lemma trimStart_length (s : jsstring) : length (JS.trimStart s) <= length s.
Proof.
  induction s as [|c s IH]; simpl; [lia|].
  destruct (JS.isSpace c); simpl; lia.
Qed.

Lemma replaceAllFrom_spaces (s : jsstring) :
  (forall prev,
      replaceAllFrom false reSpaces [32%N]
        (length s - length (JS.trimStart s)) prev s = squeeze true s)
  /\ (forall prev,
         replaceAllFrom false reSpaces [32%N] 0 prev s = squeeze false s).
Proof.
  induction s as [|c s [IHa IHb]].
  - split; intros prev; reflexivity.
  - assert (B : forall prev,
               replaceAllFrom false reSpaces [32%N] 0 prev (c :: s)
               = squeeze false (c :: s)).
    { intros prev. cbn [replaceAllFrom squeeze].
      pose proof (matchAt_spaces prev (c :: s)) as M. cbv beta iota in M.
      destruct (JS.isSpace c).
      - destruct M as [q ->].
        pose proof (trimStart_length s).
        replace (length (c :: s) - length (JS.trimStart s))
          with (S (length s - length (JS.trimStart s)))
          by (cbn [length]; lia).
        rewrite IHa. reflexivity.
      - rewrite M, IHb. reflexivity. }
    split; [|exact B].
    intros prev. destruct (JS.isSpace c) eqn:E.
    + pose proof (trimStart_length s).
      cbn [JS.trimStart squeeze]. rewrite E.
      replace (length (c :: s) - length (JS.trimStart s))
        with (S (length s - length (JS.trimStart s)))
        by (cbn [length]; lia).
      cbn [replaceAllFrom]. apply IHa.
    + cbn [JS.trimStart]. rewrite E. rewrite Nat.sub_diag.
      rewrite B. cbn [squeeze]. rewrite E. reflexivity.
Qed.

Lemma replaceAll_spaces (s : jsstring) :
  replaceAll false reSpaces [32%N] s = squeeze false s.
Proof. apply replaceAllFrom_spaces. Qed.

#[local] Hint Constructors tidy : core.

Lemma squeeze_tidy (s : jsstring) : forall b, tidy b (squeeze b s).
Proof.
  induction s as [|c s IH]; intros b; simpl; [constructor|].
  destruct (JS.isSpace c) eqn:E.
  - destruct b; auto.
  - auto.
Qed.

Lemma tidy_squeeze (b : bool) (s : jsstring) :
  tidy b s -> squeeze b s = s.
Proof.
  induction 1 as [b|b c s Hc Hs IH|s Hs IH]; simpl.
  - reflexivity.
  - rewrite Hc, IH. reflexivity.
  - rewrite IH. reflexivity.
Qed.

Lemma tidy_weaken (s : jsstring) : tidy true s -> tidy false s.
Proof. inversion 1; subst; auto. Qed.

Lemma trimStart_tidy (s : jsstring) :
  tidy false s -> tidy false (JS.trimStart s).
Proof.
  inversion 1 as [b|b c s' Hc Hs|s' Hs]; subst; simpl.
  - constructor.
  - rewrite Hc. auto.
  - inversion Hs as [b|b c s'' Hc Hs'|]; subst; simpl.
    + constructor.
    + rewrite Hc. auto.
Qed.

Lemma trimEnd_tidy (b : bool) (s : jsstring) :
  tidy b s -> tidy b (JS.trimEnd s).
Proof.
  induction 1 as [b|b c s Hc Hs IH|s Hs IH]; simpl.
  - constructor.
  - rewrite Hc. destruct (JS.trimEnd s); auto.
  - destruct (JS.trimEnd s); auto.
Qed.

Lemma trimStart_headed (s : jsstring) : headed (JS.trimStart s).
Proof.
  induction s as [|c s IH]; simpl; [exact I|].
  destruct (JS.isSpace c) eqn:E; [exact IH | exact E].
Qed.

Lemma headed_trimStart (s : jsstring) : headed s -> JS.trimStart s = s.
Proof. destruct s as [|c s]; simpl; [reflexivity | intros ->; reflexivity]. Qed.

Lemma trimEnd_headed (s : jsstring) : headed s -> headed (JS.trimEnd s).
Proof.
  destruct s as [|c s]; simpl; [auto|]. intros Hc.
  destruct (JS.trimEnd s); [rewrite Hc|]; exact Hc.
Qed.

Lemma trimEnd_idem (s : jsstring) : JS.trimEnd (JS.trimEnd s) = JS.trimEnd s.
Proof.
  induction s as [|c s IH]; simpl; [reflexivity|].
  destruct (JS.trimEnd s) as [|d r] eqn:E.
  - destruct (JS.isSpace c) eqn:Hc; simpl; [reflexivity|].
    rewrite Hc. reflexivity.
  - cbn [JS.trimEnd]. cbn [JS.trimEnd] in IH. rewrite IH. reflexivity.
Qed.

Lemma trim_fixed (s : jsstring) : JS.trim (JS.trim s) = JS.trim s.
Proof.
  unfold JS.trim.
  rewrite (headed_trimStart (JS.trimEnd (JS.trimStart s))).
  - apply trimEnd_idem.
  - apply trimEnd_headed, trimStart_headed.
Qed.

Lemma collapseSpaces_tidy (s : jsstring) : tidy false (collapseSpaces s).
Proof.
  unfold collapseSpaces, JS.trim. rewrite replaceAll_spaces.
  apply trimEnd_tidy, trimStart_tidy, squeeze_tidy.
Qed.

(** Collapsing white space is idempotent. *)
Lemma collapseSpaces_idem (s : jsstring) :
  collapseSpaces (collapseSpaces s) = collapseSpaces s.
Proof.
  pose proof (collapseSpaces_tidy s) as T.
  unfold collapseSpaces at 1. rewrite replaceAll_spaces.
  rewrite (tidy_squeeze _ _ T).
  unfold collapseSpaces. apply trim_fixed.
Qed.




End CleanFacts.

(* ===================================================================== *)
(** * Properties: computations *)
(* ===================================================================== *)

Module MonadFacts.
Import Runtime.

Lemma bind_Ret {A B : Type} (c : M A) (k : A -> M B) (w w' : World) (a : A) :
  c w = (Ret a, w') -> bind c k w = k a w'.
Proof. unfold bind. intros ->. reflexivity. Qed.

Lemma bind_Throw {A B : Type} (c : M A) (k : A -> M B) (w w' : World)
  (e : jsstring) :
  c w = (Throw e, w') -> bind c k w = (Throw e, w').
Proof. unfold bind. intros ->. reflexivity. Qed.

Lemma bind_inv_Ret {A B : Type} (c : M A) (k : A -> M B) (w w'' : World)
  (b : B) :
  bind c k w = (Ret b, w'') ->
  exists a w', c w = (Ret a, w') /\ k a w' = (Ret b, w'').
Proof.
  unfold bind. destruct (c w) as [[a|e|] w']; try discriminate.
  intros H. exists a, w'. auto.
Qed.

Lemma tryCatch_Ret {A : Type} (c : M A) (h : jsstring -> M A)
  (w w' : World) (a : A) :
  c w = (Ret a, w') -> tryCatch c h w = (Ret a, w').
Proof. unfold tryCatch. intros ->. reflexivity. Qed.

Lemma tryCatch_Throw {A : Type} (c : M A) (h : jsstring -> M A)
  (w w' : World) (e : jsstring) :
  c w = (Throw e, w') -> tryCatch c h w = h e w'.
Proof. unfold tryCatch. intros ->. reflexivity. Qed.

Section Preservation.

Variable R : World -> World -> Prop.
Hypothesis R_refl : forall w, R w w.
Hypothesis R_trans : forall a b c, R a b -> R b c -> R a c.

Lemma preserves_ret {A : Type} (a : A) : preserves R (ret a).
Proof. intros w o w' H. inversion H; subst. apply R_refl. Qed.

Lemma preserves_throw {A : Type} (e : jsstring) : preserves R (@throw A e).
Proof. intros w o w' H. inversion H; subst. apply R_refl. Qed.

Lemma preserves_diverge {A : Type} : preserves R (@diverge A).
Proof. intros w o w' H. inversion H; subst. apply R_refl. Qed.

Lemma preserves_bind {A B : Type} (c : M A) (k : A -> M B) :
  preserves R c -> (forall a, preserves R (k a)) -> preserves R (bind c k).
Proof.
  intros Hc Hk w o w'. unfold bind.
  destruct (c w) as [[a|e|] w1] eqn:E; intros H.
  - eapply R_trans; [eapply Hc; exact E | eapply Hk; exact H].
  - inversion H; subst. eapply Hc; exact E.
  - inversion H; subst. eapply Hc; exact E.
Qed.

Lemma preserves_tryCatch {A : Type} (c : M A) (h : jsstring -> M A) :
  preserves R c -> (forall e, preserves R (h e)) ->
  preserves R (tryCatch c h).
Proof.
  intros Hc Hh w o w'. unfold tryCatch.
  destruct (c w) as [[a|e|] w1] eqn:E; intros H.
  - inversion H; subst. eapply Hc; exact E.
  - eapply R_trans; [eapply Hc; exact E | eapply Hh; exact H].
  - inversion H; subst. eapply Hc; exact E.
Qed.

Lemma preserves_getSession : preserves R getSession.
Proof. intros w o w' H. inversion H; subst. apply R_refl. Qed.

Lemma preserves_dateNow : preserves R dateNow.
Proof. intros w o w' H. inversion H; subst. apply R_refl. Qed.

End Preservation.

Lemma total_ret {A : Type} (a : A) : total (ret a).
Proof. intros w. discriminate. Qed.

Lemma total_throw {A : Type} (e : jsstring) : total (@throw A e).
Proof. intros w. discriminate. Qed.

Lemma total_bind {A B : Type} (c : M A) (k : A -> M B) :
  total c -> (forall a, total (k a)) -> total (bind c k).
Proof.
  intros Hc Hk w. unfold bind. specialize (Hc w).
  destruct (c w) as [[a|e|] w1]; simpl in *.
  - apply Hk.
  - discriminate.
  - congruence.
Qed.

Lemma total_tryCatch {A : Type} (c : M A) (h : jsstring -> M A) :
  total c -> (forall e, total (h e)) -> total (tryCatch c h).
Proof.
  intros Hc Hh w. unfold tryCatch. specialize (Hc w).
  destruct (c w) as [[a|e|] w1]; simpl in *.
  - discriminate.
  - apply Hh.
  - congruence.
Qed.

Lemma total_modifySession (f : SessionState -> SessionState) :
  total (modifySession f).
Proof. intros w. discriminate. Qed.

(** Case analysis on the conditions and matches of a computation. *)
Ltac split_cases :=
  match goal with
  | |- context [if ?b then _ else _] => destruct b
  | |- context [match ?x with _ => _ end] => destruct x
  end.

End MonadFacts.

(* ===================================================================== *)
(** * Properties: session and blocking operations *)
(* ===================================================================== *)

Module RuntimeFacts.
Import Dom Runtime MonadFacts.
Local Open Scope Z_scope.

Lemma advances_refl (w : World) : advances w w.
Proof. unfold advances. repeat split; auto. lia. Qed.

Lemma advances_trans (a b c : World) :
  advances a b -> advances b c -> advances a c.
Proof. unfold advances. intros (?&?&?) (?&?&?). repeat split; auto. lia. Qed.

Lemma sameModel_refl (w : World) : sameModel w w.
Proof. reflexivity. Qed.

Lemma sameModel_trans (a b c : World) :
  sameModel a b -> sameModel b c -> sameModel a c.
Proof. unfold sameModel. congruence. Qed.

Section Frame.

Variable D : Driver.
Variable defaultProject : option jsstring.

(** A relation kept by every step that does not choose a model. *)
Variable R : World -> World -> Prop.
Hypothesis R_refl : forall w, R w w.
Hypothesis R_trans : forall a b c, R a b -> R b c -> R a c.
Hypothesis R_interact : preserves R (interact D).
Hypothesis R_wait : forall ms, preserves R (wait D ms).
Hypothesis R_open : preserves R (setPageOpen true).
Hypothesis R_init : preserves R (setSessionInitialized true).
Hypothesis R_login : forall b, preserves R (setIsLoggedIn b).
Hypothesis R_conv : forall c, preserves R (setConversationId c).
Hypothesis R_proj : forall u, preserves R (setCurrentProjectUrl u).

Ltac frame :=
  repeat first
    [ assumption
    | apply (preserves_ret R R_refl)
    | apply (preserves_throw R R_refl)
    | apply (preserves_diverge R R_refl)
    | apply (preserves_getSession R R_refl)
    | apply (preserves_dateNow R R_refl)
    | apply R_wait | apply R_login | apply R_conv | apply R_proj
    | apply (preserves_bind R R_trans); [|intro]
    | apply (preserves_tryCatch R R_trans); [|intro]
    | split_cases ].

Lemma launchBrowser_preserves : preserves R (launchBrowser D).
Proof.
  intros w o w'. unfold launchBrowser.
  destruct (pageOpen w).
  - intros H; inversion H; subst; apply R_refl.
  - revert w o w'.
    change (preserves R (t <- interact D ;;
                         match launch D t with
                         | Some e => throw e
                         | None => setPageOpen true
                         end)).
    frame.
Qed.

Lemma getPage_preserves : preserves R (getPage D).
Proof.
  intros w o w'. unfold getPage. destruct (pageOpen w).
  - intros H; inversion H; subst; apply R_refl.
  - apply launchBrowser_preserves.
Qed.

Lemma pageUrl_preserves : preserves R (pageUrl D).
Proof. intros w o w' H. inversion H; subst. apply R_refl. Qed.

Lemma navigateTo_preserves (url : jsstring) : preserves R (navigateTo D url).
Proof. unfold navigateTo. pose proof getPage_preserves. frame. Qed.

Lemma findElement_preserves (role : Role) : preserves R (findElement D role).
Proof. unfold findElement. pose proof getPage_preserves. frame. Qed.

Lemma elementExists_preserves (role : Role) :
  preserves R (elementExists D role).
Proof. unfold elementExists. pose proof getPage_preserves. frame. Qed.

Lemma perform_preserves : preserves R (perform D).
Proof. unfold perform. frame. Qed.

Lemma typeText_preserves (role : Role) (text : jsstring) :
  preserves R (typeText D role text).
Proof.
  unfold typeText. pose proof (findElement_preserves role).
  pose proof perform_preserves. frame.
Qed.

Lemma clickElement_preserves (role : Role) :
  preserves R (clickElement D role).
Proof.
  unfold clickElement. pose proof (findElement_preserves role).
  pose proof perform_preserves. frame.
Qed.

Lemma evaluate_preserves {A : Type} (f : Document -> A) :
  preserves R (evaluate D f).
Proof. unfold evaluate. frame. Qed.

Lemma checkLoginStatus_preserves : preserves R (checkLoginStatus D).
Proof.
  unfold checkLoginStatus. pose proof elementExists_preserves as H.
  repeat (apply (preserves_bind R R_trans); [apply H | intro]).
  frame.
Qed.

Lemma loginAttempts_preserves (n : nat) : preserves R (loginAttempts D n).
Proof.
  induction n as [|n IH]; simpl.
  - frame.
  - pose proof checkLoginStatus_preserves. frame.
Qed.

Lemma selectProjectWith_preserves (ensure : M unit) (name : jsstring) :
  preserves R ensure -> preserves R (selectProjectWith D ensure name).
Proof.
  intros He. unfold selectProjectWith.
  pose proof getPage_preserves.
  pose proof (evaluate_preserves (findProjectUrl (lowerCase D) name)).
  frame.
Qed.

Lemma ensureSessionAt_preserves (depth : nat) :
  preserves R (ensureSessionAt D defaultProject depth).
Proof.
  induction depth as [|d IH]; simpl.
  - frame.
  - intros w o w'.
    destruct (sessionInitialized w && isBrowserRunning w).
    + intros H; inversion H; subst; apply R_refl.
    + revert w o w'.
      match goal with |- forall w o w', ?c w = _ -> _ =>
        change (preserves R c) end.
      pose proof launchBrowser_preserves.
      pose proof (navigateTo_preserves chatgptUrl).
      pose proof (loginAttempts_preserves 3).
      apply (preserves_bind R R_trans); [assumption|intros _].
      apply (preserves_bind R R_trans); [assumption|intros navigated].
      destruct (negb navigated); [frame|].
      apply (preserves_bind R R_trans); [apply R_wait|intros _].
      apply (preserves_bind R R_trans); [assumption|intros loggedIn].
      apply (preserves_bind R R_trans); [apply R_login|intros _].
      apply (preserves_bind R R_trans); [apply R_init|intros _].
      destruct (negb loggedIn); [frame|].
      apply (preserves_bind R R_trans); [frame|intros st].
      destruct (truthy defaultProject); [|frame].
      destruct (truthy (currentProjectUrl st)); [frame|].
      apply (preserves_bind R R_trans); [|intro; frame].
      apply selectProjectWith_preserves. exact IH.
Qed.

Lemma ensureSession_preserves : preserves R (ensureSession D defaultProject).
Proof. apply ensureSessionAt_preserves. Qed.

Lemma selectProject_preserves (name : jsstring) :
  preserves R (selectProject D defaultProject name).
Proof. apply selectProjectWith_preserves, ensureSession_preserves. Qed.

Lemma newConversation_preserves :
  preserves R (newConversation D defaultProject).
Proof.
  unfold newConversation. pose proof ensureSession_preserves.
  apply (preserves_tryCatch R R_trans); [|intro; frame].
  apply (preserves_bind R R_trans); [assumption|intro].
  apply (preserves_bind R R_trans); [frame|intro].
  apply (preserves_bind R R_trans); [apply navigateTo_preserves|intro].
  frame.
Qed.

Lemma getLatestResponseText_preserves :
  preserves R (getLatestResponseText D).
Proof.
  unfold getLatestResponseText. pose proof getPage_preserves.
  pose proof (evaluate_preserves Extractor.latestResponseText). frame.
Qed.

Lemma isGenerationComplete_preserves (l s : Z) :
  preserves R (isGenerationComplete D l s).
Proof.
  unfold isGenerationComplete. pose proof getPage_preserves.
  pose proof (evaluate_preserves Detector.pageIndicators).
  pose proof getLatestResponseText_preserves. frame.
Qed.

End Frame.


(** ** The two relations are kept by every step *)

Create HintDb world.

Lemma advances_interact (D : Driver) : preserves advances (interact D).
Proof.
  intros w o w' H. inversion H; subst. unfold advances; simpl.
  repeat split; auto. lia.
Qed.

Lemma advances_wait (D : Driver) (ms : Z) : preserves advances (wait D ms).
Proof.
  intros w o w' H. inversion H; subst. unfold advances; simpl.
  repeat split; auto. lia.
Qed.

Lemma advances_setPageOpen : preserves advances (setPageOpen true).
Proof.
  intros w o w' H. inversion H; subst. unfold advances; simpl.
  repeat split; auto. lia.
Qed.

Lemma advances_setSessionInitialized :
  preserves advances (setSessionInitialized true).
Proof.
  intros w o w' H. inversion H; subst. unfold advances; simpl.
  repeat split; auto. lia.
Qed.

Lemma advances_modifySession (f : SessionState -> SessionState) :
  preserves advances (modifySession f).
Proof.
  intros w o w' H. inversion H; subst. unfold advances; simpl.
  repeat split; auto. lia.
Qed.

Lemma advances_setIsLoggedIn (b : bool) : preserves advances (setIsLoggedIn b).
Proof. apply advances_modifySession. Qed.

Lemma advances_setConversationId (c : option jsstring) :
  preserves advances (setConversationId c).
Proof. apply advances_modifySession. Qed.

Lemma advances_setCurrentProjectUrl (u : option jsstring) :
  preserves advances (setCurrentProjectUrl u).
Proof. apply advances_modifySession. Qed.

Lemma advances_setCurrentModel (m : option jsstring) :
  preserves advances (setCurrentModel m).
Proof. apply advances_modifySession. Qed.

Lemma sameModel_interact (D : Driver) : preserves sameModel (interact D).
Proof. intros w o w' H. inversion H; subst. reflexivity. Qed.

Lemma sameModel_wait (D : Driver) (ms : Z) : preserves sameModel (wait D ms).
Proof. intros w o w' H. inversion H; subst. reflexivity. Qed.

Lemma sameModel_setPageOpen : preserves sameModel (setPageOpen true).
Proof. intros w o w' H. inversion H; subst. reflexivity. Qed.

Lemma sameModel_setSessionInitialized :
  preserves sameModel (setSessionInitialized true).
Proof. intros w o w' H. inversion H; subst. reflexivity. Qed.

Lemma sameModel_setIsLoggedIn (b : bool) :
  preserves sameModel (setIsLoggedIn b).
Proof. intros w o w' H. inversion H; subst. reflexivity. Qed.

Lemma sameModel_setConversationId (c : option jsstring) :
  preserves sameModel (setConversationId c).
Proof. intros w o w' H. inversion H; subst. reflexivity. Qed.

Lemma sameModel_setCurrentProjectUrl (u : option jsstring) :
  preserves sameModel (setCurrentProjectUrl u).
Proof. intros w o w' H. inversion H; subst. reflexivity. Qed.

#[local] Hint Resolve advances_refl advances_trans advances_interact
  advances_wait advances_setPageOpen advances_setSessionInitialized
  advances_setIsLoggedIn advances_setConversationId
  advances_setCurrentProjectUrl
  sameModel_refl sameModel_trans sameModel_interact sameModel_wait
  sameModel_setPageOpen sameModel_setSessionInitialized
  sameModel_setIsLoggedIn sameModel_setConversationId
  sameModel_setCurrentProjectUrl : world.

Section Consequences.

Variable D : Driver.
Variable defaultProject : option jsstring.

Lemma ensureSession_sameModel :
  preserves sameModel (ensureSession D defaultProject).
Proof. apply ensureSession_preserves; eauto with world. Qed.

Lemma newConversation_sameModel :
  preserves sameModel (newConversation D defaultProject).
Proof. apply newConversation_preserves; eauto with world. Qed.

Lemma selectProject_sameModel (name : jsstring) :
  preserves sameModel (selectProject D defaultProject name).
Proof. apply selectProject_preserves; eauto with world. Qed.

Lemma getLatestResponseText_advances :
  preserves advances (getLatestResponseText D).
Proof. apply getLatestResponseText_preserves; eauto with world. Qed.

Lemma isGenerationComplete_advances (l s : Z) :
  preserves advances (isGenerationComplete D l s).
Proof. apply isGenerationComplete_preserves; eauto with world. Qed.

(** ** Termination *)

Ltac tot :=
  repeat first
    [ assumption
    | apply total_ret
    | apply total_throw
    | apply total_modifySession
    | apply total_bind; [|intro]
    | apply total_tryCatch; [|intro]
    | split_cases ].

Lemma total_interact : total (interact D).
Proof. intros w. discriminate. Qed.

Lemma total_wait (ms : Z) : total (wait D ms).
Proof. intros w. discriminate. Qed.

Lemma total_dateNow : total dateNow.
Proof. intros w. discriminate. Qed.

Lemma total_getSession : total getSession.
Proof. intros w. discriminate. Qed.

Lemma total_pageUrl : total (pageUrl D).
Proof. intros w. discriminate. Qed.

Lemma total_setPageOpen (b : bool) : total (setPageOpen b).
Proof. intros w. discriminate. Qed.

Lemma total_setSessionInitialized (b : bool) :
  total (setSessionInitialized b).
Proof. intros w. discriminate. Qed.

Lemma total_launchBrowser : total (launchBrowser D).
Proof.
  intros w. unfold launchBrowser. destruct (pageOpen w); [discriminate|].
  revert w.
  change (total (t <- interact D ;;
                 match launch D t with
                 | Some e => throw e
                 | None => setPageOpen true
                 end)).
  pose proof total_interact. pose proof (total_setPageOpen true). tot.
Qed.

Lemma total_getPage : total (getPage D).
Proof.
  intros w. unfold getPage. destruct (pageOpen w); [discriminate|].
  apply total_launchBrowser.
Qed.

Lemma total_navigateTo (url : jsstring) : total (navigateTo D url).
Proof.
  unfold navigateTo. pose proof total_getPage. pose proof total_interact.
  tot.
Qed.

Lemma total_findElement (role : Role) : total (findElement D role).
Proof.
  unfold findElement. pose proof total_getPage. pose proof total_interact.
  tot.
Qed.

Lemma total_elementExists (role : Role) : total (elementExists D role).
Proof.
  unfold elementExists. pose proof total_getPage. pose proof total_interact.
  tot.
Qed.

Lemma total_perform : total (perform D).
Proof. unfold perform. pose proof total_interact. tot. Qed.

Lemma total_typeText (role : Role) (text : jsstring) :
  total (typeText D role text).
Proof.
  unfold typeText. pose proof (total_findElement role).
  pose proof total_perform. tot.
Qed.

Lemma total_clickElement (role : Role) : total (clickElement D role).
Proof.
  unfold clickElement. pose proof (total_findElement role).
  pose proof total_perform. tot.
Qed.

Lemma total_evaluate {A : Type} (f : Document -> A) : total (evaluate D f).
Proof. unfold evaluate. pose proof total_interact. tot. Qed.

Lemma total_checkLoginStatus : total (checkLoginStatus D).
Proof.
  unfold checkLoginStatus. pose proof total_elementExists as H.
  repeat (apply total_bind; [apply H | intro]).
  apply total_ret.
Qed.

Lemma total_loginAttempts (n : nat) : total (loginAttempts D n).
Proof.
  induction n as [|n IH]; simpl; [apply total_ret|].
  pose proof total_checkLoginStatus. pose proof (total_wait 3000). tot.
Qed.

Lemma total_getLatestResponseText : total (getLatestResponseText D).
Proof.
  unfold getLatestResponseText. pose proof total_getPage.
  pose proof (total_evaluate Extractor.latestResponseText). tot.
Qed.

Lemma total_isGenerationComplete (l s : Z) :
  total (isGenerationComplete D l s).
Proof.
  unfold isGenerationComplete. pose proof total_getPage.
  pose proof (total_evaluate Detector.pageIndicators).
  pose proof total_getLatestResponseText. tot.
Qed.

Lemma total_selectProjectWith (ensure : M unit) (name : jsstring) :
  total ensure -> total (selectProjectWith D ensure name).
Proof.
  intros He. unfold selectProjectWith.
  pose proof total_getPage. pose proof total_interact.
  pose proof (total_evaluate (findProjectUrl (lowerCase D) name)).
  pose proof (total_wait 2000). tot.
Qed.


Lemma bind_ends {A B : Type} (c : M A) (k : A -> M B) (w : World) :
  fst (c w) <> Diverge ->
  (forall a w', c w = (Ret a, w') -> fst (k a w') <> Diverge) ->
  fst (bind c k w) <> Diverge.
Proof.
  unfold bind. destruct (c w) as [[a|e|] w1]; simpl; intros Hc Hk.
  - apply Hk. reflexivity.
  - discriminate.
  - congruence.
Qed.

Lemma tryCatch_ends {A : Type} (c : M A) (h : jsstring -> M A) (w : World) :
  fst (c w) <> Diverge -> (forall e, total (h e)) ->
  fst (tryCatch c h w) <> Diverge.
Proof.
  unfold tryCatch. destruct (c w) as [[a|e|] w1]; simpl; intros Hc Hh.
  - discriminate.
  - apply Hh.
  - congruence.
Qed.

Lemma selectProjectWith_ends (ensure : M unit) (name : jsstring) (w : World) :
  fst (ensure w) <> Diverge ->
  fst (selectProjectWith D ensure name w) <> Diverge.
Proof.
  intros He. unfold selectProjectWith.
  apply tryCatch_ends; [|intro; apply total_ret].
  apply bind_ends; [exact He | intros _ w1 _].
  revert w1.
  match goal with |- forall w1, fst (?c w1) <> _ => change (total c) end.
  pose proof total_getPage. pose proof total_interact.
  pose proof (total_evaluate (findProjectUrl (lowerCase D) name)).
  pose proof (total_wait 2000). tot.
Qed.

Lemma ensureSessionAt_up (d : nat) (w : World) :
  sessionInitialized w = true -> pageOpen w = true ->
  ensureSessionAt D defaultProject (S d) w = (Ret tt, w).
Proof.
  intros Hi Ho. simpl. unfold isBrowserRunning. rewrite Hi, Ho. reflexivity.
Qed.

Lemma launchBrowser_opens (w w' : World) :
  launchBrowser D w = (Ret tt, w') -> pageOpen w' = true.
Proof.
  unfold launchBrowser. destruct (pageOpen w) eqn:E.
  - intros H; inversion H; subst; exact E.
  - unfold bind, interact. destruct (launch D (tick w)).
    + discriminate.
    + unfold setPageOpen. intros H; inversion H; reflexivity.
Qed.

Lemma ensureSessionAt_S (d : nat) :
  ensureSessionAt D defaultProject (S d)
  = fun w =>
      if sessionInitialized w && isBrowserRunning w then (Ret tt, w)
      else
        (launchBrowser D ;;
         navigated <- navigateTo D chatgptUrl ;;
         if negb navigated
         then throw (JS.lit "Failed to navigate to ChatGPT")
         else
           wait D 3000 ;;
           isLoggedIn <- loginAttempts D 3 ;;
           setIsLoggedIn isLoggedIn ;;
           setSessionInitialized true ;;
           if negb isLoggedIn
           then throw (JS.lit "Not logged in to ChatGPT. Please log in manually in the browser window, then retry.")
           else
             st <- getSession ;;
             match truthy defaultProject, truthy (currentProjectUrl st) with
             | Some project, None =>
                 selectProjectWith D (ensureSessionAt D defaultProject d)
                   project ;;
                 ret tt
             | _, _ => ret tt
             end) w.
Proof. reflexivity. Qed.

(** Two levels of nesting are enough: [ensureSession] returns or throws. *)
Lemma ensureSession_returns_or_throws : total (ensureSession D defaultProject).
Proof.
  intros w. unfold ensureSession. rewrite (ensureSessionAt_S 1).
  destruct (sessionInitialized w && isBrowserRunning w); [discriminate|].
  apply bind_ends; [apply total_launchBrowser | intros [] w1 E1].
  apply bind_ends; [apply total_navigateTo | intros navigated w2 E2].
  destruct (negb navigated); [discriminate|].
  apply bind_ends; [apply total_wait | intros [] w3 E3].
  apply bind_ends; [apply total_loginAttempts | intros loggedIn w4 E4].
  apply bind_ends; [discriminate | intros [] w5 E5].
  apply bind_ends; [discriminate | intros [] w6 E6].
  destruct (negb loggedIn); [discriminate|].
  apply bind_ends; [discriminate | intros st w7 E7].
  destruct (truthy defaultProject) as [project|]; [|discriminate].
  destruct (truthy (currentProjectUrl st)); [discriminate|].
  apply bind_ends; [|intros; discriminate].
  apply selectProjectWith_ends.
  rewrite ensureSessionAt_up; [discriminate | |].
  - inversion E7; subst. inversion E6; reflexivity.
  - apply launchBrowser_opens in E1.
    apply navigateTo_preserves with (R := advances) in E2;
      eauto with world.
    apply advances_wait in E3.
    apply loginAttempts_preserves with (R := advances) in E4;
      eauto with world.
    apply advances_setIsLoggedIn in E5.
    apply advances_setSessionInitialized in E6.
    inversion E7; subst.
    apply E6, E5, E4, E3, E2, E1.
Qed.

Lemma total_selectProject (name : jsstring) :
  total (selectProject D defaultProject name).
Proof.
  intros w. apply selectProjectWith_ends, ensureSession_returns_or_throws.
Qed.

Lemma backoffDelay_two_seconds (pollCount : Z) :
  0 <= pollCount -> 2000 <= backoffDelay pollCount.
Proof.
  intros H. unfold backoffDelay.
  destruct (DetectorFacts.backoff_at_least_two_seconds pollCount H)
    as (ms & -> & Hms).
  exact Hms.
Qed.

(** The fuel of the poll loop is never used up: every round moves the
    clock two seconds nearer to the deadline. *)
Lemma pollLoop_terminates (fuel : nat) :
  forall startTime deadline pollCount l s w,
    0 <= pollCount -> (1 <= fuel)%nat ->
    deadline - now w <= 2000 * (Z.of_nat fuel - 1) ->
    fst (pollLoop D fuel startTime deadline pollCount l s w) <> Diverge.
Proof.
  induction fuel as [|n IH]; intros startTime deadline pollCount l s w Hp Hf Hd;
    [lia|].
  cbn [pollLoop].
  apply bind_ends; [discriminate | intros t w0 E0].
  inversion E0; subst t w0; clear E0.
  destruct (Z.ltb_spec (now w) deadline) as [Hlt|Hge]; [|discriminate].
  apply bind_ends; [apply total_wait | intros [] w1 E1].
  apply bind_ends; [apply total_isGenerationComplete | intros res w2 E2].
  destruct (Detector.complete res).
  - apply bind_ends; [apply total_getLatestResponseText | intros r w3 E3].
    apply bind_ends; [discriminate | intros t' w4 E4]. discriminate.
  - pose proof (backoffDelay_two_seconds pollCount Hp) as Hb.
    apply isGenerationComplete_advances in E2. destruct E2 as (Hnow & _).
    assert (Hw1 : now w1 = now w + Z.max 0 (backoffDelay pollCount)
                           + Z.of_N (latency D (tick w)))
      by (inversion E1; reflexivity).
    apply IH; lia.
Qed.

Lemma pollFuel_enough (timeoutMinutes : Z) (w : World) :
  now w + timeoutMinutes * 60 * 1000 - now w
  <= 2000 * (Z.of_nat (pollFuel timeoutMinutes) - 1).
Proof. unfold pollFuel. lia. Qed.

Lemma total_pollUntilComplete (timeoutMinutes : Z) :
  total (pollUntilComplete D timeoutMinutes).
Proof.
  intros w. unfold pollUntilComplete.
  apply bind_ends; [discriminate | intros t w0 E0].
  inversion E0; subst t w0; clear E0.
  apply bind_ends.
  - apply pollLoop_terminates; [lia | unfold pollFuel; lia|].
    apply pollFuel_enough.
  - intros [r|] w1 _; [discriminate|].
    apply bind_ends; [discriminate | intros; discriminate].
Qed.

(** When the condition of the loop ends it, the deadline has passed. *)
Lemma pollLoop_deadline (fuel : nat) :
  forall startTime deadline pollCount l s w w',
    pollLoop D fuel startTime deadline pollCount l s w = (Ret None, w') ->
    deadline <= now w'.
Proof.
  induction fuel as [|n IH]; intros startTime deadline pollCount l s w w';
    [discriminate|].
  cbn [pollLoop]. unfold bind at 1. unfold dateNow at 1.
  destruct (Z.ltb_spec (now w) deadline) as [Hlt|Hge].
  - unfold bind at 1.
    destruct (wait D (backoffDelay pollCount) w) as [[[]|e|] w1];
      try discriminate.
    unfold bind at 1.
    destruct (isGenerationComplete D l s w1) as [[res|e|] w2];
      try discriminate.
    destruct (Detector.complete res).
    + unfold bind at 1.
      destruct (getLatestResponseText D w2) as [[r|e|] w3];
        try discriminate.
    + apply IH.
  - intros H. inversion H; subst. exact Hge.
Qed.


(** What [isGenerationComplete] returns is the verdict on the signals of
    the page it read and on the text it extracted. *)
Lemma isGenerationComplete_returns_verdict (l s : Z) (w w' : World)
  (v : Detector.Verdict) :
  isGenerationComplete D l s w = (Ret v, w') ->
  exists indicators currentText,
    v = Detector.verdict indicators currentText l s.
Proof.
  unfold isGenerationComplete. intros H.
  apply bind_inv_Ret in H as ([] & wa & _ & H).
  apply bind_inv_Ret in H as (indicators & wb & _ & H).
  apply bind_inv_Ret in H as (currentText & wc & _ & H).
  inversion H; subst. eauto.
Qed.

Lemma pollUntilComplete_timeout (timeoutMinutes : Z) (w1 w2 : World) :
  pollLoop D (pollFuel timeoutMinutes) (now w1)
    (now w1 + timeoutMinutes * 60 * 1000) 0 0 0 w1 = (Ret None, w2) ->
  pollUntilComplete D timeoutMinutes w1
  = (Throw (timeoutMessage timeoutMinutes ((now w2 - now w1) / 1000)), w2).
Proof.
  intros H. unfold pollUntilComplete, bind, dateNow. rewrite H. reflexivity.
Qed.

(** ** The blocking operations always answer *)

Lemma total_sendPromptText (prompt : jsstring) :
  total (sendPromptText D prompt).
Proof.
  unfold sendPromptText.
  pose proof (total_typeText promptTextarea prompt).
  pose proof (total_clickElement sendButton).
  pose proof total_getPage. pose proof total_perform.
  pose proof total_pageUrl.
  pose proof (total_wait 500). pose proof (total_wait 1000). tot.
Qed.

Lemma total_selectModel (modelName : jsstring) :
  total (selectModel D modelName).
Proof.
  unfold selectModel.
  pose proof total_getPage. pose proof total_perform.
  pose proof total_interact.
  pose proof (total_evaluate (currentModelOf modelButtonSelectors)).
  pose proof (total_wait 2000). pose proof (total_wait 300).
  pose proof (total_wait 500).
  apply total_bind; [assumption|intros _].
  apply total_bind; [assumption|intros currentModel].
  match goal with |- total (match ?x with _ => _ end) => destruct x end.
  - tot.
  - apply total_bind; [assumption|intros t].
    destruct (selectorOpened D t) as [e|clicked]; [apply total_throw|].
    destruct (negb clicked); [apply total_throw|].
    apply total_bind; [assumption|intros _].
    apply total_bind; [assumption|intros t'].
    destruct (dropdown D t') as [e|found]; [apply total_throw|].
    cbv zeta.
    match goal with |- total (if ?b then _ else _) => destruct b end.
    + apply total_bind; [assumption|intros _].
      apply total_bind; [assumption|intros _]. apply total_throw.
    + apply total_bind; [assumption|intros _].
      apply total_bind; [apply total_modifySession|intros _].
      apply total_ret.
Qed.

Lemma total_switchProject (project : option jsstring) :
  total (switchProject D defaultProject project).
Proof.
  unfold switchProject. destruct (truthy project) as [p|]; [|apply total_ret].
  pose proof total_getPage. pose proof total_pageUrl.
  pose proof total_getSession. pose proof (total_selectProject p). tot.
Qed.

Lemma total_switchModel (model : option jsstring) :
  total (switchModel D model).
Proof.
  unfold switchModel. destruct (truthy model) as [m|]; [|apply total_ret].
  pose proof (total_selectModel m). tot.
Qed.

Lemma total_answered (result : Poll.Result) : total (answered result).
Proof. unfold answered. pose proof total_getSession. tot. Qed.

Lemma catch_all_returns (c : M AskResult) :
  total c ->
  forall w, exists r w', tryCatch c (fun e => ret (failure e)) w = (Ret r, w').
Proof.
  intros Hc w. unfold tryCatch. specialize (Hc w).
  destruct (c w) as [[a|e|] w1]; simpl in *.
  - eauto.
  - unfold ret. eauto.
  - congruence.
Qed.

(** X14. No call of a blocking operation throws or runs for ever: each gives
    back a result record. *)
Lemma blocking_operations_always_answer (prompt : jsstring)
  (model project uploadPrompt : option jsstring) (filePaths : list jsstring)
  (timeoutMinutes : Z) (w : World) :
  (exists r w',
      blockingAsk D defaultProject prompt model project timeoutMinutes w
      = (Ret r, w'))
  /\ (exists r w',
         blockingReply D defaultProject prompt timeoutMinutes w = (Ret r, w'))
  /\ (exists r w',
         uploadFiles D defaultProject filePaths uploadPrompt timeoutMinutes w
         = (Ret r, w')).
Proof.
  pose proof ensureSession_returns_or_throws.
  pose proof (total_switchProject project).
  pose proof (total_switchModel model).
  pose proof (total_sendPromptText prompt).
  pose proof (total_pollUntilComplete timeoutMinutes).
  pose proof total_answered.
  pose proof total_getPage. pose proof total_perform. pose proof total_pageUrl.
  pose proof (total_clickElement attachButton).
  pose proof (total_clickElement sendButton).
  pose proof (total_wait 3000). pose proof (total_wait 500).
  pose proof (total_wait 1000).
  split; [|split].
  - apply catch_all_returns.
    apply total_bind; [assumption|intros _].
    apply total_bind; [assumption|intros [r|]]; [apply total_ret|].
    apply total_bind; [assumption|intros [r|]]; [apply total_ret|].
    apply total_bind; [assumption|intros _].
    apply total_bind; [assumption|intros r]. auto.
  - apply catch_all_returns.
    apply total_bind; [assumption|intros _].
    apply total_bind; [assumption|intros _].
    apply total_bind; [assumption|intros r]. auto.
  - apply catch_all_returns.
    apply total_bind; [assumption|intros _].
    apply total_bind; [assumption|intros _].
    apply total_bind; [assumption|intros attachClicked].
    destruct (negb attachClicked); [apply total_throw|].
    apply total_bind; [assumption|intros _].
    apply total_bind; [assumption|intros _].
    apply total_bind; [assumption|intros _].
    apply total_bind.
    { destruct (truthy uploadPrompt) as [p|]; [|apply total_ret].
      pose proof (total_typeText promptTextarea p). tot. }
    intros _.
    apply total_bind; [assumption|intros _].
    apply total_bind; [assumption|intros sent].
    apply total_bind; [destruct (negb sent); [assumption|apply total_ret]|].
    intros _.
    apply total_bind; [assumption|intros _].
    apply total_bind; [assumption|intros url].
    apply total_bind;
      [destruct (conversationIdOf url);
       [apply total_modifySession | apply total_ret]|].
    intros _.
    apply total_bind; [assumption|intros r]. auto.
Qed.

End Consequences.

(** C6. When the poll loop of [blockingAsk], [blockingReply] or
    [uploadFiles] ends at the deadline, the detector never having reported
    completion, the operation returns a result record and does not throw.
    Its error description reads "Timeout after N minutes (Es). Response may
    still be generating.", where E is the elapsed time in seconds, which is
    not less than the timeout; the other fields are the empty ones of a
    failure (the field [elapsed_seconds] is 0). *)
Theorem timeout_returns_structured_result (D : Driver)
  (defaultProject : option jsstring) (prompt : jsstring)
  (model project uploadPrompt : option jsstring) (filePaths : list jsstring)
  (timeoutMinutes : Z) (w w1 w2 : World)
  (Hloop : pollLoop D (pollFuel timeoutMinutes) (now w1)
             (now w1 + timeoutMinutes * 60 * 1000) 0 0 0 w1
           = (Ret None, w2)) :
  let elapsed := (now w2 - now w1) / 1000 in
  let result :=
    {| response := [];
       elapsed_seconds := 0;
       model := None;
       chat_id := None;
       poll_count := 0;
       error := Some (JS.lit "Timeout after " ++ JS.ofZ timeoutMinutes
                      ++ JS.lit " minutes (" ++ JS.ofZ elapsed
                      ++ JS.lit "s). Response may still be generating.") |} in
  timeoutMinutes * 60 <= elapsed
  /\ (askPrelude D defaultProject prompt model project w = (Ret None, w1) ->
      blockingAsk D defaultProject prompt model project timeoutMinutes w
      = (Ret result, w2))
  /\ (replyPrelude D defaultProject prompt w = (Ret tt, w1) ->
      blockingReply D defaultProject prompt timeoutMinutes w
      = (Ret result, w2))
  /\ (uploadPrelude D defaultProject filePaths uploadPrompt w = (Ret tt, w1) ->
      uploadFiles D defaultProject filePaths uploadPrompt timeoutMinutes w
      = (Ret result, w2)).
Proof.
  cbv zeta.
  pose proof (pollUntilComplete_timeout D timeoutMinutes w1 w2 Hloop) as Ht.
  split; [|split; [|split]].
  - apply pollLoop_deadline in Hloop.
    apply Z.div_le_lower_bound; lia.
  - intros H. unfold askPrelude in H.
    apply bind_inv_Ret in H as ([] & wa & Ea & H).
    apply bind_inv_Ret in H as ([r|] & wb & Eb & H); [discriminate|].
    apply bind_inv_Ret in H as ([r|] & wc & Ec & H); [discriminate|].
    apply bind_inv_Ret in H as ([] & wd & Ed & H).
    inversion H; subst wd; clear H.
    unfold blockingAsk. erewrite tryCatch_Throw; [reflexivity|].
    erewrite bind_Ret by exact Ea.
    erewrite bind_Ret by exact Eb. cbv beta iota.
    erewrite bind_Ret by exact Ec. cbv beta iota.
    erewrite bind_Ret by exact Ed.
    erewrite bind_Throw by exact Ht. reflexivity.
  - intros H. unfold replyPrelude in H.
    apply bind_inv_Ret in H as ([] & wa & Ea & Ed).
    unfold blockingReply. erewrite tryCatch_Throw; [reflexivity|].
    erewrite bind_Ret by exact Ea.
    erewrite bind_Ret by exact Ed.
    erewrite bind_Throw by exact Ht. reflexivity.
  - intros H. unfold uploadPrelude in H.
    apply bind_inv_Ret in H as ([] & wa & Ea & H).
    apply bind_inv_Ret in H as ([] & wb & Eb & H).
    apply bind_inv_Ret in H as (attachClicked & wc & Ec & H).
    unfold uploadFiles. erewrite tryCatch_Throw; [reflexivity|].
    erewrite bind_Ret by exact Ea.
    erewrite bind_Ret by exact Eb.
    erewrite bind_Ret by exact Ec.
    destruct (negb attachClicked); [discriminate|].
    apply bind_inv_Ret in H as ([] & w3 & E3 & H).
    erewrite bind_Ret by exact E3.
    apply bind_inv_Ret in H as ([] & w4 & E4 & H).
    erewrite bind_Ret by exact E4.
    apply bind_inv_Ret in H as ([] & w5 & E5 & H).
    erewrite bind_Ret by exact E5.
    apply bind_inv_Ret in H as ([] & w6 & E6 & H).
    erewrite bind_Ret by exact E6.
    apply bind_inv_Ret in H as ([] & w7 & E7 & H).
    erewrite bind_Ret by exact E7.
    apply bind_inv_Ret in H as (sent & w8 & E8 & H).
    erewrite bind_Ret by exact E8.
    apply bind_inv_Ret in H as ([] & w9 & E9 & H).
    erewrite bind_Ret by exact E9.
    apply bind_inv_Ret in H as ([] & w10 & E10 & H).
    erewrite bind_Ret by exact E10.
    apply bind_inv_Ret in H as (url & w11 & E11 & H).
    erewrite bind_Ret by exact E11.
    erewrite bind_Ret by exact H.
    erewrite bind_Throw by exact Ht. reflexivity.
Qed.

End RuntimeFacts.

Module TimeoutExample.
Import Runtime RuntimeFacts Examples.
Local Open Scope Z_scope.

Lemma timeout_returns_structured_result_witness :
  blockingAsk quiet None (JS.lit "hi") None None 1 (initialWorld 0)
  = (Ret (failure timeoutText), pollEnd)
  /\ blockingReply quiet None (JS.lit "hi") 1 (initialWorld 0)
     = (Ret (failure timeoutText), pollEnd)
  /\ uploadFiles quiet None [JS.lit "/tmp/notes.txt"] None 1 (initialWorld 0)
     = (Ret (failure timeoutText), uploadEnd)
  /\ now pollEnd - now pollStart = 82000.
Proof.
  assert (Hloop : pollLoop quiet (pollFuel 1) (now pollStart)
                    (now pollStart + 1 * 60 * 1000) 0 0 0 pollStart
                  = (Ret None, pollEnd))
    by (vm_compute; reflexivity).
  assert (Hloop' : pollLoop quiet (pollFuel 1) (now uploadStart)
                     (now uploadStart + 1 * 60 * 1000) 0 0 0 uploadStart
                   = (Ret None, uploadEnd))
    by (vm_compute; reflexivity).
  destruct (timeout_returns_structured_result quiet None (JS.lit "hi")
              None None None [] 1 (initialWorld 0) pollStart pollEnd
              Hloop) as (_ & Hask & Hreply & _).
  destruct (timeout_returns_structured_result quiet None (JS.lit "hi")
              None None None [JS.lit "/tmp/notes.txt"] 1 (initialWorld 0)
              uploadStart uploadEnd Hloop') as (_ & _ & _ & Hupload).
  split; [rewrite Hask; [reflexivity | vm_compute; reflexivity]|].
  split; [rewrite Hreply; [reflexivity | vm_compute; reflexivity]|].
  split; [rewrite Hupload; [reflexivity | vm_compute; reflexivity]|].
  reflexivity.
Defined.

End TimeoutExample.

(* ===================================================================== *)
(** * Properties: reset rules of the session state *)
(* ===================================================================== *)

Module SessionFacts.
Import Dom Runtime MonadFacts RuntimeFacts.
Local Open Scope Z_scope.

Lemma tryCatch_inv_Ret {A : Type} (c : M A) (h : jsstring -> M A)
  (w w' : World) (a : A) :
  tryCatch c h w = (Ret a, w') ->
  c w = (Ret a, w')
  \/ exists e w1, c w = (Throw e, w1) /\ h e w1 = (Ret a, w').
Proof.
  unfold tryCatch. destruct (c w) as [[x|e|] w1]; intros H.
  - left. exact H.
  - right. eauto.
  - discriminate.
Qed.

Section Rules.

Variable D : Driver.
Variable defaultProject : option jsstring.

Lemma newConversation_clears (w w' : World) (r : SimpleResult) :
  newConversation D defaultProject w = (Ret r, w') ->
  success r = true ->
  conversationId (sessionState w') = None.
Proof.
  unfold newConversation. intros H Hs.
  apply tryCatch_inv_Ret in H as [H | (e & w1 & _ & H)].
  - apply bind_inv_Ret in H as ([] & wa & _ & H).
    apply bind_inv_Ret in H as (st & wb & _ & H).
    apply bind_inv_Ret in H as (nav & wc & _ & H).
    apply bind_inv_Ret in H as ([] & wd & _ & H).
    apply bind_inv_Ret in H as ([] & we & Ec & H).
    apply bind_inv_Ret in H as (st' & wf & Ef & H).
    inversion Ec; subst we. inversion Ef; subst wf st'.
    inversion H; subst w'. reflexivity.
  - inversion H; subst. discriminate.
Qed.

Lemma selectProjectWith_clears (ensure : M unit) (name : jsstring)
  (w w' : World) (r : SimpleResult) :
  selectProjectWith D ensure name w = (Ret r, w') ->
  success r = true ->
  conversationId (sessionState w') = None
  /\ exists url, currentProjectUrl (sessionState w') = Some url.
Proof.
  unfold selectProjectWith. intros H Hs.
  apply tryCatch_inv_Ret in H as [H | (e & w1 & _ & H)].
  - apply bind_inv_Ret in H as ([] & wa & _ & H).
    apply bind_inv_Ret in H as ([] & wb & _ & H).
    apply bind_inv_Ret in H as (projectUrl & wc & _ & H).
    destruct (truthy projectUrl) as [u|].
    + apply bind_inv_Ret in H as (t & wd & _ & H).
      destruct (goto D t _); [discriminate|].
      apply bind_inv_Ret in H as ([] & we & _ & H).
      apply bind_inv_Ret in H as ([] & wf & Ep & H).
      apply bind_inv_Ret in H as ([] & wg & Ec & H).
      inversion Ep; subst wf. inversion Ec; subst wg.
      inversion H; subst w'. simpl. eauto.
    + inversion H; subst. discriminate.
  - inversion H; subst. discriminate.
Qed.

Lemma newConversation_when_up (w : World) :
  sessionInitialized w = true -> pageOpen w = true ->
  exists r w',
    newConversation D defaultProject w = (Ret r, w')
    /\ success r = true
    /\ sessionState w' = cleared (sessionState w).
Proof.
  intros Hi Ho. unfold newConversation, ensureSession, tryCatch, bind.
  rewrite (ensureSessionAt_up D defaultProject 1 w Hi Ho).
  unfold getSession, navigateTo, bind, getPage. rewrite Ho.
  simpl. eexists; eexists. repeat split.
Qed.

Lemma selectProject_when_up (name : jsstring) (w : World) :
  sessionInitialized w = true -> pageOpen w = true ->
  exists r w',
    selectProject D defaultProject name w = (Ret r, w')
    /\ (success r = true ->
        exists url, sessionState w' = moved url (sessionState w))
    /\ (success r = false -> sessionState w' = sessionState w).
Proof.
  intros Hi Ho.
  unfold selectProject, selectProjectWith, ensureSession, tryCatch, bind.
  rewrite (ensureSessionAt_up D defaultProject 1 w Hi Ho).
  unfold getPage. rewrite Ho. unfold evaluate, bind, interact.
  destruct (snapshot D (tick w)) as [e|doc]; simpl.
  - eexists; eexists. split; [reflexivity|].
    split; [intros X; discriminate X | intros _; reflexivity].
  - destruct (truthy (findProjectUrl (lowerCase D) name doc)) as [u|]; simpl.
    + destruct (goto D (S (tick w)) _); simpl.
      * eexists; eexists. split; [reflexivity|].
        split; [intros X; discriminate X | intros _; reflexivity].
      * eexists; eexists. split; [reflexivity|].
        split; [intros _ | intros X; discriminate X].
        eexists. reflexivity.
    + eexists; eexists. split; [reflexivity|].
      split; [intros X; discriminate X | intros _; reflexivity].
Qed.

End Rules.

(** C9, as stated, fails on the first call of the process: the session is
    initialised on the way, which sets the login flag, and selects the
    default project when one is configured, which changes the
    destination. *)
Lemma first_call_initialises_session :
  let first := newConversation Examples.quiet None (initialWorld 0) in
  let firstWithDefault :=
    newConversation Examples.withSidebar (Some (JS.lit "claude"))
      (initialWorld 0) in
  fst first
  = Ret {| success := true; message := JS.lit "New conversation started." |}
  /\ isLoggedIn (sessionState (initialWorld 0)) = false
  /\ isLoggedIn (sessionState (snd first)) = true
  /\ fst firstWithDefault
     = Ret {| success := true;
              message := JS.lit "New conversation started within current project." |}
  /\ currentProjectUrl (sessionState (initialWorld 0)) = None
  /\ currentProjectUrl (sessionState (snd firstWithDefault))
     = Some (JS.lit "https://chatgpt.com/g/g-p-1234-claude/project").
Proof. vm_compute. repeat split; reflexivity. Qed.

End SessionFacts.

(* ===================================================================== *)
(** * The model on small inputs *)
(* ===================================================================== *)

Module Checks.
Import Dom Regex Clean Extractor Detector Runtime Examples.

Example trim_both_ends :
  JS.trim (JS.lit "  a  b ") = JS.lit "a  b".
Proof. reflexivity. Qed.

Example removeFirst_first_only :
  JS.removeFirst (JS.lit "ab") (JS.lit "xabyab") = JS.lit "xyab".
Proof. reflexivity. Qed.

Example phrase_formed_by_removal :
  stripPhrase (JS.lit "Reasoning") (JS.lit "ReasReasoningoning!") = JS.lit "!".
Proof. reflexivity. Qed.

Example timer_backtracks :
  replaceStart true reTimer [] (JS.lit "15 secsonds left") = JS.lit "onds left"
  /\ replaceStart true reTimer [] (JS.lit "15 SECONDS left") = JS.lit "left"
  /\ replaceStart true reTimer [] (JS.lit "15 minutes") = JS.lit "15 minutes".
Proof. repeat split; reflexivity. Qed.

Example pro_thinking_all_matches :
  replaceAll true reProThinking []
    (JS.lit "a PRO   thinking " ++ [bullet] ++ JS.lit " b pro thinking c")
  = JS.lit "a b c".
Proof. reflexivity. Qed.

Example word_boundary :
  test true thinkingPatterns (JS.lit "Still Thinking...") = true
  /\ test true thinkingPatterns (JS.lit "rethinking it") = false.
Proof. split; reflexivity. Qed.

Example cleanText_chrome :
  cleanText (JS.lit "ChatGPT said: Thinking... The  answer is 42 ")
  = JS.lit "The answer is 42".
Proof. reflexivity. Qed.

Example class_tokens :
  classList (elem "div" [("class", " markdown  prose ")]%string "" [])
  = [JS.lit "markdown"; JS.lit "prose"].
Proof. reflexivity. Qed.

Example turns_in_document_order :
  map (getAttribute (JS.lit "data-testid"))
      (querySelectorAll turnSelector (documentNode pageStreaming))
  = [Some (JS.lit "conversation-turn-1"); Some (JS.lit "conversation-turn-2");
     Some (JS.lit "conversation-turn-3"); Some (JS.lit "conversation-turn-4")].
Proof. reflexivity. Qed.

Example streaming_page_text :
  latestResponseText pageStreaming = Some (JS.lit "4").
Proof. reflexivity. Qed.

Example conversation_id_from_url :
  conversationIdOf (JS.lit "https://chatgpt.com/c/abc-123?x=1")
  = Some (JS.lit "abc-123")
  /\ conversationIdOf (JS.lit "https://chatgpt.com/") = None.
Proof. split; reflexivity. Qed.

Example truthy_values :
  truthy (Some (JS.lit "pro")) = Some (JS.lit "pro")
  /\ truthy (Some []) = None /\ truthy None = None.
Proof. repeat split; reflexivity. Qed.

Example project_link_found :
  findProjectUrl JS.toLowerCase (JS.lit "Claude") sidebar
  = Some (JS.lit "/g/g-p-1234-claude/project").
Proof. reflexivity. Qed.

Example number_in_message :
  JS.ofZ 82 = JS.lit "82" /\ JS.ofZ 0 = JS.lit "0".
Proof. split; reflexivity. Qed.

End Checks.

(* ===================================================================== *)
(** * Further properties: backoff and the completion decision *)
(* ===================================================================== *)

Module DetectorMore.
Import Detector.
Local Open Scope Z_scope.

Lemma backoff_cases (n : Z) :
  0 <= n ->
  (n = 0 /\ Backoff.fibonacciBackoff n = Some 2000)
  \/ (n = 1 /\ Backoff.fibonacciBackoff n = Some 3000)
  \/ (n = 2 /\ Backoff.fibonacciBackoff n = Some 5000)
  \/ (n = 3 /\ Backoff.fibonacciBackoff n = Some 8000)
  \/ (n = 4 /\ Backoff.fibonacciBackoff n = Some 13000)
  \/ (n = 5 /\ Backoff.fibonacciBackoff n = Some 21000)
  \/ (6 <= n /\ Backoff.fibonacciBackoff n = Some 30000).
Proof.
  intros H.
  assert (C : n = 0 \/ n = 1 \/ n = 2 \/ n = 3 \/ n = 4 \/ n = 5 \/ 6 <= n)
    by lia.
  destruct C as [->|[->|[->|[->|[->|[->|C]]]]]]; auto 10.
  do 6 right. split; [exact C|]. apply DetectorFacts.backoff_capped, C.
Qed.

(** X1. The delays never decrease from one poll to the next and stay between
    two and thirty seconds. *)
Theorem backoff_monotone (n m : Z) (Hn : 0 <= n) (Hnm : n <= m) :
  exists a b,
    Backoff.fibonacciBackoff n = Some a
    /\ Backoff.fibonacciBackoff m = Some b
    /\ 2000 <= a /\ a <= b /\ b <= 30000.
Proof.
  assert (Hm : 0 <= m) by lia.
  destruct (backoff_cases n Hn) as [[? ->]|[[? ->]|[[? ->]|[[? ->]|[[? ->]|[[? ->]|[? ->]]]]]]];
    destruct (backoff_cases m Hm) as [[? ->]|[[? ->]|[[? ->]|[[? ->]|[[? ->]|[[? ->]|[? ->]]]]]]];
    try lia; eexists; eexists; repeat split; lia.
Qed.

Lemma backoff_monotone_witness :
  exists a b,
    Backoff.fibonacciBackoff 3 = Some a
    /\ Backoff.fibonacciBackoff 9 = Some b
    /\ 2000 <= a /\ a <= b /\ b <= 30000.
Proof. apply (backoff_monotone 3 9); lia. Defined.

Lemma delay_at (n : Z) :
  0 <= n ->
  exists d,
    Backoff.at_index Backoff.FIB_DELAYS
      (Z.min n (Z.of_nat (length Backoff.FIB_DELAYS) - 1)) = Some d
    /\ 2 <= d <= 30.
Proof.
  intros H.
  assert (C : n = 0 \/ n = 1 \/ n = 2 \/ n = 3 \/ n = 4 \/ n = 5 \/ 6 <= n)
    by lia.
  destruct C as [->|[->|[->|[->|[->|[->|C]]]]]];
    try (eexists; split; [reflexivity | lia]).
  replace (Z.min n (Z.of_nat (length Backoff.FIB_DELAYS) - 1)) with 6
    by (simpl; lia).
  eexists; split; [reflexivity | lia].
Qed.

(** X2. The cap [maxSeconds] bounds the delay, which is never above thirty
    seconds either, and a cap of thirty or more changes nothing; a poll
    number below zero reads outside the table and gives no number. *)
Theorem backoff_respects_cap (pollNumber maxSeconds : Z) :
  (0 <= pollNumber ->
   exists ms,
     Backoff.fibonacciBackoffMax pollNumber maxSeconds = Some ms
     /\ ms <= maxSeconds * 1000 /\ ms <= 30000
     /\ (30 <= maxSeconds ->
         Backoff.fibonacciBackoff pollNumber = Some ms))
  /\ (pollNumber < 0 ->
      Backoff.fibonacciBackoffMax pollNumber maxSeconds = None).
Proof.
  split.
  - intros H. unfold Backoff.fibonacciBackoff, Backoff.fibonacciBackoffMax.
    destruct (delay_at pollNumber H) as (d & -> & Hd).
    eexists. split; [reflexivity|]. repeat split; try lia.
    intros Hc. f_equal. lia.
  - intros H. unfold Backoff.fibonacciBackoffMax.
    replace (Z.min pollNumber (Z.of_nat (length Backoff.FIB_DELAYS) - 1))
      with pollNumber by (simpl; lia).
    unfold Backoff.at_index. destruct (Z.ltb_spec pollNumber 0); [|lia].
    reflexivity.
Qed.

Lemma backoff_respects_cap_witness :
  (exists ms,
      Backoff.fibonacciBackoffMax 4 10 = Some ms
      /\ ms <= 10 * 1000 /\ ms <= 30000
      /\ (30 <= 10 -> Backoff.fibonacciBackoff 4 = Some ms))
  /\ Backoff.fibonacciBackoffMax (-1) 10 = None.
Proof.
  destruct (backoff_respects_cap 4 10) as [H _].
  destruct (backoff_respects_cap (-1) 10) as [_ H'].
  split; [apply H; lia | apply H'; lia].
Defined.

(** X3. A verdict is complete only on a text that is not empty and as long as
    the one seen at the check before; the stable count it returns is the
    previous one plus one. *)
Theorem complete_needs_repeated_length (ind : Indicators)
  (text : option jsstring) (L S : Z)
  (Hc : complete (verdict ind text L S) = true) :
  0 < L
  /\ contentLength (verdict ind text L S) = L
  /\ newStableCount (verdict ind text L S) = S + 1
  /\ (exists t, text = Some t /\ t <> []).
Proof.
  unfold verdict in *. simpl in *. unfold stabilityUpdate in *.
  assert (Hpos : 0 < lengthOf text).
  { destruct (Z.ltb_spec 0 (lengthOf text)); [assumption|].
    rewrite !andb_false_r in Hc. discriminate. }
  destruct (Z.ltb_spec 0 (lengthOf text)); [|lia].
  destruct (Z.eqb_spec (lengthOf text) L) as [E|E]; simpl in Hc.
  - repeat split; try lia.
    destruct text as [[|c t]|]; simpl in Hpos; try lia.
    eexists; split; [reflexivity | discriminate].
  - simpl in Hc. rewrite !andb_false_r in Hc. discriminate.
Qed.

Lemma complete_needs_repeated_length_witness :
  0 < 2
  /\ contentLength
       (verdict {| turnCount := 2; lastTurnHasCopy := true;
                   isThinking := false |} (Some (JS.lit "42")) 2 0) = 2
  /\ newStableCount
       (verdict {| turnCount := 2; lastTurnHasCopy := true;
                   isThinking := false |} (Some (JS.lit "42")) 2 0) = 0 + 1
  /\ (exists t, Some (JS.lit "42") = Some t /\ t <> []).
Proof.
  apply (complete_needs_repeated_length
           {| turnCount := 2; lastTurnHasCopy := true; isThinking := false |}
           (Some (JS.lit "42")) 2 0).
  reflexivity.
Defined.

End DetectorMore.

(* ===================================================================== *)
(** * Further properties: the cleaning pass *)
(* ===================================================================== *)

Module CleanMore.
Import Regex Clean Whitespace CleanFacts Support.

(** ** What is left of the input after a match is not longer than it *)

Lemma many_shrinks (p : N -> bool) (k : cont) :
  shrinking k -> shrinking (fun prev s => many p prev s k).
Proof.
  intros Hk prev s. revert prev.
  induction s as [|c s IH]; intros prev q rest; simpl.
  - apply Hk.
  - destruct (p c).
    + destruct (many p (Some c) s k) as [[q' rest']|] eqn:E.
      * intros H; inversion H; subst. apply IH in E. lia.
      * intros H. apply Hk in H. exact H.
    + apply Hk.
Qed.

Lemma run_shrinks (i : bool) (r : regex) :
  forall k, shrinking k -> shrinking (fun prev s => run i r prev s k).
Proof.
  induction r as [|c|p| |a IHa b IHb|a IHa b IHb|p]; intros k Hk prev s q rest;
    simpl.
  - apply Hk.
  - destruct s as [|x s]; [discriminate|].
    destruct (sameChar i c x); [|discriminate].
    intros H. apply Hk in H. simpl. lia.
  - destruct s as [|x s]; [discriminate|].
    destruct (p x); [|discriminate].
    intros H. apply Hk in H. simpl. lia.
  - destruct (atBoundary prev s); [apply Hk | discriminate].
  - apply (IHa (fun prev' s' => run i b prev' s' k)). apply IHb, Hk.
  - destruct (run i a prev s k) as [[q' rest']|] eqn:E.
    + intros H; inversion H; subst. exact (IHa k Hk _ _ _ _ E).
    + apply (IHb k Hk).
  - apply (many_shrinks p k Hk).
Qed.

Lemma matchAt_shrinks (i : bool) (r : regex) (prev : option N)
  (s : jsstring) (q : option N) (rest : jsstring) :
  matchAt i r prev s = Some (q, rest) -> length rest <= length s.
Proof.
  unfold matchAt.
  apply (run_shrinks i r (fun prev' s' => Some (prev', s'))).
  intros p' s' q' rest' H. inversion H; subst. lia.
Qed.

Lemma replaceStart_shrinks (i : bool) (r : regex) (s : jsstring) :
  length (replaceStart i r [] s) <= length s.
Proof.
  unfold replaceStart.
  destruct (matchAt i r None s) as [[q rest]|] eqn:E; [|lia].
  apply matchAt_shrinks in E. exact E.
Qed.

Lemma replaceAllFrom_shrinks (i : bool) (r : regex) (s : jsstring) :
  forall skip prev, length (replaceAllFrom i r [] skip prev s) <= length s.
Proof.
  induction s as [|c s IH]; intros skip prev; cbn [replaceAllFrom].
  - destruct skip; [destruct (matchAt i r prev [])|]; simpl; lia.
  - destruct skip as [|n].
    + destruct (matchAt i r prev (c :: s)) as [[q rest]|].
      * destruct (length (c :: s) - length rest) as [|m].
        -- specialize (IH 0 (Some c)). simpl. lia.
        -- specialize (IH m (Some c)). simpl. lia.
      * specialize (IH 0 (Some c)). simpl. lia.
    + specialize (IH n (Some c)). simpl. lia.
Qed.

Lemma stripPhraseLoop_shrinks (phrase : jsstring) (fuel : nat) :
  forall s, length (stripPhraseLoop fuel phrase s) <= length s.
Proof.
  induction fuel as [|n IH]; intros s; simpl; [lia|].
  destruct (JS.includes phrase s) eqn:E; [|lia].
  pose proof (JSFacts.removeFirst_length phrase s E).
  specialize (IH (JS.removeFirst phrase s)). lia.
Qed.

Lemma stripPhrases_shrinks (phrases : list jsstring) :
  forall s, length (stripPhrases phrases s) <= length s.
Proof.
  unfold stripPhrases. induction phrases as [|p l IH]; intros s; simpl;
    [lia|].
  specialize (IH (stripPhrase p s)).
  pose proof (stripPhraseLoop_shrinks p (length s) s).
  unfold stripPhrase in *. lia.
Qed.

Lemma squeeze_shrinks (s : jsstring) :
  forall b, length (squeeze b s) <= length s.
Proof.
  induction s as [|c s IH]; intros b; simpl; [lia|].
  destruct (JS.isSpace c); [destruct b|]; simpl;
    [specialize (IH true) | specialize (IH true) | specialize (IH false)];
    lia.
Qed.

Lemma trimEnd_shrinks (s : jsstring) : length (JS.trimEnd s) <= length s.
Proof.
  induction s as [|c s IH]; simpl; [lia|].
  destruct (JS.trimEnd s); [destruct (JS.isSpace c)|]; simpl in *; lia.
Qed.

Lemma collapseSpaces_shrinks (s : jsstring) :
  length (collapseSpaces s) <= length s.
Proof.
  unfold collapseSpaces, JS.trim. rewrite replaceAll_spaces.
  pose proof (trimEnd_shrinks (JS.trimStart (squeeze false s))).
  pose proof (trimStart_length (squeeze false s)).
  pose proof (squeeze_shrinks s false). lia.
Qed.

(** X4. Cleaning only takes characters away: the cleaned text is never longer
    than the text it was made from. *)
Theorem cleanText_never_longer (text : jsstring) :
  length (cleanText text) <= length text.
Proof.
  unfold cleanText. cbv zeta.
  pose proof (stripPhrases_shrinks phrasesToRemove text) as H1.
  set (a := stripPhrases phrasesToRemove text) in *.
  pose proof (replaceStart_shrinks true reThinking a) as H2.
  set (b := replaceStart true reThinking [] a) in *.
  pose proof (replaceAllFrom_shrinks true reProThinking b 0 None) as H3.
  fold (replaceAll true reProThinking [] b) in H3.
  set (c := replaceAll true reProThinking [] b) in *.
  pose proof (replaceStart_shrinks true reTimer c) as H4.
  set (d := replaceStart true reTimer [] c) in *.
  pose proof (collapseSpaces_shrinks d). lia.
Qed.

Lemma cleanText_trimmed (text : jsstring) :
  JS.trim (cleanText text) = cleanText text.
Proof. unfold cleanText. cbv zeta. unfold collapseSpaces. apply trim_fixed. Qed.

Lemma cleanText_tidy (text : jsstring) : tidy false (cleanText text).
Proof. unfold cleanText. cbv zeta. apply collapseSpaces_tidy. Qed.

(** X5. The cleaned text is normalised: it neither starts nor ends with white
    space, its only white space is single spaces, so trimming it or
    collapsing its white space again changes nothing. *)
Theorem cleanText_is_normalised (text : jsstring) :
  JS.trim (cleanText text) = cleanText text
  /\ collapseSpaces (cleanText text) = cleanText text
  /\ tidy false (cleanText text)
  /\ headed (cleanText text)
  /\ JS.trimEnd (cleanText text) = cleanText text.
Proof.
  unfold cleanText. cbv zeta.
  set (d := replaceStart true reTimer []
              (replaceAll true reProThinking []
                 (replaceStart true reThinking []
                    (stripPhrases phrasesToRemove text)))).
  split; [|split; [|split; [|split]]].
  - unfold collapseSpaces. apply trim_fixed.
  - apply collapseSpaces_idem.
  - apply collapseSpaces_tidy.
  - unfold collapseSpaces, JS.trim. apply trimEnd_headed, trimStart_headed.
  - unfold collapseSpaces, JS.trim. apply trimEnd_idem.
Qed.

(** X6. The loop of a phrase leaves no occurrence of it, not even one that a
    removal has put together; it takes characters away only, and leaves a
    text without the phrase as it is. After the whole list, the phrase
    that comes last in it (a bullet and a space) is gone, while an earlier
    phrase can be back: removing the bullet from "ChatGPT sai(bullet)
    d:" forms "ChatGPT said:" again. *)
Theorem phrase_loop_removes_every_occurrence (phrase text : jsstring)
  (Hp : phrase <> []) :
  JS.includes phrase (stripPhrase phrase text) = false
  /\ length (stripPhrase phrase text) <= length text
  /\ (JS.includes phrase text = false -> stripPhrase phrase text = text)
  /\ JS.includes [bullet; 32%N] (stripPhrases phrasesToRemove text) = false
  /\ stripPhrases phrasesToRemove
       (JS.lit "ChatGPT sai" ++ [bullet; 32%N] ++ JS.lit "d:")
     = JS.lit "ChatGPT said:".
Proof.
  split; [apply stripPhrase_gone; exact Hp|].
  split; [apply stripPhraseLoop_shrinks|].
  split; [apply stripPhrase_absent|].
  split; [|reflexivity].
  unfold stripPhrases, phrasesToRemove.
  change [JS.lit "ChatGPT said:"; JS.lit "ChatGPT said"; JS.lit "Pro thinking";
          JS.lit "Answer now"; JS.lit "Extended thinking";
          JS.lit "Show thinking"; JS.lit "Hide thinking"; JS.lit "Reasoning";
          JS.lit "Thinking..."; JS.lit "Thinking" ++ [ellipsis];
          [bullet; 32%N]]
    with ([JS.lit "ChatGPT said:"; JS.lit "ChatGPT said";
           JS.lit "Pro thinking"; JS.lit "Answer now";
           JS.lit "Extended thinking"; JS.lit "Show thinking";
           JS.lit "Hide thinking"; JS.lit "Reasoning"; JS.lit "Thinking...";
           JS.lit "Thinking" ++ [ellipsis]] ++ [[bullet; 32%N]]).
  rewrite fold_left_app. cbn [fold_left].
  apply stripPhrase_gone. discriminate.
Qed.

Lemma phrase_loop_removes_every_occurrence_witness :
  JS.includes (JS.lit "Reasoning")
    (stripPhrase (JS.lit "Reasoning") (JS.lit "ReasReasoningoning done"))
  = false
  /\ stripPhrase (JS.lit "Reasoning") (JS.lit "ReasReasoningoning done")
     = JS.lit " done".
Proof.
  destruct (phrase_loop_removes_every_occurrence (JS.lit "Reasoning")
              (JS.lit "ReasReasoningoning done")) as (H & _).
  - discriminate.
  - split; [exact H | reflexivity].
Defined.

End CleanMore.

(* ===================================================================== *)
(** * Properties: cleaning again *)
(* ===================================================================== *)

Module CleanPasses.
Import Regex Clean Whitespace CleanFacts CleanMore Support.

(** ** A pattern that consumes leaves less than it was given *)







(** ** The phrase loops *)




(** ** One more pass *)





(** ** A chrome phrase on a line of its own *)



















End CleanPasses.

(* ===================================================================== *)
(** * Further properties: option matching *)
(* ===================================================================== *)

Module ResolverMore.
Import Resolver.

Lemma startsWith_refl (s : jsstring) : JS.startsWith s s = true.
Proof.
  induction s as [|c s IH]; simpl; [reflexivity|].
  rewrite N.eqb_refl. exact IH.
Qed.

Lemma startsWith_includes (p s : jsstring) :
  JS.startsWith p s = true -> JS.includes p s = true.
Proof. intros H. destruct s; simpl in *; rewrite H; reflexivity. Qed.

Lemma firstOption_Some (p : DiscoveredOption -> bool)
  (opts : list DiscoveredOption) (opt : DiscoveredOption) :
  firstOption p opts = Some opt -> In opt opts /\ p opt = true.
Proof.
  induction opts as [|o l IH]; simpl; [discriminate|].
  destruct (p o) eqn:E.
  - intros H; inversion H; subst. auto.
  - intros H. apply IH in H. tauto.
Qed.

Lemma firstOption_None (p : DiscoveredOption -> bool)
  (opts : list DiscoveredOption) :
  firstOption p opts = None -> forall o, In o opts -> p o = false.
Proof.
  induction opts as [|o l IH]; simpl; [tauto|].
  destruct (p o) eqn:E; [discriminate|].
  intros H x [<-|Hx]; auto.
Qed.

Section Tiers.

Variable lower : jsstring -> jsstring.
Variable t : jsstring.

Lemma exact_is_prefix (opt : DiscoveredOption) :
  isExact lower t opt = true -> isPrefix lower t opt = true.
Proof.
  unfold isExact, isPrefix. intros H. apply JSFacts.eqb_eq in H.
  rewrite H. apply startsWith_refl.
Qed.

Lemma prefix_is_substring (opt : DiscoveredOption) :
  isPrefix lower t opt = true -> isSubstring lower t opt = true.
Proof. apply startsWith_includes. Qed.

End Tiers.

(** X7. The match succeeds exactly when some discovered label contains the
    lowered, trimmed target; the label it selects is one of the discovered
    ones, contains the target, and is the one whose element is clicked.
    When it fails nothing is clicked and every label is reported. *)
Theorem match_succeeds_iff_some_label_contains
  (lower : jsstring -> jsstring) (target : jsstring)
  (opts : list DiscoveredOption) :
  let t := JS.trim (lower target) in
  let r := matchOption lower target opts in
  (success r = true <->
     exists opt, In opt opts /\ JS.includes t (lower (text opt)) = true)
  /\ (success r = true ->
      exists opt,
        In opt opts
        /\ selected r = Some (text opt)
        /\ clicked r = Some (element opt)
        /\ JS.includes t (lower (text opt)) = true)
  /\ (success r = false -> selected r = None /\ clicked r = None)
  /\ available r = map text opts.
Proof.
  cbv zeta. unfold matchOption.
  set (t := JS.trim (lower target)).
  destruct (firstOption (isExact lower t) opts) as [o1|] eqn:E1.
  { apply firstOption_Some in E1 as [Hin Hp].
    apply exact_is_prefix, prefix_is_substring in Hp.
    repeat split; simpl; eauto; try discriminate. }
  destruct (firstOption (isPrefix lower t) opts) as [o2|] eqn:E2.
  { apply firstOption_Some in E2 as [Hin Hp].
    apply prefix_is_substring in Hp.
    repeat split; simpl; eauto; try discriminate. }
  destruct (firstOption (isSubstring lower t) opts) as [o3|] eqn:E3.
  { apply firstOption_Some in E3 as [Hin Hp].
    repeat split; simpl; eauto; try discriminate. }
  pose proof (firstOption_None _ _ E3) as Hnone.
  simpl. repeat split; try discriminate; try reflexivity.
  intros (opt & Hin & Hc). specialize (Hnone opt Hin).
  unfold isSubstring in Hnone. congruence.
Qed.

End ResolverMore.

(* ===================================================================== *)
(** * Further properties: the page and the extractor *)
(* ===================================================================== *)

Module DomMore.
Import Dom Extractor Clean Whitespace Support.

Lemma Node_induction (P : Node -> Prop)
  (Htext : forall d, P (Text d))
  (Helem : forall t a r ch, Forall P ch -> P (Element t a r ch)) :
  forall n, P n.
Proof.
  fix IH 1. intros [d|t a r ch].
  - apply Htext.
  - apply Helem. induction ch as [|c ch IHch]; constructor.
    + apply IH.
    + exact IHch.
Qed.

(** Whether a selector matches an element is decided by its tag and its
    attributes, which stripping keeps. *)
Lemma matches_removeAll (sel sel' : selector) (n : Node) :
  matches sel (removeAll sel' n) = matches sel n.
Proof.
  destruct n as [d|t a r ch]; reflexivity.
Qed.

Lemma descendants_Element (t : jsstring) (a : list (jsstring * jsstring))
  (r : option jsstring) (ch : list Node) :
  descendants (Element t a r ch) = flat_map below ch.
Proof. reflexivity. Qed.

(** Every element left after stripping comes from an element of the
    original that the selector does not match. *)
Lemma removeAll_origin (sel : selector) :
  forall n e',
    In e' (descendants (removeAll sel n)) ->
    exists e, In e (descendants n)
              /\ e' = removeAll sel e /\ matches sel e = false.
Proof.
  induction n as [d|t a r ch IH] using Node_induction; intros e' He'.
  - destruct He'.
  - cbn [removeAll] in He'. rewrite descendants_Element in *.
    apply in_flat_map in He' as (c' & Hc' & He').
    apply in_flat_map in Hc' as (c & Hc & Hc').
    destruct (matches sel c) eqn:Em; [destruct Hc'|].
    destruct Hc' as [<-|[]].
    rewrite Forall_forall in IH. specialize (IH c Hc).
    destruct c as [d|t' a' r' ch']; [destruct He'|].
    change (removeAll sel (Element t' a' r' ch'))
      with (Element t' a' r'
              (flat_map (fun c0 => if matches sel c0 then []
                                   else [removeAll sel c0]) ch')) in He'.
    cbn [below] in He'. destruct He' as [<-|He'].
    + exists (Element t' a' r' ch'). split; [|split; [reflexivity|exact Em]].
      apply in_flat_map. exists (Element t' a' r' ch').
      split; [exact Hc | left; reflexivity].
    + change (Element t' a' r'
                (flat_map (fun c0 => if matches sel c0 then []
                                     else [removeAll sel c0]) ch'))
        with (removeAll sel (Element t' a' r' ch')) in He'.
      destruct (IH e' He') as (e & He & -> & Hm).
      exists e. split; [|split; [reflexivity|exact Hm]].
      apply in_flat_map. exists (Element t' a' r' ch').
      split; [exact Hc | right; exact He].
Qed.

Lemma removeAll_clean (sel : selector) (n : Node) :
  querySelectorAll sel (removeAll sel n) = [].
Proof.
  apply DetectorFacts.querySelectorAll_none. apply Forall_forall.
  intros e' He'. apply removeAll_origin in He' as (e & _ & -> & Hm).
  rewrite matches_removeAll. exact Hm.
Qed.

Lemma removeAll_keeps_clean (sel sel' : selector) (n : Node) :
  querySelectorAll sel n = [] ->
  querySelectorAll sel (removeAll sel' n) = [].
Proof.
  intros H. apply DetectorFacts.querySelectorAll_none. apply Forall_forall.
  intros e' He'. apply removeAll_origin in He' as (e & He & -> & _).
  rewrite matches_removeAll.
  destruct (matches sel e) eqn:Em; [|reflexivity].
  assert (Hin : In e (querySelectorAll sel n))
    by (apply filter_In; split; assumption).
  rewrite H in Hin. destruct Hin.
Qed.

(** A text node matches no selector whose compounds are not empty. *)
Lemma matches_Text (sel : selector) (d : jsstring) :
  ~ In [] sel -> matches sel (Text d) = false.
Proof.
  unfold matches. induction sel as [|c sel IH]; intros H; [reflexivity|].
  cbn [existsb]. rewrite IH by (intros Hin; apply H; right; exact Hin).
  destruct c as [|s c]; [exfalso; apply H; left; reflexivity|].
  reflexivity.
Qed.

Lemma removeAll_nothing (sel : selector) (Hsel : ~ In [] sel) :
  forall n, querySelectorAll sel n = [] -> removeAll sel n = n.
Proof.
  induction n as [d|t a r ch IH] using Node_induction; intros H;
    [reflexivity|].
  cbn [removeAll]. f_equal.
  assert (Hd : forall e, In e (flat_map below ch) -> matches sel e = false).
  { intros e He. destruct (matches sel e) eqn:Em; [|reflexivity].
    assert (Hin : In e (querySelectorAll sel (Element t a r ch)))
      by (apply filter_In; split; assumption).
    rewrite H in Hin. destruct Hin. }
  clear H. induction ch as [|c ch IHch]; [reflexivity|].
  inversion IH as [|? ? Hc Hch]; subst.
  cbn [flat_map].
  assert (Hsub : forall e, In e (flat_map below ch) -> matches sel e = false).
  { intros e He. apply Hd. cbn [flat_map]. apply in_or_app. right. exact He. }
  rewrite (IHch Hch Hsub).
  destruct c as [d|t' a' r' ch'].
  - rewrite (matches_Text sel d Hsel). reflexivity.
  - rewrite (Hd (Element t' a' r' ch'))
      by (cbn [flat_map below]; left; reflexivity).
    cbn [app]. f_equal. apply Hc.
    apply DetectorFacts.querySelectorAll_none. apply Forall_forall.
    intros e He. apply Hd. cbn [flat_map below]. right.
    apply in_or_app. left. exact He.
Qed.

Lemma fold_removeAll_clean (sels : list selector) (sel : selector) :
  forall n,
    querySelectorAll sel n = [] ->
    querySelectorAll sel
      (fold_left (fun clone s => removeAll s clone) sels n) = [].
Proof.
  induction sels as [|s l IH]; intros n H; simpl; [exact H|].
  apply IH. apply removeAll_keeps_clean. exact H.
Qed.

Lemma fold_removeAll_strips (sels : list selector) (sel : selector) :
  In sel sels ->
  forall n,
    querySelectorAll sel
      (fold_left (fun clone s => removeAll s clone) sels n) = [].
Proof.
  induction sels as [|s l IH]; intros Hin n; [destruct Hin|].
  simpl. destruct Hin as [->|Hin].
  - apply fold_removeAll_clean. apply removeAll_clean.
  - apply IH. exact Hin.
Qed.

Lemma fold_removeAll_nothing (sels : list selector) (n : Node) :
  (forall sel, In sel sels -> ~ In [] sel) ->
  (forall sel, In sel sels -> querySelectorAll sel n = []) ->
  fold_left (fun clone s => removeAll s clone) sels n = n.
Proof.
  induction sels as [|s l IH]; intros W H; simpl; [reflexivity|].
  rewrite (removeAll_nothing s (W s (or_introl eq_refl)) n)
    by (apply H; left; reflexivity).
  apply IH.
  - intros sel Hs. apply W. right. exact Hs.
  - intros sel Hs. apply H. right. exact Hs.
Qed.

Lemma chromeSelectors_well_formed (sel : selector) :
  In sel chromeSelectors -> ~ In [] sel.
Proof.
  unfold chromeSelectors. simpl.
  intros H. repeat (destruct H as [<-|H]; [intros [E|[]]; discriminate E|]).
  destruct H.
Qed.

(** X8. Strategy 2 reads a clone from which every chrome element is gone: no
    button, toolbar, navigation, header, footer or thinking element is
    left below it. A turn without chrome elements is read as it is. *)
Theorem stripped_clone_has_no_chrome (lastTurn : Node) :
  (forall sel, In sel chromeSelectors ->
               querySelectorAll sel (strippedClone lastTurn) = [])
  /\ ((forall sel, In sel chromeSelectors ->
                   querySelectorAll sel lastTurn = []) ->
      strippedClone lastTurn = lastTurn).
Proof.
  split.
  - intros sel Hin. apply fold_removeAll_strips. exact Hin.
  - apply fold_removeAll_nothing. apply chromeSelectors_well_formed.
Qed.

Lemma stripped_clone_has_no_chrome_witness :
  querySelectorAll [[Tag (JS.lit "button")]]
    (strippedClone Cases.turnWithButton) = []
  /\ querySelectorAll [[Tag (JS.lit "button")]] Cases.turnWithButton <> [].
Proof.
  split.
  - apply (proj1 (stripped_clone_has_no_chrome Cases.turnWithButton)).
    left. reflexivity.
  - vm_compute. discriminate.
Defined.

Lemma trimmed_spec (o : option jsstring) (r : jsstring) :
  trimmed o = Some r -> r <> [] /\ JS.trim r = r.
Proof.
  unfold trimmed. destruct o as [x|]; [|discriminate].
  destruct (JS.trim x) as [|c l] eqn:E; [discriminate|].
  intros H; inversion H; subst. split; [discriminate|].
  rewrite <- E. apply CleanFacts.trim_fixed.
Qed.

Lemma strategy1_cleaned (n : Node) (t : jsstring) :
  strategy1 n = Some t -> cleanedFromText t /\ t <> [].
Proof.
  unfold strategy1. destruct (trimmed (innerText n)) as [r|] eqn:E;
    [|discriminate].
  destruct (cleanText r) as [|c l] eqn:Ec; [discriminate|].
  cbn [length Nat.ltb Nat.leb]. intros H; inversion H; subst.
  destruct (trimmed_spec _ _ E). split; [|discriminate].
  exists r. rewrite Ec. auto.
Qed.

Lemma strategy2_cleaned (n : Node) (t : jsstring) :
  strategy2 n = Some t -> cleanedFromText t /\ t <> [].
Proof.
  unfold strategy2.
  destruct (trimmed (Some (textContent (strippedClone n)))) as [r|] eqn:E;
    [|discriminate].
  destruct (cleanText r) as [|c l] eqn:Ec; [discriminate|].
  cbn [length Nat.ltb Nat.leb]. intros H; inversion H; subst.
  destruct (trimmed_spec _ _ E). split; [|discriminate].
  exists r. rewrite Ec. auto.
Qed.

Lemma strategy3_cleaned (n : Node) (t : jsstring) :
  strategy3 n = Some t -> cleanedFromText t.
Proof.
  unfold strategy3. destruct (querySelector markdownSelector n) as [md|];
    [|discriminate].
  destruct (trimmed (Some (textContent md))) as [r|] eqn:E; [|discriminate].
  intros H; inversion H; subst. destruct (trimmed_spec _ _ E).
  exists r. auto.
Qed.

Lemma strategy4_cleaned (doc : Document) (t : jsstring) :
  strategy4 doc = Some t -> cleanedFromText t.
Proof.
  unfold strategy4.
  destruct (lastOf (querySelectorAll assistantSelector (documentNode doc)))
    as [m|]; [|discriminate].
  destruct (trimmed (innerText m)) as [r|] eqn:E; [|discriminate].
  intros H; inversion H; subst. destruct (trimmed_spec _ _ E).
  exists r. auto.
Qed.

(** X9. A text given back by the extractor is always the cleaned form of a
    text that was not empty, so it is normalised: no white space at its
    ends, single spaces inside. The page it comes from has two turn
    regions at least. *)
Theorem extracted_text_is_cleaned (doc : Document) (t : jsstring)
  (H : latestResponseText doc = Some t) :
  (exists raw, raw <> [] /\ JS.trim raw = raw /\ t = cleanText raw)
  /\ JS.trim t = t
  /\ tidy false t
  /\ 2 <= length (querySelectorAll turnSelector (documentNode doc)).
Proof.
  assert (C : cleanedFromText t
              /\ 2 <= length (querySelectorAll turnSelector (documentNode doc))).
  { unfold latestResponseText in H.
    destruct (Nat.ltb_spec
                (length (querySelectorAll turnSelector (documentNode doc))) 2)
      as [Hlt|Hge]; [discriminate|].
    split; [|exact Hge].
    destruct (lastOf (querySelectorAll turnSelector (documentNode doc)))
      as [lastTurn|]; [|discriminate].
    unfold orElse in H.
    destruct (strategy1 lastTurn) as [t1|] eqn:E1.
    { inversion H; subst. apply (strategy1_cleaned _ _ E1). }
    destruct (strategy2 lastTurn) as [t2|] eqn:E2.
    { inversion H; subst. apply (strategy2_cleaned _ _ E2). }
    destruct (strategy3 lastTurn) as [t3|] eqn:E3.
    { inversion H; subst. apply (strategy3_cleaned _ _ E3). }
    apply (strategy4_cleaned _ _ H). }
  destruct C as ((raw & Hr & Ht & ->) & Hlen).
  pose proof (CleanMore.cleanText_trimmed raw) as T1.
  pose proof (CleanMore.cleanText_tidy raw) as T3.
  split; [exists raw; auto|]. auto.
Qed.

Lemma extracted_text_is_cleaned_witness :
  (exists raw, raw <> [] /\ JS.trim raw = raw /\ JS.lit "4" = cleanText raw)
  /\ JS.trim (JS.lit "4") = JS.lit "4"
  /\ tidy false (JS.lit "4")
  /\ 2 <= length (querySelectorAll turnSelector
                    (documentNode Examples.pageStreaming)).
Proof.
  apply (extracted_text_is_cleaned Examples.pageStreaming (JS.lit "4")).
  reflexivity.
Defined.

End DomMore.

(* ===================================================================== *)
(** * Further properties: discovery of the options *)
(* ===================================================================== *)

Module DiscoveryMore.
Import Dom Regex Discovery Resolver.

Lemma before_incl (sep s : jsstring) (c : N) :
  In c (before sep s) -> In c s.
Proof.
  induction s as [|x s IH]; simpl.
  - destruct (JS.startsWith sep []); intros H; exact H.
  - destruct (JS.startsWith sep (x :: s)); [intros []|].
    intros [->|H]; [left; reflexivity | right; apply IH, H].
Qed.

Lemma before_newline (s : jsstring) : ~ In 10%N (before [10%N] s).
Proof.
  induction s as [|x s IH]; [simpl; tauto|].
  cbn [before JS.startsWith].
  destruct (N.eqb_spec 10 x) as [E|E]; cbn [andb]; [simpl; tauto|].
  intros [H|H]; [congruence | exact (IH H)].
Qed.

Lemma trimStart_incl (s : jsstring) (c : N) :
  In c (JS.trimStart s) -> In c s.
Proof.
  induction s as [|x s IH]; simpl; [tauto|].
  destruct (JS.isSpace x); [intros H; right; apply IH, H | intros H; exact H].
Qed.

Lemma trimEnd_incl (s : jsstring) (c : N) :
  In c (JS.trimEnd s) -> In c s.
Proof.
  induction s as [|x s IH]; simpl; [tauto|].
  destruct (JS.trimEnd s) as [|y r].
  - destruct (JS.isSpace x); [intros [] | intros [->|[]]; left; reflexivity].
  - intros [->|H]; [left; reflexivity | right; apply IH, H].
Qed.

Lemma trim_incl (s : jsstring) (c : N) : In c (JS.trim s) -> In c s.
Proof. unfold JS.trim. intros H. apply trimStart_incl, trimEnd_incl, H. Qed.

Lemma firstn_incl (n : nat) (s : jsstring) (c : N) :
  In c (firstn n s) -> In c s.
Proof.
  revert s; induction n as [|n IH]; intros [|x s]; simpl; try tauto.
  intros [->|H]; [left; reflexivity | right; apply IH, H].
Qed.

Lemma getOptionText_one_line (el : Node) :
  length (getOptionText el) <= 40
  /\ ~ In 10%N (getOptionText el).
Proof.
  unfold getOptionText. cbv zeta.
  set (firstLine := JS.trim (before [10%N] (JS.trim (textContent el)))).
  set (mainText := JS.trim _).
  assert (Hline : ~ In 10%N firstLine).
  { intros H. apply trim_incl in H. exact (before_newline _ H). }
  assert (Hcut : length (firstn 40 firstLine) <= 40
                 /\ ~ In 10%N (firstn 40 firstLine)).
  { split; [rewrite length_firstn; lia|].
    intros H. apply Hline. eapply firstn_incl, H. }
  destruct (0 <? length mainText); cbn [andb]; [|exact Hcut].
  destruct (Nat.ltb_spec (length mainText) 40) as [E2|E2]; [|exact Hcut].
  split; [lia|]. intros H. apply Hline. subst mainText.
  apply trim_incl in H. repeat apply before_incl in H. exact H.
Qed.

(** X10. A label is one line of forty code units at most. *)
Theorem option_label_is_short (el : Node) :
  length (getOptionText el) <= 40
  /\ ~ In 10%N (getOptionText el).
Proof. exact (getOptionText_one_line el). Qed.

Section ScanFacts.

Variable lower : jsstring -> jsstring.

Lemma not_seen (text : jsstring) (seen : list jsstring) :
  existsb (JS.eqb text) seen = false -> ~ In text seen.
Proof.
  induction seen as [|x l IH]; simpl; [tauto|].
  rewrite orb_false_iff. intros [E H] [->|Hin].
  - rewrite JSFacts.eqb_refl in E. discriminate.
  - exact (IH H Hin).
Qed.

Lemma scan_kept (items : list Candidate) :
  forall seen opt,
    In opt (scan lower seen items) ->
    kept lower items opt /\ ~ In (text opt) seen.
Proof.
  induction items as [|item rest IH]; intros seen opt; simpl; [tauto|].
  assert (W : forall s, In opt (scan lower s rest) ->
                        kept lower (item :: rest) opt /\ ~ In (text opt) s).
  { intros s H. destruct (IH s opt H) as ((L & M & K & it & Hin & Hrest) & Hs).
    split; [|exact Hs]. repeat split; try tauto.
    exists it. split; [right; exact Hin | exact Hrest]. }
  destruct (badSize item) eqn:Eb; [apply W|].
  destruct (Nat.ltb_spec (length (getOptionText (node item))) 2) as [E2|E2];
    [apply W|].
  destruct (50 <? length (getOptionText (node item))) eqn:E50; [apply W|].
  destruct (existsb (JS.eqb (getOptionText (node item))) seen) eqn:Es;
    [apply W|].
  cbn [orb].
  destruct (skipped lower (getOptionText (node item))) eqn:Ek; [apply W|].
  destruct (isMode (getOptionText (node item))) eqn:Em; [|apply W].
  intros [<-|H].
  - cbn [text element]. split; [|apply not_seen, Es].
    pose proof (getOptionText_one_line (node item)) as (Hl & _).
    repeat split; try lia; try assumption.
    exists item. repeat split; [left; reflexivity | exact Eb].
  - apply W in H. destruct H as (K & Hs). split; [exact K|].
    intros Hin. apply Hs. right. exact Hin.
Qed.

Lemma scan_NoDup (items : list Candidate) :
  forall seen, NoDup (map text (scan lower seen items)).
Proof.
  induction items as [|item rest IH]; intros seen; simpl; [constructor|].
  destruct (badSize item); [apply IH|].
  destruct ((length (getOptionText (node item)) <? 2)
            || (50 <? length (getOptionText (node item)))
            || existsb (JS.eqb (getOptionText (node item))) seen);
    [apply IH|].
  destruct (skipped lower (getOptionText (node item))); [apply IH|].
  destruct (isMode (getOptionText (node item))); [|apply IH].
  cbn [map text]. constructor; [|apply IH].
  intros Hin. apply in_map_iff in Hin as (o & Ho & Hin).
  apply scan_kept in Hin as (_ & Hs). apply Hs. left. symmetry. exact Ho.
Qed.

End ScanFacts.

(** X11. The options that the scan of the dropdown keeps have different labels;
    each label is that of a visited element of plausible size, has between
    2 and 40 code units, begins with the name of a mode and holds none of
    the phrases to skip. *)
Theorem discovered_options_are_distinct_modes
  (lower : jsstring -> jsstring) (items : list Candidate) :
  NoDup (map text (discoverOptions lower items))
  /\ (forall opt,
         In opt (discoverOptions lower items) ->
         2 <= length (text opt) <= 40
         /\ isMode (text opt) = true
         /\ skipped lower (text opt) = false
         /\ exists item,
              In item items
              /\ badSize item = false
              /\ text opt = getOptionText (node item)
              /\ element opt = handle item).
Proof.
  split.
  - apply scan_NoDup.
  - intros opt H. apply (scan_kept lower items [] opt H).
Qed.

Lemma discovered_options_are_distinct_modes_witness :
  NoDup (map text (discoverOptions JS.toLowerCase Cases.menuItems))
  /\ map text (discoverOptions JS.toLowerCase Cases.menuItems)
     = [JS.lit "Auto"; JS.lit "Instant"; JS.lit "Thinking"]
  /\ map element (discoverOptions JS.toLowerCase Cases.menuItems)
     = [0; 1; 5].
Proof.
  split.
  - apply (proj1 (discovered_options_are_distinct_modes JS.toLowerCase
                    Cases.menuItems)).
  - split; vm_compute; reflexivity.
Defined.

End DiscoveryMore.

(* ===================================================================== *)
(** * Further properties: conversation identifier and project links *)
(* ===================================================================== *)

Module LinkFacts.
Import Dom Runtime MonadFacts.

Lemma takeWhile_all (p : N -> bool) (s : jsstring) :
  forallb p (takeWhile p s) = true.
Proof.
  induction s as [|c s IH]; simpl; [reflexivity|].
  destruct (p c) eqn:E; simpl; [rewrite E; exact IH | reflexivity].
Qed.

Lemma takeWhile_prefix (p : N -> bool) (s : jsstring) :
  JS.startsWith (takeWhile p s) s = true.
Proof.
  induction s as [|c s IH]; simpl; [reflexivity|].
  destruct (p c); simpl; [rewrite N.eqb_refl; exact IH | reflexivity].
Qed.

Lemma takeWhile_app (p : N -> bool) (a rest : jsstring) :
  forallb p a = true ->
  match rest with [] => True | c :: _ => p c = false end ->
  takeWhile p (a ++ rest) = a.
Proof.
  induction a as [|x a IH]; simpl; intros Ha Hr.
  - destruct rest as [|c rest]; [reflexivity|]. simpl. rewrite Hr. reflexivity.
  - apply andb_true_iff in Ha as [Hx Ha]. rewrite Hx, IH; auto.
Qed.

Lemma startsWith_app (p q s : jsstring) :
  JS.startsWith p s = true ->
  JS.startsWith q (skipn (length p) s) = true ->
  JS.startsWith (p ++ q) s = true.
Proof.
  revert s; induction p as [|x p IH]; intros s; simpl; [auto|].
  destruct s as [|y s]; [discriminate|].
  rewrite andb_true_iff. intros [-> H] Hq. simpl. apply IH; assumption.
Qed.

Lemma includes_cons (p s : jsstring) (c : N) :
  JS.includes p s = true -> JS.includes p (c :: s) = true.
Proof. intros H. cbn [JS.includes]. rewrite H. apply orb_true_r. Qed.

Lemma includes_app_r (p a b : jsstring) :
  JS.includes p b = true -> JS.includes p (a ++ b) = true.
Proof.
  intros H. induction a as [|c a IH]; [exact H|].
  apply includes_cons, IH.
Qed.

Lemma startsWith_nil_includes (p s : jsstring) :
  JS.includes p s = false -> JS.startsWith p s = false.
Proof.
  destruct s; simpl; rewrite orb_false_iff; intros [H _]; exact H.
Qed.

Lemma conversationIdOf_sound (url : jsstring) :
  forall id,
    conversationIdOf url = Some id ->
    id <> []
    /\ forallb isIdChar id = true
    /\ JS.includes (JS.lit "/c/" ++ id) url = true.
Proof.
  induction url as [|c url IH]; intros id.
  - cbn. discriminate.
  - cbn [conversationIdOf].
    destruct (JS.startsWith (JS.lit "/c/") (c :: url)) eqn:Es.
    + destruct (takeWhile isIdChar (skipn 3 (c :: url))) as [|x l] eqn:Et.
      * intros H. apply IH in H as (H1 & H2 & H3).
        repeat split; auto. apply includes_cons, H3.
      * intros H; inversion H; subst id. clear H.
        split; [discriminate|]. split.
        -- rewrite <- Et. apply takeWhile_all.
        -- apply ResolverMore.startsWith_includes.
           apply startsWith_app; [exact Es|].
           rewrite <- Et. apply takeWhile_prefix.
    + intros H. apply IH in H as (H1 & H2 & H3).
      repeat split; auto. apply includes_cons, H3.
Qed.

Lemma conversationIdOf_none (url : jsstring) :
  JS.includes (JS.lit "/c/") url = false -> conversationIdOf url = None.
Proof.
  induction url as [|c url IH]; intros H; [reflexivity|].
  cbn [conversationIdOf].
  rewrite (startsWith_nil_includes _ _ H).
  apply IH. cbn [JS.includes] in H. apply orb_false_iff in H as [_ H].
  exact H.
Qed.

(** X12. The conversation identifier read from the address of the page is never
    empty, is made of the characters a-f, 0-9 and the hyphen, and stands in
    the address after "/c/"; an address without "/c/" gives none; and the
    address of a conversation of chatgpt.com gives back its identifier,
    whatever follows it. *)
Theorem conversation_id_extraction (url : jsstring) :
  (forall id,
      conversationIdOf url = Some id ->
      id <> []
      /\ forallb isIdChar id = true
      /\ JS.includes (JS.lit "/c/" ++ id) url = true)
  /\ (JS.includes (JS.lit "/c/") url = false -> conversationIdOf url = None)
  /\ (forall id rest,
         id <> [] ->
         forallb isIdChar id = true ->
         match rest with [] => True | c :: _ => isIdChar c = false end ->
         conversationIdOf (JS.lit "https://chatgpt.com/c/" ++ id ++ rest)
         = Some id).
Proof.
  split; [apply conversationIdOf_sound|].
  split; [apply conversationIdOf_none|].
  intros id rest Hid Hall Hrest.
  cbn -[takeWhile isIdChar].
  rewrite (takeWhile_app isIdChar id rest Hall Hrest).
  destruct id as [|x l]; [congruence | reflexivity].
Qed.

Lemma conversation_id_extraction_witness :
  conversationIdOf
    (JS.lit "https://chatgpt.com/c/" ++ JS.lit "68a1-4bcd" ++ JS.lit "?model=pro")
  = Some (JS.lit "68a1-4bcd")
  /\ conversationIdOf (JS.lit "https://chatgpt.com/g/g-p-12/project") = None.
Proof.
  destruct (conversation_id_extraction
              (JS.lit "https://chatgpt.com/g/g-p-12/project"))
    as (_ & Hnone & Hround).
  split.
  - apply (Hround (JS.lit "68a1-4bcd") (JS.lit "?model=pro"));
      [discriminate | reflexivity | reflexivity].
  - apply Hnone. reflexivity.
Defined.

Lemma project_link_shape (root el : Node) :
  In el (querySelectorAll projectLinkSelector root) ->
  JS.includes (JS.lit "/g/g-p-") (hrefOf el) = true.
Proof.
  unfold querySelectorAll. intros H. apply filter_In in H as [_ H].
  unfold matches, projectLinkSelector in H. cbn [existsb forallb] in H.
  rewrite orb_false_r, andb_true_r in H.
  apply andb_true_iff in H as [_ H].
  unfold hrefOf. destruct el as [d|t a r ch]; [discriminate|].
  cbn [matchesSimple] in H.
  destruct (getAttribute (JS.lit "href") (Element t a r ch)) as [x|];
    [|discriminate].
  apply andb_true_iff in H as [_ H]. exact H.
Qed.

(** X13. The link that [selectProject] follows is a project link of the page:
    its address holds "/g/g-p-" and "/project", and the lowered text of
    the link contains the lowered name asked for, whatever the lowering
    function of the engine is. *)
Theorem project_link_is_a_project (lower : jsstring -> jsstring)
  (name : jsstring) (doc : Document) (href : jsstring)
  (H : findProjectUrl lower name doc = Some href) :
  JS.includes (JS.lit "/g/g-p-") href = true
  /\ JS.includes (JS.lit "/project") href = true
  /\ exists el,
       In el (querySelectorAll projectLinkSelector (documentNode doc))
       /\ hrefOf el = href
       /\ JS.includes (lower name) (lower (JS.trim (textContent el))) = true.
Proof.
  unfold findProjectUrl in H. cbv zeta in H.
  destruct (find _ _) as [el|] eqn:E1 in H.
  - inversion H; subst href. apply find_some in E1 as [Hin Hp].
    apply andb_true_iff in Hp as [Hproj Hname].
    split; [eapply project_link_shape; exact Hin|].
    split; [exact Hproj|].
    exists el. repeat split; auto.
    apply JSFacts.eqb_eq in Hname. rewrite Hname.
    apply ResolverMore.startsWith_includes, ResolverMore.startsWith_refl.
  - destruct (find _ _) as [el|] eqn:E2 in H; [|discriminate].
    inversion H; subst href. apply find_some in E2 as [Hin Hp].
    apply andb_true_iff in Hp as [Hproj Hname].
    split; [eapply project_link_shape; exact Hin|].
    split; [exact Hproj|].
    exists el. repeat split; auto.
Qed.

Lemma project_link_is_a_project_witness :
  JS.includes (JS.lit "/g/g-p-") (JS.lit "/g/g-p-1234-claude/project") = true
  /\ JS.includes (JS.lit "/project") (JS.lit "/g/g-p-1234-claude/project")
     = true
  /\ exists el,
       In el (querySelectorAll projectLinkSelector
                (documentNode Examples.sidebar))
       /\ hrefOf el = JS.lit "/g/g-p-1234-claude/project"
       /\ JS.includes (JS.toLowerCase (JS.lit "CLAUDE"))
            (JS.toLowerCase (JS.trim (textContent el))) = true.
Proof.
  apply (project_link_is_a_project JS.toLowerCase (JS.lit "CLAUDE")
           Examples.sidebar
           (JS.lit "/g/g-p-1234-claude/project")).
  reflexivity.
Defined.

End LinkFacts.

(* ===================================================================== *)
(** * Further properties: session and operations *)
(* ===================================================================== *)

Module RuntimeMore.
Import Dom Runtime MonadFacts RuntimeFacts Support.
Local Open Scope Z_scope.

Lemma bind_cases {A B : Type} (c : M A) (k : A -> M B) (w w' : World)
  (o : Outcome B) :
  bind c k w = (o, w') ->
  (exists a w1, c w = (Ret a, w1) /\ k a w1 = (o, w'))
  \/ ((exists e, o = Throw e /\ c w = (Throw e, w'))
      \/ (o = Diverge /\ c w = (Diverge, w'))).
Proof.
  unfold bind. destruct (c w) as [[a|e|] w1]; intros H.
  - left. eauto.
  - right. left. inversion H; subst. eauto.
  - right. right. inversion H; subst. eauto.
Qed.

Lemma bind_inv_Throw {A B : Type} (c : M A) (k : A -> M B) (w w' : World)
  (e : jsstring) :
  bind c k w = (Throw e, w') ->
  c w = (Throw e, w')
  \/ exists a w1, c w = (Ret a, w1) /\ k a w1 = (Throw e, w').
Proof.
  intros H. apply bind_cases in H as [H|[(e' & E & H)|(E & _)]].
  - right. exact H.
  - left. inversion E; subst. exact H.
  - discriminate.
Qed.

(** ** Parts of the state that the browser steps leave alone *)

Section Keeps.

Variable D : Driver.
Variable X : Type.
Variable f : World -> X.

(** [f] reads the session state and the initialisation flag only. *)
Hypothesis f_reads :
  forall w w',
    sessionState w' = sessionState w ->
    sessionInitialized w' = sessionInitialized w ->
    f w' = f w.

Lemma keeps_refl (w : World) : keeps f w w.
Proof. reflexivity. Qed.

Lemma keeps_trans (a b c : World) :
  keeps f a b -> keeps f b c -> keeps f a c.
Proof. unfold keeps. congruence. Qed.

Lemma keeps_interact : preserves (keeps f) (interact D).
Proof. intros w o w' H. inversion H; subst. apply f_reads; reflexivity. Qed.

Lemma keeps_wait (ms : Z) : preserves (keeps f) (wait D ms).
Proof. intros w o w' H. inversion H; subst. apply f_reads; reflexivity. Qed.

Lemma keeps_setPageOpen : preserves (keeps f) (setPageOpen true).
Proof. intros w o w' H. inversion H; subst. apply f_reads; reflexivity. Qed.

Lemma keeps_getPage : preserves (keeps f) (getPage D).
Proof.
  apply getPage_preserves; first [exact keeps_refl | exact keeps_trans | exact keeps_interact | exact keeps_wait | exact keeps_setPageOpen].
Qed.

Lemma keeps_launchBrowser : preserves (keeps f) (launchBrowser D).
Proof.
  apply launchBrowser_preserves; first [exact keeps_refl | exact keeps_trans | exact keeps_interact | exact keeps_wait | exact keeps_setPageOpen].
Qed.

Lemma keeps_navigateTo (url : jsstring) :
  preserves (keeps f) (navigateTo D url).
Proof.
  apply navigateTo_preserves; first [exact keeps_refl | exact keeps_trans | exact keeps_interact | exact keeps_wait | exact keeps_setPageOpen].
Qed.

Lemma keeps_loginAttempts (n : nat) :
  preserves (keeps f) (loginAttempts D n).
Proof.
  apply loginAttempts_preserves; first [exact keeps_refl | exact keeps_trans | exact keeps_interact | exact keeps_wait | exact keeps_setPageOpen].
Qed.

Lemma keeps_evaluate {A : Type} (g : Document -> A) :
  preserves (keeps f) (evaluate D g).
Proof.
  apply evaluate_preserves; first [exact keeps_refl | exact keeps_trans | exact keeps_interact | exact keeps_wait | exact keeps_setPageOpen].
Qed.

Lemma keeps_perform : preserves (keeps f) (perform D).
Proof.
  apply perform_preserves; first [exact keeps_refl | exact keeps_trans | exact keeps_interact | exact keeps_wait | exact keeps_setPageOpen].
Qed.

Lemma keeps_typeText (role : Role) (text : jsstring) :
  preserves (keeps f) (typeText D role text).
Proof.
  apply typeText_preserves; first [exact keeps_refl | exact keeps_trans | exact keeps_interact | exact keeps_wait | exact keeps_setPageOpen].
Qed.

Lemma keeps_clickElement (role : Role) :
  preserves (keeps f) (clickElement D role).
Proof.
  apply clickElement_preserves; first [exact keeps_refl | exact keeps_trans | exact keeps_interact | exact keeps_wait | exact keeps_setPageOpen].
Qed.

Lemma keeps_getLatestResponseText :
  preserves (keeps f) (getLatestResponseText D).
Proof.
  apply getLatestResponseText_preserves; first [exact keeps_refl | exact keeps_trans | exact keeps_interact | exact keeps_wait | exact keeps_setPageOpen].
Qed.

Lemma keeps_isGenerationComplete (l s : Z) :
  preserves (keeps f) (isGenerationComplete D l s).
Proof.
  apply isGenerationComplete_preserves; first [exact keeps_refl | exact keeps_trans | exact keeps_interact | exact keeps_wait | exact keeps_setPageOpen].
Qed.

Lemma keeps_pageUrl : preserves (keeps f) (pageUrl D).
Proof. intros w o w' H. inversion H; subst. reflexivity. Qed.

Lemma keeps_pollLoop (fuel : nat) :
  forall startTime deadline pollCount l s,
    preserves (keeps f) (pollLoop D fuel startTime deadline pollCount l s).
Proof.
  induction fuel as [|n IH]; intros startTime deadline pollCount l s;
    cbn [pollLoop].
  - apply preserves_diverge. exact keeps_refl.
  - apply preserves_bind;
      [exact keeps_trans | apply preserves_dateNow; exact keeps_refl
      | intros t].
    destruct (t <? deadline); [|apply preserves_ret; exact keeps_refl].
    apply preserves_bind; [exact keeps_trans | apply keeps_wait | intros _].
    apply preserves_bind;
      [exact keeps_trans | apply keeps_isGenerationComplete | intros res].
    destruct (Detector.complete res); [|apply IH].
    apply preserves_bind;
      [exact keeps_trans | apply keeps_getLatestResponseText | intros r].
    apply preserves_bind;
      [exact keeps_trans | apply preserves_dateNow; exact keeps_refl
      | intros t'].
    apply preserves_ret. exact keeps_refl.
Qed.

Lemma keeps_pollUntilComplete (timeoutMinutes : Z) :
  preserves (keeps f) (pollUntilComplete D timeoutMinutes).
Proof.
  unfold pollUntilComplete.
  apply preserves_bind;
    [exact keeps_trans | apply preserves_dateNow; exact keeps_refl
    | intros t].
  apply preserves_bind; [exact keeps_trans | apply keeps_pollLoop | intros r].
  destruct r as [result|]; [apply preserves_ret; exact keeps_refl|].
  apply preserves_bind;
    [exact keeps_trans | apply preserves_dateNow; exact keeps_refl
    | intros t'].
  apply preserves_throw. exact keeps_refl.
Qed.

End Keeps.

Lemma reads_session {X : Type} (g : SessionState -> X) (w w' : World) :
  sessionState w' = sessionState w ->
  sessionInitialized w' = sessionInitialized w ->
  g (sessionState w') = g (sessionState w).
Proof. intros -> _. reflexivity. Qed.

Lemma reads_init (w w' : World) :
  sessionState w' = sessionState w ->
  sessionInitialized w' = sessionInitialized w ->
  sessionInitialized w' = sessionInitialized w.
Proof. auto. Qed.

Section Sessions.

Variable D : Driver.
Variable defaultProject : option jsstring.

(** ** [selectProject] and [newConversation] always answer *)

Lemma caught_returns {A : Type} (c : M A) (h : jsstring -> A) (w : World) :
  fst (c w) <> Diverge ->
  exists r w', tryCatch c (fun e => ret (h e)) w = (Ret r, w').
Proof.
  unfold tryCatch. destruct (c w) as [[a|e|] w1]; simpl; intros H.
  - eauto.
  - unfold ret. eauto.
  - congruence.
Qed.

Lemma total_newConversation_body :
  total (ensureSession D defaultProject ;;
         st <- getSession ;;
         navigateTo D
           match truthy (currentProjectUrl st) with
           | Some u => u
           | None => chatgptUrl
           end ;;
         wait D 1500 ;;
         setConversationId None ;;
         st0 <- getSession ;;
         ret {| success := true;
                message := JS.lit "New conversation started"
                           ++ match truthy (currentProjectUrl st0) with
                              | Some _ => JS.lit " within current project"
                              | None => []
                              end ++ JS.lit "." |}).
Proof.
  apply total_bind; [apply ensureSession_returns_or_throws|intros _].
  apply total_bind; [apply total_getSession|intros st].
  apply total_bind; [apply total_navigateTo|intros _].
  apply total_bind; [apply total_wait|intros _].
  apply total_bind; [apply total_modifySession|intros _].
  apply total_bind; [apply total_getSession|intros st0].
  apply total_ret.
Qed.

(** X15. [selectProject] and [newConversation] never throw and never hang:
    every call gives back a result record, whose [success] tells how it
    went. *)
Theorem project_and_new_chat_always_answer (name : jsstring) (w : World) :
  (exists r w', selectProject D defaultProject name w = (Ret r, w'))
  /\ (exists r w', newConversation D defaultProject w = (Ret r, w')).
Proof.
  split.
  - pose proof (total_selectProject D defaultProject name w) as T.
    destruct (selectProject D defaultProject name w) as [[r|e|] w'] eqn:E.
    + eauto.
    + exfalso. revert E. unfold selectProject, selectProjectWith, tryCatch.
      match goal with |- context [let (_, _) := ?c in _] =>
        destruct c as [[a|e'|] w1] end; intros E; inversion E.
    + exfalso. apply T. reflexivity.
  - unfold newConversation.
    apply (caught_returns _
             (fun e => {| success := false;
                          message := JS.lit "Failed to start new conversation: "
                                     ++ e |})).
    apply total_newConversation_body.
Qed.

(** ** What [ensureSession] leaves behind *)

Lemma selectProjectWith_inner_up (ensure : M unit) (name : jsstring)
  (w : World) :
  ensure w = (Ret tt, w) ->
  selectProjectWith D ensure name w = selectProjectWith D (ret tt) name w.
Proof.
  intros H. unfold selectProjectWith, tryCatch, bind. rewrite H. reflexivity.
Qed.

Lemma selectProjectWith_never_throws (ensure : M unit) (name : jsstring)
  (w w' : World) (e : jsstring) :
  selectProjectWith D ensure name w <> (Throw e, w').
Proof.
  unfold selectProjectWith, tryCatch.
  match goal with |- context [let (_, _) := ?c in _] =>
    destruct c as [[a|e'|] w1] end; intros H; inversion H.
Qed.

Lemma selectProjectWith_keeps_login (name : jsstring) :
  preserves sameLogin (selectProjectWith D (ret tt) name).
Proof.
  assert (F : forall w w' : World,
             sessionState w' = sessionState w ->
             sessionInitialized w' = sessionInitialized w ->
             isLoggedIn (sessionState w') = isLoggedIn (sessionState w))
    by (apply (reads_session isLoggedIn)).
  apply selectProjectWith_preserves.
  - apply keeps_refl.
  - apply keeps_trans.
  - apply keeps_interact, F.
  - intros ms. apply keeps_wait, F.
  - apply keeps_setPageOpen, F.
  - intros c w o w' H. inversion H; subst. reflexivity.
  - intros u w o w' H. inversion H; subst. reflexivity.
  - apply preserves_ret. apply keeps_refl.
Qed.

(** X16. From a state in which the session is not initialised: when
    [ensureSession] returns, the user is logged in, the session is
    initialised and the page is open; when it throws with the session
    initialised, the error is the one of the login check, the login flag
    is false, and, the session now counting as initialised, the next call
    returns at once without looking at the login again. *)
Theorem ensureSession_outcomes (w : World)
  (Hu : sessionInitialized w = false) :
  (forall w',
      ensureSession D defaultProject w = (Ret tt, w') ->
      isLoggedIn (sessionState w') = true
      /\ sessionInitialized w' = true
      /\ pageOpen w' = true
      /\ ensureSession D defaultProject w' = (Ret tt, w'))
  /\ (forall e w',
         ensureSession D defaultProject w = (Throw e, w') ->
         sessionInitialized w' = true ->
         e = notLoggedInText
         /\ isLoggedIn (sessionState w') = false
         /\ pageOpen w' = true
         /\ ensureSession D defaultProject w' = (Ret tt, w')).
Proof.
  assert (Finit : forall a b : World,
             sessionState b = sessionState a ->
             sessionInitialized b = sessionInitialized a ->
             sessionInitialized b = sessionInitialized a) by auto.
  unfold ensureSession. rewrite (ensureSessionAt_S D defaultProject 1).
  rewrite Hu. cbn [andb].
  (* the steps up to the login check leave the flag unset and open the page *)
  assert (Steps : forall o w',
    (launchBrowser D ;;
     navigated <- navigateTo D chatgptUrl ;;
     if negb navigated
     then throw (JS.lit "Failed to navigate to ChatGPT")
     else
       wait D 3000 ;;
       isLoggedIn <- loginAttempts D 3 ;;
       setIsLoggedIn isLoggedIn ;;
       setSessionInitialized true ;;
       if negb isLoggedIn
       then throw notLoggedInText
       else
         st <- getSession ;;
         match truthy defaultProject, truthy (currentProjectUrl st) with
         | Some project, None =>
             selectProjectWith D (ensureSessionAt D defaultProject 1) project ;;
             ret tt
         | _, _ => ret tt
         end) w = (o, w') ->
    (sessionInitialized w' = false /\ (exists e, o = Throw e))
    \/ (o = Throw notLoggedInText
        /\ isLoggedIn (sessionState w') = false
        /\ sessionInitialized w' = true /\ pageOpen w' = true)
    \/ (isLoggedIn (sessionState w') = true
        /\ sessionInitialized w' = true /\ pageOpen w' = true
        /\ (o = Ret tt \/ o = Diverge))).
  { intros o w' H.
    apply bind_cases in H as [([] & w1 & E1 & H)|[(e & -> & E)|(-> & E)]].
    2:{ left. split; [|eauto].
        apply (keeps_launchBrowser D _ _ Finit) in E. unfold keeps in E.
        congruence. }
    2:{ exfalso. exact (total_launchBrowser D w (f_equal fst E)). }
    pose proof (launchBrowser_opens D _ _ E1) as O1.
    apply (keeps_launchBrowser D _ _ Finit) in E1. unfold keeps in E1.
    apply bind_cases in H as [(nav & w2 & E2 & H)|[(e & -> & E)|(-> & E)]].
    2:{ left. split; [|eauto].
        apply (keeps_navigateTo D _ _ Finit) in E. unfold keeps in E.
        congruence. }
    2:{ exfalso. exact (total_navigateTo D chatgptUrl w1 (f_equal fst E)). }
    pose proof (navigateTo_preserves D advances advances_refl advances_trans
                  (advances_interact D) advances_setPageOpen _ _ _ _ E2)
      as (_ & O2 & _).
    apply (keeps_navigateTo D _ _ Finit) in E2. unfold keeps in E2.
    destruct (negb nav).
    { left. inversion H; subst. split; [congruence | eauto]. }
    apply bind_cases in H as [([] & w3 & E3 & H)|[(e & _ & E)|(_ & E)]];
      [|inversion E|inversion E].
    pose proof (advances_wait D _ _ _ _ E3) as (_ & O3 & _).
    apply (keeps_wait D _ _ Finit) in E3. unfold keeps in E3.
    apply bind_cases in H as [(li & w4 & E4 & H)|[(e & -> & E)|(-> & E)]].
    2:{ left. split; [|eauto].
        apply (keeps_loginAttempts D _ _ Finit) in E. unfold keeps in E.
        congruence. }
    2:{ exfalso. exact (total_loginAttempts D 3 w3 (f_equal fst E)). }
    pose proof (loginAttempts_preserves D advances advances_refl advances_trans
                  (advances_interact D) (advances_wait D) advances_setPageOpen
                  _ _ _ _ E4) as (_ & O4 & _).
    apply bind_cases in H as [([] & w5 & E5 & H)|[(e & _ & E)|(_ & E)]];
      [|inversion E|inversion E].
    apply bind_cases in H as [([] & w6 & E6 & H)|[(e & _ & E)|(_ & E)]];
      [|inversion E|inversion E].
    inversion E5; subst w5. inversion E6; subst w6. clear E5 E6.
    assert (Open : pageOpen w4 = true) by auto.
    destruct li; cbn [negb] in H.
    - right. right.
      apply bind_cases in H as [(st & w7 & E7 & H)|[(e & _ & E)|(_ & E)]];
        [|inversion E|inversion E].
      inversion E7; subst st w7. clear E7. cbn [sessionState] in H.
      destruct (truthy defaultProject) as [project|].
      2:{ inversion H; subst. cbn. auto. }
      destruct (truthy (currentProjectUrl _)) in H.
      { inversion H; subst. cbn. auto. }
      apply bind_cases in H as [(r & w8 & E8 & H)|[(e & _ & E)|(-> & E)]].
      + inversion H; subst o w8. clear H.
        rewrite selectProjectWith_inner_up in E8
          by (apply ensureSessionAt_up; [reflexivity | exact Open]).
        pose proof (selectProjectWith_keeps_login _ _ _ _ E8) as L.
        pose proof (selectProjectWith_preserves D advances advances_refl
                      advances_trans (advances_interact D) (advances_wait D)
                      advances_setPageOpen advances_setConversationId
                      advances_setCurrentProjectUrl (ret tt) project
                      (preserves_ret advances advances_refl tt)
                      _ _ _ E8) as (_ & O8 & I8).
        unfold sameLogin, keeps in L. cbn in L, O8, I8.
        rewrite L. auto.
      + exfalso. exact (selectProjectWith_never_throws _ _ _ _ _ E).
      + exfalso. revert E. 
        rewrite selectProjectWith_inner_up
          by (apply ensureSessionAt_up; [reflexivity | exact Open]).
        intros E.
        apply (total_selectProjectWith D (ret tt) project (total_ret tt)
                 _ (f_equal fst E)).
    - right. left. inversion H; subst. cbn. auto. }
  split.
  - intros w' H. apply Steps in H as [(_ & e & E)|[(E & _)|(L & I & O & _)]];
      try discriminate.
    repeat split; auto. apply ensureSessionAt_up; assumption.
  - intros e w' H Hi. apply Steps in H as [(I & _)|[(E & L & I & O)|(_ & _ & _ & [E|E])]];
      try discriminate; try congruence.
    inversion E; subst e. repeat split; auto.
    apply ensureSessionAt_up; assumption.
Qed.

(** ** What [selectModel] and [sendPromptText] write *)

Lemma untouched_reads (a b : World) :
  sessionState b = sessionState a ->
  sessionInitialized b = sessionInitialized a ->
  (sessionState b, sessionInitialized b)
  = (sessionState a, sessionInitialized a).
Proof. intros -> ->. reflexivity. Qed.

Lemma untouched_refl (w : World) : untouched w w.
Proof. reflexivity. Qed.

Lemma untouched_trans (a b c : World) :
  untouched a b -> untouched b c -> untouched a c.
Proof. unfold untouched, keeps. congruence. Qed.

Lemma untouched_inv (w w' : World) :
  untouched w w' ->
  sessionState w' = sessionState w
  /\ sessionInitialized w' = sessionInitialized w.
Proof. unfold untouched, keeps. intros H. inversion H. auto. Qed.

Lemma effect_bind {A B : Type} (Q : B -> World -> World -> Prop)
  (c : M A) (k : A -> M B) :
  (forall b w w1 w2, untouched w w1 -> Q b w1 w2 -> Q b w w2) ->
  preserves untouched c -> total c ->
  (forall a, effect untouched Q (k a)) ->
  effect untouched Q (bind c k).
Proof.
  intros HQ Hc Tc Hk w. unfold bind. specialize (Tc w).
  destruct (c w) as [[a|e|] w1] eqn:E.
  - pose proof (Hc _ _ _ E) as R1. specialize (Hk a w1).
    destruct (k a w1) as [[b|e|] w2].
    + eapply HQ; eauto.
    + eapply untouched_trans; eauto.
    + exact Hk.
  - exact (Hc _ _ _ E).
  - apply Tc. reflexivity.
Qed.

Lemma effect_throw {A : Type} (Q : A -> World -> World -> Prop)
  (e : jsstring) : effect untouched Q (throw e).
Proof. intros w. apply untouched_refl. Qed.

Ltac browser_step :=
  first
    [ apply (keeps_getPage D _ _ untouched_reads)
    | apply (keeps_evaluate D _ _ untouched_reads)
    | apply (keeps_interact D _ _ untouched_reads)
    | apply (keeps_wait D _ _ untouched_reads)
    | apply (keeps_perform D _ _ untouched_reads)
    | apply (keeps_typeText D _ _ untouched_reads)
    | apply (keeps_clickElement D _ _ untouched_reads)
    | apply (keeps_pageUrl D)
    | apply total_getPage
    | apply total_evaluate
    | apply total_interact
    | apply total_wait
    | apply total_perform
    | apply total_typeText
    | apply total_clickElement
    | apply total_pageUrl ].

Lemma selectModel_effect (modelName : jsstring) :
  effect untouched
    (fun chosen w w' =>
       currentModel (sessionState w') = Some chosen
       /\ exceptModel w w' /\ sameInit w w')
    (selectModel D modelName).
Proof.
  set (Q := fun (chosen : jsstring) (w w' : World) =>
              currentModel (sessionState w') = Some chosen
              /\ exceptModel w w' /\ sameInit w w').
  assert (HQ : forall b w w1 w2, untouched w w1 -> Q b w1 w2 -> Q b w w2).
  { unfold Q, exceptModel, sameInit, keeps.
    intros b w w1 w2 U (H1 & H2 & H3).
    apply untouched_inv in U as [U1 U2].
    rewrite <- U1, <- U2. auto. }
  assert (Hset : forall cm,
             effect untouched Q (setCurrentModel (Some cm) ;; ret cm)).
  { intros cm w. cbn. unfold Q, exceptModel, sameInit, keeps. cbn. auto. }
  unfold selectModel.
  apply effect_bind; [exact HQ | browser_step | browser_step | intros _].
  apply effect_bind; [exact HQ | browser_step | browser_step | intros cur].
  match goal with |- effect _ _ (match ?x with _ => _ end) =>
    destruct x as [cm|] end; [apply Hset|].
  apply effect_bind; [exact HQ | browser_step | browser_step | intros t].
  destruct (selectorOpened D t) as [e|clicked]; [apply effect_throw|].
  destruct (negb clicked); [apply effect_throw|].
  apply effect_bind; [exact HQ | browser_step | browser_step | intros _].
  apply effect_bind; [exact HQ | browser_step | browser_step | intros t'].
  destruct (dropdown D t') as [e|found]; [apply effect_throw|].
  cbv zeta.
  match goal with |- effect _ _ (if ?b then _ else _) => destruct b end.
  - apply effect_bind; [exact HQ | browser_step | browser_step | intros _].
    apply effect_bind; [exact HQ | browser_step | browser_step | intros _].
    apply effect_throw.
  - apply effect_bind; [exact HQ | browser_step | browser_step | intros _].
    apply Hset.
Qed.

(** X17. [selectModel] always ends. When it returns a label, that label is the
    current model of the session and nothing else of the session has
    changed; when it throws, the session is as it was, current model
    included. *)
Theorem selectModel_changes_only_the_model (modelName : jsstring)
  (w : World) :
  match selectModel D modelName w with
  | (Ret chosen, w') =>
      currentModel (sessionState w') = Some chosen
      /\ isLoggedIn (sessionState w') = isLoggedIn (sessionState w)
      /\ conversationId (sessionState w') = conversationId (sessionState w)
      /\ currentProjectUrl (sessionState w')
         = currentProjectUrl (sessionState w)
      /\ sessionInitialized w' = sessionInitialized w
  | (Throw _, w') =>
      sessionState w' = sessionState w
      /\ sessionInitialized w' = sessionInitialized w
  | (Diverge, _) => False
  end.
Proof.
  pose proof (selectModel_effect modelName w) as H.
  destruct (selectModel D modelName w) as [[chosen|e|] w'].
  - destruct H as (H1 & H2 & H3).
    unfold exceptModel, sameInit, keeps in *. inversion H2. auto.
  - apply untouched_inv, H.
  - exact H.
Qed.

Lemma sendPromptText_effect (prompt : jsstring) :
  effect untouched
    (fun _ w w' =>
       exceptConversation w w' /\ sameInit w w'
       /\ conversationId (sessionState w')
          = match conversationIdOf (location D (tick w')) with
            | Some id => Some id
            | None => conversationId (sessionState w)
            end)
    (sendPromptText D prompt).
Proof.
  set (Q := fun (_ : unit) (w w' : World) =>
              exceptConversation w w' /\ sameInit w w'
              /\ conversationId (sessionState w')
                 = match conversationIdOf (location D (tick w')) with
                   | Some id => Some id
                   | None => conversationId (sessionState w)
                   end).
  assert (HQ : forall b w w1 w2, untouched w w1 -> Q b w1 w2 -> Q b w w2).
  { unfold Q, exceptConversation, sameInit, keeps.
    intros b w w1 w2 U (H1 & H2 & H3).
    apply untouched_inv in U as [U1 U2].
    rewrite <- U1, <- U2. auto. }
  unfold sendPromptText.
  apply effect_bind; [exact HQ | browser_step | browser_step | intros typed].
  destruct (negb typed); [apply effect_throw|].
  apply effect_bind; [exact HQ | browser_step | browser_step | intros _].
  apply effect_bind; [exact HQ | browser_step | browser_step | intros sent].
  apply effect_bind; [exact HQ | | | intros _].
  { destruct (negb sent).
    - apply preserves_bind;
        [exact untouched_trans | browser_step | intros _; browser_step].
    - apply preserves_ret. exact untouched_refl. }
  { destruct (negb sent).
    - apply total_bind; [browser_step | intros _; browser_step].
    - apply total_ret. }
  apply effect_bind; [exact HQ | browser_step | browser_step | intros _].
  apply effect_bind; [exact HQ | browser_step | browser_step | intros _].
  intros w. unfold bind, pageUrl.
  destruct (conversationIdOf (location D (tick w))) as [id|] eqn:E;
    cbn; unfold Q, exceptConversation, sameInit, keeps; cbn; rewrite E; auto.
Qed.

(** X18. [sendPromptText] always ends. When it returns, the conversation
    identifier of the session is the one that the address of the page
    holds, or the previous one when the address holds none, and nothing
    else of the session has changed; when it throws, the session is as it
    was. *)
Theorem sendPromptText_changes_only_the_conversation (prompt : jsstring)
  (w : World) :
  match sendPromptText D prompt w with
  | (Ret _, w') =>
      conversationId (sessionState w')
      = match conversationIdOf (location D (tick w')) with
        | Some id => Some id
        | None => conversationId (sessionState w)
        end
      /\ isLoggedIn (sessionState w') = isLoggedIn (sessionState w)
      /\ currentModel (sessionState w') = currentModel (sessionState w)
      /\ currentProjectUrl (sessionState w')
         = currentProjectUrl (sessionState w)
      /\ sessionInitialized w' = sessionInitialized w
  | (Throw _, w') =>
      sessionState w' = sessionState w
      /\ sessionInitialized w' = sessionInitialized w
  | (Diverge, _) => False
  end.
Proof.
  pose proof (sendPromptText_effect prompt w) as H.
  destruct (sendPromptText D prompt w) as [[[]|e|] w'].
  - destruct H as (H1 & H2 & H3).
    unfold exceptConversation, sameInit, keeps in *. inversion H1. auto.
  - apply untouched_inv, H.
  - exact H.
Qed.

(** ** The numbers that the poll loop returns *)

Lemma complete_after_a_length (ind : Detector.Indicators)
  (text : option jsstring) (l s : Z) :
  Detector.complete (Detector.verdict ind text l s) = true -> 0 < l.
Proof.
  unfold Detector.verdict, Detector.stabilityUpdate. cbn.
  destruct (Z.ltb_spec 0 (Detector.lengthOf text)) as [Hp|Hp];
    [|rewrite !andb_false_r; discriminate].
  destruct (Z.eqb_spec (Detector.lengthOf text) l) as [He|He]; [lia|].
  cbn. rewrite !andb_false_r. discriminate.
Qed.

Lemma slept_later (startTime pollCount t t' : Z) :
  slept startTime pollCount t -> t <= t' -> slept startTime pollCount t'.
Proof. unfold slept. intros H Ht. repeat split; intros; lia. Qed.

Lemma slept_next (startTime pollCount t t' : Z) :
  0 <= pollCount ->
  slept startTime pollCount t ->
  t + backoffDelay pollCount <= t' ->
  slept startTime (pollCount + 1) t'.
Proof.
  intros Hp H Ht. unfold backoffDelay in Ht.
  destruct (DetectorMore.backoff_cases pollCount Hp)
    as [[? E]|[[? E]|[[? E]|[[? E]|[[? E]|[[? E]|[? E]]]]]]];
    rewrite E in Ht; unfold slept in *; repeat split; intros; lia.
Qed.

Lemma pollLoop_bounds (fuel : nat) :
  forall startTime deadline pollCount l s w r w',
    0 <= pollCount ->
    slept startTime pollCount (now w) ->
    (pollCount = 0 -> l = 0) ->
    pollLoop D fuel startTime deadline pollCount l s w = (Ret (Some r), w') ->
    2 <= Poll.pollCount r
    /\ slept startTime (Poll.pollCount r) (now w')
    /\ (exists t, t < deadline /\ slept startTime (Poll.pollCount r - 1) t)
    /\ Poll.elapsedSeconds r = (now w' - startTime) / 1000.
Proof.
  induction fuel as [|n IH];
    intros startTime deadline pollCount l s w r w' Hp Hs Hl H;
    [discriminate|].
  cbn [pollLoop] in H.
  apply bind_inv_Ret in H as (t & w0 & E0 & H).
  inversion E0; subst t w0; clear E0.
  destruct (Z.ltb_spec (now w) deadline) as [Hlt|Hge]; [|discriminate].
  apply bind_inv_Ret in H as ([] & w1 & E1 & H).
  assert (N1 : now w + backoffDelay pollCount <= now w1).
  { inversion E1; subst w1. cbn. lia. }
  apply bind_inv_Ret in H as (res & w2 & E2 & H).
  pose proof (isGenerationComplete_advances D _ _ _ _ _ E2) as (N2 & _).
  destruct (isGenerationComplete_returns_verdict D _ _ _ _ _ E2)
    as (ind & txt & ->).
  assert (S2 : slept startTime (pollCount + 1) (now w2)).
  { eapply slept_later; [eapply slept_next; eauto | exact N2]. }
  destruct (Detector.complete (Detector.verdict ind txt l s)) eqn:Ec.
  - apply complete_after_a_length in Ec.
    apply bind_inv_Ret in H as (response & w3 & E3 & H).
    pose proof (getLatestResponseText_advances D _ _ _ E3) as (N3 & _).
    apply bind_inv_Ret in H as (t' & w4 & E4 & H).
    inversion E4; subst t' w4; clear E4.
    inversion H; subst r w'; clear H. cbn.
    split; [lia|]. split; [eapply slept_later; eauto|].
    split; [|reflexivity].
    exists (now w). split; [exact Hlt|].
    replace (pollCount + 1 - 1) with pollCount by lia. exact Hs.
  - apply IH in H; [exact H | lia | exact S2 | lia].
Qed.

Lemma poll_bounds_of (timeoutMinutes : Z) (w w' : World)
  (r : Poll.Result)
  (H : pollUntilComplete D timeoutMinutes w = (Ret r, w')) :
  2 <= Poll.pollCount r <= 2 * timeoutMinutes + 5
  /\ 5 <= Poll.elapsedSeconds r
  /\ 30 * Poll.pollCount r - 128 <= Poll.elapsedSeconds r
  /\ Poll.elapsedSeconds r = (now w' - now w) / 1000.
Proof.
  unfold pollUntilComplete in H.
  apply bind_inv_Ret in H as (t & w0 & E0 & H).
  inversion E0; subst t w0; clear E0.
  apply bind_inv_Ret in H as ([res|] & w1 & E1 & H).
  2:{ apply bind_inv_Ret in H as (? & ? & _ & H). discriminate. }
  inversion H; subst res w1; clear H.
  apply pollLoop_bounds in E1 as (B1 & B2 & (t & Ht & B3) & B4).
  - rewrite B4. unfold slept in B2, B3.
    assert (L5 : 5 * 1000 <= now w' - now w) by lia.
    assert (L30 : (30 * Poll.pollCount r - 128) * 1000 <= now w' - now w)
      by lia.
    repeat split; try lia.
    + apply Z.div_le_lower_bound; lia.
    + apply Z.div_le_lower_bound; lia.
  - lia.
  - unfold slept. repeat split; intros; lia.
  - reflexivity.
Qed.

(** X19. When [pollUntilComplete] returns, it has checked the page twice at
    the least and [2 * timeoutMinutes + 5] times at the most; five
    seconds or more have passed, and thirty more for every check after
    the sixth; the seconds it reports are those between its start and its
    end, rounded down. *)
Theorem poll_result_bounds (timeoutMinutes : Z) (w w' : World)
  (r : Poll.Result)
  (H : pollUntilComplete D timeoutMinutes w = (Ret r, w')) :
  2 <= Poll.pollCount r <= 2 * timeoutMinutes + 5
  /\ 5 <= Poll.elapsedSeconds r
  /\ 30 * Poll.pollCount r - 128 <= Poll.elapsedSeconds r
  /\ Poll.elapsedSeconds r = (now w' - now w) / 1000.
Proof. exact (poll_bounds_of timeoutMinutes w w' r H). Qed.

(** ** The records that the blocking operations return *)

Lemma tryCatch_returned {A : Type} (c : M A) (h : jsstring -> A)
  (w w' : World) (r : A) :
  tryCatch c (fun e => ret (h e)) w = (Ret r, w') ->
  c w = (Ret r, w') \/ exists e, r = h e.
Proof.
  unfold tryCatch. destruct (c w) as [[a|e|] w1]; intros H.
  - left. exact H.
  - right. inversion H. eauto.
  - discriminate.
Qed.

Lemma polled_record (timeoutMinutes : Z) (w w' : World) (r : AskResult) :
  (result <- pollUntilComplete D timeoutMinutes ;; answered result) w
  = (Ret r, w') ->
  error r = None
  /\ model r = currentModel (sessionState w')
  /\ chat_id r = conversationId (sessionState w')
  /\ 2 <= poll_count r <= 2 * timeoutMinutes + 5
  /\ 5 <= elapsed_seconds r.
Proof.
  intros H. apply bind_inv_Ret in H as (res & w1 & E1 & H).
  apply poll_bounds_of in E1 as (B1 & B2 & _).
  inversion H; subst r w'. cbn. auto.
Qed.

Lemma switchProject_early (project : option jsstring) (w w' : World)
  (r : AskResult) :
  switchProject D defaultProject project w = (Ret (Some r), w') ->
  exists e, r = failure e.
Proof.
  unfold switchProject. destruct (truthy project) as [p|]; [|discriminate].
  intros H.
  apply bind_inv_Ret in H as (? & ? & _ & H).
  apply bind_inv_Ret in H as (url & ? & _ & H).
  apply bind_inv_Ret in H as (st & ? & _ & H).
  cbv zeta in H.
  match type of H with (if ?b then _ else _) _ = _ => destruct b end;
    [|discriminate].
  apply bind_inv_Ret in H as (res & ? & _ & H).
  destruct (negb (success res)); [|discriminate].
  inversion H. eauto.
Qed.

Lemma switchModel_early (model : option jsstring) (w w' : World)
  (r : AskResult) :
  switchModel D model w = (Ret (Some r), w') ->
  exists e, r = failure e.
Proof.
  unfold switchModel. destruct (truthy model) as [m|]; [|discriminate].
  unfold tryCatch.
  destruct ((selectModel D m ;; ret None) w) as [[a|e|] w1] eqn:E; intros H.
  - apply bind_inv_Ret in E as (? & ? & _ & E). inversion E; subst.
    discriminate.
  - inversion H. eauto.
  - discriminate.
Qed.

Lemma record_shapes (prompt : jsstring)
  (modelName projectName uploadPrompt : option jsstring) (filePaths : list jsstring)
  (timeoutMinutes : Z) (w w' : World) (r : AskResult) :
  blockingAsk D defaultProject prompt modelName projectName timeoutMinutes w
  = (Ret r, w')
  \/ blockingReply D defaultProject prompt timeoutMinutes w = (Ret r, w')
  \/ uploadFiles D defaultProject filePaths uploadPrompt timeoutMinutes w
     = (Ret r, w') ->
  (exists e, r = failure e)
  \/ (error r = None
      /\ model r = currentModel (sessionState w')
      /\ chat_id r = conversationId (sessionState w')
      /\ 2 <= poll_count r <= 2 * timeoutMinutes + 5
      /\ 5 <= elapsed_seconds r).
Proof.
  intros [H|[H|H]].
  - unfold blockingAsk in H.
    apply tryCatch_returned in H as [H|H]; [|left; exact H].
    apply bind_inv_Ret in H as (? & ? & _ & H).
    apply bind_inv_Ret in H as ([early|] & ? & E & H).
    { inversion H; subst. left. exact (switchProject_early _ _ _ _ E). }
    apply bind_inv_Ret in H as ([early|] & ? & E' & H).
    { inversion H; subst. left. exact (switchModel_early _ _ _ _ E'). }
    apply bind_inv_Ret in H as (? & ? & _ & H).
    right. exact (polled_record _ _ _ _ H).
  - unfold blockingReply in H.
    apply tryCatch_returned in H as [H|H]; [|left; exact H].
    apply bind_inv_Ret in H as (? & ? & _ & H).
    apply bind_inv_Ret in H as (? & ? & _ & H).
    right. exact (polled_record _ _ _ _ H).
  - unfold uploadFiles in H.
    apply tryCatch_returned in H as [H|H]; [|left; exact H].
    apply bind_inv_Ret in H as (? & ? & _ & H).
    apply bind_inv_Ret in H as (? & ? & _ & H).
    apply bind_inv_Ret in H as (attach & ? & _ & H).
    destruct (negb attach); [discriminate|].
    do 10 (apply bind_inv_Ret in H as (? & ? & _ & H); cbv beta in H).
    right. exact (polled_record _ _ _ _ H).
Qed.

(** X20. The record that [blockingAsk], [blockingReply] or [uploadFiles]
    returns is either the failure record, with an error message, an empty
    response, no model, no conversation and zero counters, or a record
    without error whose model and conversation are those of the session
    at the end, whose poll count is between two and
    [2 * timeoutMinutes + 5] and whose elapsed time is five seconds or
    more. *)
Theorem blocking_results_shape (prompt : jsstring)
  (modelName projectName uploadPrompt : option jsstring) (filePaths : list jsstring)
  (timeoutMinutes : Z) (w w' : World) (r : AskResult)
  (H : blockingAsk D defaultProject prompt modelName projectName timeoutMinutes w
       = (Ret r, w')
       \/ blockingReply D defaultProject prompt timeoutMinutes w = (Ret r, w')
       \/ uploadFiles D defaultProject filePaths uploadPrompt timeoutMinutes w
          = (Ret r, w')) :
  (exists e,
      error r = Some e /\ response r = [] /\ model r = None
      /\ chat_id r = None /\ poll_count r = 0 /\ elapsed_seconds r = 0)
  \/ (error r = None
      /\ model r = currentModel (sessionState w')
      /\ chat_id r = conversationId (sessionState w')
      /\ 2 <= poll_count r <= 2 * timeoutMinutes + 5
      /\ 5 <= elapsed_seconds r).
Proof.
  destruct (record_shapes prompt modelName projectName uploadPrompt filePaths
              timeoutMinutes w w' r H) as [(e & ->)|G].
  - left. exists e. cbn. auto 10.
  - right. exact G.
Qed.


(** ** How a completion check reads the page *)

Lemma getLatestResponseText_returns (w : World) :
  exists r w', getLatestResponseText D w = (Ret r, w').
Proof.
  unfold getLatestResponseText.
  apply (caught_returns (getPage D ;; evaluate D Extractor.latestResponseText)
           (fun _ => None)).
  apply total_bind; [apply total_getPage | intros _; apply total_evaluate].
Qed.

Lemma verdict_without_text (ind : Detector.Indicators) (l s : Z) :
  Detector.verdict ind None l s
  = {| Detector.complete := false;
       Detector.contentLength := 0;
       Detector.newStableCount := 0 |}.
Proof.
  unfold Detector.verdict, Detector.stabilityUpdate. cbn.
  destruct (Detector.lastTurnHasCopy ind), (Detector.isThinking ind);
    reflexivity.
Qed.

(** X22. [getLatestResponseText] never throws: it always returns, a text or
    nothing. A completion check on an open page reads the page twice,
    first for the indicators and then for the text: it throws when the
    first reading is rejected; when the second is rejected the text counts
    as absent, and the check answers not complete, with length and stable
    count zero; otherwise its answer is the verdict on the indicators of
    the first page and the text of the second. *)
Theorem check_reads_the_page_twice (l s : Z) (w : World)
  (Hopen : pageOpen w = true) :
  (exists r w', getLatestResponseText D w = (Ret r, w'))
  /\ match snapshot D (tick w), snapshot D (S (tick w)) with
     | inl e, _ => fst (isGenerationComplete D l s w) = Throw e
     | inr _, inl _ =>
         fst (isGenerationComplete D l s w)
         = Ret {| Detector.complete := false;
                  Detector.contentLength := 0;
                  Detector.newStableCount := 0 |}
     | inr first, inr second =>
         fst (isGenerationComplete D l s w)
         = Ret (Detector.verdict (Detector.pageIndicators first)
                  (Extractor.latestResponseText second) l s)
     end.
Proof.
  split; [apply getLatestResponseText_returns|].
  unfold isGenerationComplete, getLatestResponseText, tryCatch, evaluate,
    getPage, interact, bind.
  rewrite Hopen. cbn.
  destruct (snapshot D (tick w)) as [e|first]; [reflexivity|].
  cbn. rewrite Hopen. cbn.
  destruct (snapshot D (S (tick w))) as [e|second]; cbn.
  - rewrite verdict_without_text. reflexivity.
  - reflexivity.
Qed.

(** ** The current model changes only when a model is named *)

Lemma model_reads (a b : World) :
  sessionState b = sessionState a ->
  sessionInitialized b = sessionInitialized a ->
  currentModel (sessionState b) = currentModel (sessionState a).
Proof. intros -> _. reflexivity. Qed.

Lemma sendPromptText_sameModel (prompt : jsstring) :
  preserves sameModel (sendPromptText D prompt).
Proof.
  intros w o w' H. pose proof (sendPromptText_effect prompt w) as E.
  rewrite H in E. unfold sameModel. destruct o as [[]|e|].
  - destruct E as (E & _). unfold exceptConversation, keeps in E.
    inversion E. auto.
  - apply untouched_inv in E as [-> _]. reflexivity.
  - destruct E.
Qed.

Lemma pollUntilComplete_sameModel (timeoutMinutes : Z) :
  preserves sameModel (pollUntilComplete D timeoutMinutes).
Proof. exact (keeps_pollUntilComplete D _ _ model_reads timeoutMinutes). Qed.

Lemma answered_sameModel (result : Poll.Result) :
  preserves sameModel (answered result).
Proof. intros w o w' H. inversion H; subst. apply sameModel_refl. Qed.

Lemma polled_sameModel (timeoutMinutes : Z) :
  preserves sameModel
    (result <- pollUntilComplete D timeoutMinutes ;; answered result).
Proof.
  apply preserves_bind;
    [exact sameModel_trans | apply pollUntilComplete_sameModel
    | intros r; apply answered_sameModel].
Qed.

Ltac model_step :=
  first
    [ apply (keeps_getPage D _ _ model_reads)
    | apply (keeps_perform D _ _ model_reads)
    | apply (keeps_wait D _ _ model_reads)
    | apply (keeps_typeText D _ _ model_reads)
    | apply (keeps_clickElement D _ _ model_reads)
    | apply (keeps_pageUrl D)
    | apply ensureSession_sameModel
    | apply sendPromptText_sameModel
    | apply polled_sameModel
    | apply sameModel_setConversationId
    | apply preserves_ret; exact sameModel_refl
    | apply preserves_throw; exact sameModel_refl
    | apply preserves_getSession; exact sameModel_refl ].

Ltac model_chain :=
  repeat first
    [ model_step
    | apply preserves_bind; [exact sameModel_trans | | intros ?]
    | match goal with
      | |- preserves _ (if ?b then _ else _) => destruct b
      | |- preserves _ (match ?x with _ => _ end) => destruct x
      end ].

Lemma switchProject_sameModel (projectName : option jsstring) :
  preserves sameModel (switchProject D defaultProject projectName).
Proof.
  unfold switchProject. destruct (truthy projectName) as [p|]; [|model_step].
  apply preserves_bind; [exact sameModel_trans | model_step | intros _].
  apply preserves_bind; [exact sameModel_trans | model_step | intros url].
  apply preserves_bind; [exact sameModel_trans | model_step | intros st].
  cbv zeta.
  match goal with |- preserves _ (if ?b then _ else _) => destruct b end;
    [|model_step].
  apply preserves_bind;
    [exact sameModel_trans | apply selectProject_sameModel | intros res].
  destruct (negb (success res)); model_step.
Qed.

Lemma blockingReply_sameModel (prompt : jsstring) (timeoutMinutes : Z) :
  preserves sameModel (blockingReply D defaultProject prompt timeoutMinutes).
Proof.
  unfold blockingReply.
  apply preserves_tryCatch;
    [exact sameModel_trans | | intros e; model_step].
  model_chain.
Qed.

Lemma uploadFiles_sameModel (filePaths : list jsstring)
  (uploadPrompt : option jsstring) (timeoutMinutes : Z) :
  preserves sameModel
    (uploadFiles D defaultProject filePaths uploadPrompt timeoutMinutes).
Proof.
  unfold uploadFiles.
  apply preserves_tryCatch;
    [exact sameModel_trans | | intros e; model_step].
  model_chain.
Qed.

Lemma blockingAsk_sameModel (prompt : jsstring)
  (modelName projectName : option jsstring) (timeoutMinutes : Z) :
  truthy modelName = None ->
  preserves sameModel
    (blockingAsk D defaultProject prompt modelName projectName
       timeoutMinutes).
Proof.
  intros Hm. unfold blockingAsk, switchModel. rewrite Hm.
  apply preserves_tryCatch;
    [exact sameModel_trans | | intros e; model_step].
  apply preserves_bind; [exact sameModel_trans | model_step | intros _].
  apply preserves_bind;
    [exact sameModel_trans | apply switchProject_sameModel | intros early].
  destruct early as [r|]; [model_step|].
  model_chain.
Qed.

(** X21. The current model of the session changes only when a model is named:
    [blockingReply] and [uploadFiles], and [blockingAsk] called without a
    model, leave it as it was, however they end; and the poll loop does
    not write to the session at all. *)
Theorem model_changes_only_when_named (prompt : jsstring)
  (modelName projectName uploadPrompt : option jsstring)
  (filePaths : list jsstring) (timeoutMinutes : Z) (w : World) :
  (truthy modelName = None ->
   currentModel
     (sessionState
        (snd (blockingAsk D defaultProject prompt modelName projectName
                timeoutMinutes w)))
   = currentModel (sessionState w))
  /\ currentModel
       (sessionState
          (snd (blockingReply D defaultProject prompt timeoutMinutes w)))
     = currentModel (sessionState w)
  /\ currentModel
       (sessionState
          (snd (uploadFiles D defaultProject filePaths uploadPrompt
                  timeoutMinutes w)))
     = currentModel (sessionState w)
  /\ sessionState (snd (pollUntilComplete D timeoutMinutes w))
     = sessionState w.
Proof.
  split; [|split; [|split]].
  - intros Hm.
    eapply (blockingAsk_sameModel prompt modelName projectName
              timeoutMinutes Hm w).
    apply surjective_pairing.
  - eapply (blockingReply_sameModel prompt timeoutMinutes w).
    apply surjective_pairing.
  - eapply (uploadFiles_sameModel filePaths uploadPrompt timeoutMinutes w).
    apply surjective_pairing.
  - eapply (keeps_pollUntilComplete D _ (fun w => sessionState w)
              (fun a b H _ => H) timeoutMinutes w).
    apply surjective_pairing.
Qed.

End Sessions.

Lemma ensureSession_outcomes_witness :
  isLoggedIn (sessionState Cases.lockedOut) = false
  /\ ensureSession Examples.loggedOut None Cases.lockedOut
     = (Ret tt, Cases.lockedOut).
Proof.
  destruct (ensureSession_outcomes Examples.loggedOut None (initialWorld 0)
              eq_refl) as [_ H].
  destruct (H notLoggedInText Cases.lockedOut) as (_ & L & _ & E).
  - vm_compute. reflexivity.
  - reflexivity.
  - split; assumption.
Defined.

Lemma check_reads_the_page_twice_witness :
  fst (isGenerationComplete Examples.finished 2 0 Examples.runningWorld)
  = Ret {| Detector.complete := true;
           Detector.contentLength := 2;
           Detector.newStableCount := 1 |}.
Proof.
  destruct (check_reads_the_page_twice Examples.finished 2 0
              Examples.runningWorld eq_refl) as [_ H].
  exact H.
Defined.

Lemma poll_result_bounds_witness :
  2 <= Poll.pollCount Cases.polled <= 2 * 1 + 5
  /\ 5 <= Poll.elapsedSeconds Cases.polled
  /\ 30 * Poll.pollCount Cases.polled - 128
     <= Poll.elapsedSeconds Cases.polled
  /\ Poll.elapsedSeconds Cases.polled
     = (now Cases.polledEnd - now (initialWorld 0)) / 1000.
Proof.
  apply (poll_result_bounds Examples.finished 1 (initialWorld 0)
           Cases.polledEnd Cases.polled).
  vm_compute. reflexivity.
Defined.

Lemma blocking_results_shape_witness :
  (exists e,
      error Cases.asked = Some e /\ response Cases.asked = []
      /\ model Cases.asked = None /\ chat_id Cases.asked = None
      /\ poll_count Cases.asked = 0 /\ elapsed_seconds Cases.asked = 0)
  \/ (error Cases.asked = None
      /\ model Cases.asked = currentModel (sessionState Cases.askedEnd)
      /\ chat_id Cases.asked = conversationId (sessionState Cases.askedEnd)
      /\ 2 <= poll_count Cases.asked <= 2 * 1 + 5
      /\ 5 <= elapsed_seconds Cases.asked).
Proof.
  apply (blocking_results_shape Examples.finished None (JS.lit "hi")
           (Some (JS.lit "pro")) None None [] 1 (initialWorld 0)
           Cases.askedEnd Cases.asked).
  left. vm_compute. reflexivity.
Defined.

End RuntimeMore.

(* ===================================================================== *)
(** * Properties: reset rules of the session state, in every state *)
(* ===================================================================== *)

Module ResetRules.
Import Dom Runtime MonadFacts RuntimeFacts SessionFacts RuntimeMore Support.
Local Open Scope Z_scope.

Section Reset.

Variable D : Driver.
Variable defaultProject : option jsstring.

(** ** The browser steps leave the session state alone *)

Lemma state_reads (a b : World) :
  sessionState b = sessionState a ->
  sessionInitialized b = sessionInitialized a ->
  sessionState b = sessionState a.
Proof. auto. Qed.

Lemma state_getPage (w w' : World) (o : Outcome unit) :
  getPage D w = (o, w') -> sessionState w' = sessionState w.
Proof. exact (keeps_getPage D _ (fun w => sessionState w) state_reads w o w'). Qed.

Lemma state_launchBrowser (w w' : World) (o : Outcome unit) :
  launchBrowser D w = (o, w') -> sessionState w' = sessionState w.
Proof.
  exact (keeps_launchBrowser D _ (fun w => sessionState w) state_reads w o w').
Qed.

Lemma state_navigateTo (url : jsstring) (w w' : World) (o : Outcome bool) :
  navigateTo D url w = (o, w') -> sessionState w' = sessionState w.
Proof.
  exact (keeps_navigateTo D _ (fun w => sessionState w) state_reads url w o w').
Qed.

Lemma state_loginAttempts (n : nat) (w w' : World) (o : Outcome bool) :
  loginAttempts D n w = (o, w') -> sessionState w' = sessionState w.
Proof.
  exact (keeps_loginAttempts D _ (fun w => sessionState w) state_reads n w o w').
Qed.

Lemma state_interact (w w' : World) (o : Outcome nat) :
  interact D w = (o, w') -> sessionState w' = sessionState w.
Proof. intros H. inversion H; subst. reflexivity. Qed.

Lemma state_wait (ms : Z) (w w' : World) (o : Outcome unit) :
  wait D ms w = (o, w') -> sessionState w' = sessionState w.
Proof. intros H. inversion H; subst. reflexivity. Qed.

Lemma state_evaluate {A : Type} (f : Document -> A) (w w' : World)
  (o : Outcome A) :
  evaluate D f w = (o, w') -> sessionState w' = sessionState w.
Proof.
  exact (keeps_evaluate D _ (fun w => sessionState w) state_reads f w o w').
Qed.

Lemma evaluate_inv {A : Type} (f : Document -> A) (w w' : World) (a : A) :
  evaluate D f w = (Ret a, w') ->
  exists doc, snapshot D (tick w) = inr doc /\ a = f doc.
Proof.
  unfold evaluate, bind, interact.
  destruct (snapshot D (tick w)) as [e|doc]; [discriminate|].
  intros H. inversion H; subst. eauto.
Qed.

(** ** [selectProject] past its call of [ensureSession] *)

Lemma selectProjectWith_cases (name : jsstring) (w w' : World)
  (o : Outcome SimpleResult) :
  selectProjectWith D (ret tt) name w = (o, w') ->
  exists r,
    o = Ret r
    /\ ((success r = false /\ sessionState w' = sessionState w)
        \/ (success r = true
            /\ exists url,
                 projectAddress D name url
                 /\ sessionState w' = moved url (sessionState w))).
Proof.
  unfold selectProjectWith, tryCatch.
  match goal with |- context [let (_, _) := ?c w in _] =>
    assert (B : forall X w1,
               c w = (X, w1) ->
               match X with
               | Ret r =>
                   (success r = false /\ sessionState w1 = sessionState w)
                   \/ (success r = true
                       /\ exists url,
                            projectAddress D name url
                            /\ sessionState w1 = moved url (sessionState w))
               | Throw _ => sessionState w1 = sessionState w
               | Diverge => False
               end)
  end.
  { intros X w1 E.
    apply bind_cases in E as [([] & wa & E0 & E)|[(e & _ & E0)|(_ & E0)]];
      [|inversion E0|inversion E0].
    inversion E0; subst wa; clear E0.
    apply bind_cases in E as [([] & wb & E1 & E)|[(e & -> & E1)|(-> & E1)]].
    2:{ exact (state_getPage _ _ _ E1). }
    2:{ exact (total_getPage D w (f_equal fst E1)). }
    pose proof (state_getPage _ _ _ E1) as S1.
    apply bind_cases in E as [(pu & wc & E2 & E)|[(e & -> & E2)|(-> & E2)]].
    2:{ rewrite (state_evaluate _ _ _ _ E2). exact S1. }
    2:{ exact (total_evaluate D _ wb (f_equal fst E2)). }
    pose proof (state_evaluate _ _ _ _ E2) as S2.
    apply evaluate_inv in E2 as (doc & Hdoc & ->).
    destruct (truthy (findProjectUrl (lowerCase D) name doc)) as [u|] eqn:Et.
    - cbv zeta in E.
      apply bind_cases in E as [(t & wd & E3 & E)|[(e & _ & E3)|(_ & E3)]];
        [|inversion E3|inversion E3].
      pose proof (state_interact _ _ _ E3) as S3.
      destruct (goto D t _) as [e|].
      { inversion E; subst. congruence. }
      apply bind_cases in E as [([] & we & E4 & E)|[(e & _ & E4)|(_ & E4)]];
        [|inversion E4|inversion E4].
      pose proof (state_wait _ _ _ _ E4) as S4.
      inversion E; subst X w1; clear E. right. split; [reflexivity|].
      exists (fullUrlOf u). split.
      + exists (tick wb), doc, u. auto.
      + cbn. unfold moved, fullUrlOf. rewrite S4, S3, S2, S1. reflexivity.
    - inversion E; subst X w1. left. split; [reflexivity | congruence]. }
  match goal with |- context [let (_, _) := ?c w in _] =>
    destruct (c w) as [[r|e|] w1]
  end; intros H; specialize (B _ _ eq_refl); cbn beta iota in B.
  - inversion H; subst. eauto.
  - inversion H; subst. eexists. split; [reflexivity|]. left. auto.
  - destruct B.
Qed.

Lemma selectProjectWith_split (ensure : M unit) (name : jsstring)
  (w w1 : World) :
  ensure w = (Ret tt, w1) ->
  selectProjectWith D ensure name w = selectProjectWith D (ret tt) name w1.
Proof.
  intros H. unfold selectProjectWith, tryCatch, bind. rewrite H. reflexivity.
Qed.

(** ** [ensureSession] from any state *)

Lemma ensureSession_up (w : World) :
  up w = true -> ensureSession D defaultProject w = (Ret tt, w).
Proof.
  unfold up, isBrowserRunning. intros H. apply andb_true_iff in H as [Hi Ho].
  apply ensureSessionAt_up; assumption.
Qed.

Lemma autoSelected_up (w : World) :
  up w = true -> autoSelected defaultProject w = None.
Proof. unfold autoSelected. intros ->. reflexivity. Qed.

(** When the session has to be initialised: the model stays; the
    conversation and the destination stay unless the default project is
    selected; a return means that the login check has passed. *)
Lemma ensureSession_first (w w' : World) (o : Outcome unit) :
  up w = false ->
  ensureSession D defaultProject w = (o, w') ->
  currentModel (sessionState w') = currentModel (sessionState w)
  /\ ((currentProjectUrl (sessionState w')
       = currentProjectUrl (sessionState w)
       /\ conversationId (sessionState w') = conversationId (sessionState w))
      \/ exists project url,
           autoSelected defaultProject w = Some project
           /\ projectAddress D project url
           /\ currentProjectUrl (sessionState w') = Some url
           /\ conversationId (sessionState w') = None)
  /\ (o = Ret tt -> isLoggedIn (sessionState w') = true)
  /\ o <> Diverge.
Proof.
  intros Hup. unfold ensureSession.
  rewrite (ensureSessionAt_S D defaultProject 1).
  unfold up in Hup. rewrite Hup.
  intros H.
  apply bind_cases in H as [([] & w1 & E1 & H)|[(e & -> & E)|(-> & E)]].
  2:{ rewrite (state_launchBrowser _ _ _ E).
      repeat split; auto; discriminate. }
  2:{ exfalso. exact (total_launchBrowser D w (f_equal fst E)). }
  pose proof (launchBrowser_opens D _ _ E1) as O1.
  pose proof (state_launchBrowser _ _ _ E1) as S1.
  apply bind_cases in H as [(nav & w2 & E2 & H)|[(e & -> & E)|(-> & E)]].
  2:{ rewrite (state_navigateTo _ _ _ _ E), S1.
      repeat split; auto; discriminate. }
  2:{ exfalso. exact (total_navigateTo D chatgptUrl w1 (f_equal fst E)). }
  pose proof (navigateTo_preserves D advances advances_refl advances_trans
                (advances_interact D) advances_setPageOpen _ _ _ _ E2)
    as (_ & O2 & _).
  pose proof (state_navigateTo _ _ _ _ E2) as S2.
  destruct (negb nav).
  { inversion H; subst. rewrite S2, S1. repeat split; auto; discriminate. }
  apply bind_cases in H as [([] & w3 & E3 & H)|[(e & _ & E)|(_ & E)]];
    [|inversion E|inversion E].
  pose proof (advances_wait D _ _ _ _ E3) as (_ & O3 & _).
  pose proof (state_wait _ _ _ _ E3) as S3.
  apply bind_cases in H as [(li & w4 & E4 & H)|[(e & -> & E)|(-> & E)]].
  2:{ rewrite (state_loginAttempts _ _ _ _ E), S3, S2, S1.
      repeat split; auto; discriminate. }
  2:{ exfalso. exact (total_loginAttempts D 3 w3 (f_equal fst E)). }
  pose proof (loginAttempts_preserves D advances advances_refl advances_trans
                (advances_interact D) (advances_wait D) advances_setPageOpen
                _ _ _ _ E4) as (_ & O4 & _).
  pose proof (state_loginAttempts _ _ _ _ E4) as S4.
  assert (S : sessionState w4 = sessionState w) by congruence.
  assert (Open : pageOpen w4 = true) by auto.
  apply bind_cases in H as [([] & w5 & E5 & H)|[(e & _ & E)|(_ & E)]];
    [|inversion E|inversion E].
  apply bind_cases in H as [([] & w6 & E6 & H)|[(e & _ & E)|(_ & E)]];
    [|inversion E|inversion E].
  inversion E5; subst w5. inversion E6; subst w6. clear E5 E6.
  destruct li; cbn [negb] in H.
  2:{ inversion H; subst. cbn. rewrite S. repeat split; auto; discriminate. }
  apply bind_cases in H as [(st & w7 & E7 & H)|[(e & _ & E)|(_ & E)]];
    [|inversion E|inversion E].
  inversion E7; subst st w7. clear E7. cbn [sessionState currentProjectUrl] in H.
  rewrite S in H.
  destruct (truthy defaultProject) as [project|] eqn:Ed.
  2:{ inversion H; subst. cbn. repeat split; auto; discriminate. }
  destruct (truthy (currentProjectUrl (sessionState w))) as [u|] eqn:Eu.
  { inversion H; subst. cbn. repeat split; auto; discriminate. }
  assert (Auto : autoSelected defaultProject w = Some project).
  { unfold autoSelected, up. rewrite Hup, Ed, Eu. reflexivity. }
  apply bind_cases in H as [(r & w8 & E8 & H)|[(e & _ & E)|(-> & E)]].
  - inversion H; subst o w8. clear H.
    rewrite selectProjectWith_inner_up in E8
      by (apply ensureSessionAt_up; [reflexivity | exact Open]).
    apply selectProjectWith_cases in E8 as (r' & Er & [(_ & E8)|(_ & url & Ha & E8)]).
    + rewrite E8. cbn. repeat split; auto; discriminate.
    + rewrite E8. cbn.
      split; [reflexivity|]. split; [|split; [reflexivity | discriminate]].
      right. exists project, url. auto.
  - exfalso. exact (selectProjectWith_never_throws D _ _ _ _ _ E).
  - exfalso. revert E.
    rewrite selectProjectWith_inner_up
      by (apply ensureSessionAt_up; [reflexivity | exact Open]).
    intros E.
    exact (total_selectProjectWith D (ret tt) project (total_ret tt)
             _ (f_equal fst E)).
Qed.

(** What [ensureSession] does to the fields that the reset rules name,
    from any state and however it ends. *)
Lemma ensureSession_fields (w w' : World) (o : Outcome unit) :
  ensureSession D defaultProject w = (o, w') ->
  currentModel (sessionState w') = currentModel (sessionState w)
  /\ destinationKept D defaultProject w w'
  /\ (o = Ret tt -> isLoggedIn (sessionState w') = loginAfter w).
Proof.
  intros H. destruct (up w) eqn:Hup.
  - rewrite (ensureSession_up w Hup) in H. inversion H; subst.
    unfold destinationKept, loginAfter. rewrite Hup. auto.
  - destruct (ensureSession_first w w' o Hup H) as (Hm & Hd & Hl & _).
    unfold destinationKept, loginAfter. rewrite Hup.
    split; [exact Hm|]. split; [|exact Hl].
    destruct Hd as [(Hd & _)|(project & url & Ha & Hp & Hd & _)].
    + left. exact Hd.
    + right. exists project, url. auto.
Qed.

(** ** The two operations from any state *)

Lemma newConversation_cases (w w' : World) (r : SimpleResult) :
  newConversation D defaultProject w = (Ret r, w') ->
  exists o1 w1,
    ensureSession D defaultProject w = (o1, w1)
    /\ ((success r = true /\ o1 = Ret tt
         /\ sessionState w' = cleared (sessionState w1))
        \/ (success r = false /\ sessionState w' = sessionState w1)).
Proof.
  unfold newConversation. intros H.
  apply tryCatch_inv_Ret in H as [H | (e & wt & H & Hh)].
  - apply bind_inv_Ret in H as ([] & wa & Ea & H).
    exists (Ret tt), wa. split; [exact Ea|]. left.
    apply bind_inv_Ret in H as (st & wb & Eb & H).
    inversion Eb; subst st wb; clear Eb.
    apply bind_inv_Ret in H as (nav & wc & Ec & H).
    pose proof (state_navigateTo _ _ _ _ Ec) as Sc.
    apply bind_inv_Ret in H as ([] & wd & Ed & H).
    pose proof (state_wait _ _ _ _ Ed) as Sd.
    apply bind_inv_Ret in H as ([] & we & Ee & H).
    apply bind_inv_Ret in H as (st' & wf & Ef & H).
    inversion Ee; subst we. inversion Ef; subst wf st'.
    inversion H; subst w' r. cbn. unfold cleared. rewrite Sd, Sc.
    auto.
  - inversion Hh; subst r w'. clear Hh.
    apply bind_inv_Throw in H as [H | ([] & wa & Ea & H)].
    + exists (Throw e), wt. split; [exact H|]. right. auto.
    + exists (Ret tt), wa. split; [exact Ea|]. right.
      split; [reflexivity|].
      apply bind_inv_Throw in H as [H | (st & wb & Eb & H)];
        [inversion H|].
      inversion Eb; subst st wb; clear Eb.
      apply bind_inv_Throw in H as [H | (nav & wc & Ec & H)].
      * exact (state_navigateTo _ _ _ _ H).
      * apply bind_inv_Throw in H as [H | ([] & wd & Ed & H)];
          [inversion H|].
        apply bind_inv_Throw in H as [H | ([] & we & Ee & H)];
          [inversion H|].
        apply bind_inv_Throw in H as [H | (st' & wf & Ef & H)];
          [inversion H|].
        inversion H.
Qed.

Lemma selectProject_cases (name : jsstring) (w w' : World)
  (r : SimpleResult) :
  selectProject D defaultProject name w = (Ret r, w') ->
  exists o1 w1,
    ensureSession D defaultProject w = (o1, w1)
    /\ ((success r = true /\ o1 = Ret tt
         /\ exists url,
              projectAddress D name url
              /\ sessionState w' = moved url (sessionState w1))
        \/ (success r = false /\ sessionState w' = sessionState w1)).
Proof.
  unfold selectProject. intros H.
  destruct (ensureSession D defaultProject w) as [[[]|e|] w1] eqn:E.
  - exists (Ret tt), w1. split; [reflexivity|].
    rewrite (selectProjectWith_split _ name _ _ E) in H.
    apply selectProjectWith_cases in H as (r' & Er & [(Hs & Hq)|(Hs & Hq)]);
      inversion Er; subst r'; auto.
  - exists (Throw e), w1. split; [reflexivity|]. right.
    unfold selectProjectWith, tryCatch, bind in H. rewrite E in H.
    inversion H; subst. auto.
  - unfold selectProjectWith, tryCatch, bind in H. rewrite E in H.
    discriminate.
Qed.

End Reset.

(** C9, as the code has it. In a session that is up, [newConversation]
    succeeds and changes nothing but the conversation identifier, which it
    clears; [selectProject] on success clears the conversation identifier
    and sets the destination, leaving the login flag and the model, and on
    failure changes nothing. From any state, the model is never changed;
    a successful [newConversation] leaves the conversation identifier
    cleared, and the destination as it was unless the call had to
    initialise the session and selected the configured default project on
    the way, the destination then being the address of that project; a
    successful [selectProject] leaves the conversation identifier
    cleared and the destination set to the address of a link of the
    project asked for. After a successful call the login flag is as it
    was in a session that was up, and true, the login check having
    passed, in a session that the call had to initialise. *)
Theorem session_reset_rules (D : Driver) (defaultProject : option jsstring)
  (name : jsstring) (w : World) :
  (sessionInitialized w = true -> pageOpen w = true ->
   (exists r w',
       newConversation D defaultProject w = (Ret r, w')
       /\ success r = true
       /\ sessionState w' = cleared (sessionState w))
   /\ (exists r w',
          selectProject D defaultProject name w = (Ret r, w')
          /\ (success r = true ->
              exists url, sessionState w' = moved url (sessionState w))
          /\ (success r = false -> sessionState w' = sessionState w)))
  /\ (forall r w',
         newConversation D defaultProject w = (Ret r, w') ->
         currentModel (sessionState w') = currentModel (sessionState w)
         /\ destinationKept D defaultProject w w'
         /\ (autoSelected defaultProject w = None ->
             currentProjectUrl (sessionState w')
             = currentProjectUrl (sessionState w))
         /\ (success r = true ->
             conversationId (sessionState w') = None
             /\ isLoggedIn (sessionState w') = loginAfter w))
  /\ (forall r w',
         selectProject D defaultProject name w = (Ret r, w') ->
         currentModel (sessionState w') = currentModel (sessionState w)
         /\ (success r = true ->
             conversationId (sessionState w') = None
             /\ (exists url,
                    projectAddress D name url
                    /\ currentProjectUrl (sessionState w') = Some url)
             /\ isLoggedIn (sessionState w') = loginAfter w)
         /\ (success r = false -> destinationKept D defaultProject w w')).
Proof.
  split; [|split].
  - intros Hi Ho. split.
    + apply newConversation_when_up; assumption.
    + apply selectProject_when_up; assumption.
  - intros r w' H.
    destruct (newConversation_cases D defaultProject _ _ _ H)
      as (o1 & w1 & E & C).
    destruct (ensureSession_fields D defaultProject _ _ _ E) as (Hm & Hd & Hl).
    assert (Hu : currentProjectUrl (sessionState w')
                 = currentProjectUrl (sessionState w1)
                 /\ currentModel (sessionState w')
                    = currentModel (sessionState w1)).
    { destruct C as [(_ & _ & St)|(_ & St)]; rewrite St; auto. }
    destruct Hu as [Hu1 Hu2].
    assert (Hk : destinationKept D defaultProject w w').
    { unfold destinationKept in *. rewrite Hu1. exact Hd. }
    split; [congruence|]. split; [exact Hk|]. split.
    + intros Hn. destruct Hk as [Hk|(project & url & Ha & _)];
        [exact Hk | congruence].
    + intros Hs. destruct C as [(_ & -> & St)|(Hf & _)]; [|congruence].
      rewrite St. cbn. split; [reflexivity | exact (Hl eq_refl)].
  - intros r w' H.
    destruct (selectProject_cases D defaultProject name _ _ _ H)
      as (o1 & w1 & E & C).
    destruct (ensureSession_fields D defaultProject _ _ _ E) as (Hm & Hd & Hl).
    split; [|split].
    + destruct C as [(_ & _ & url & _ & St)|(_ & St)]; rewrite St; exact Hm.
    + intros Hs. destruct C as [(_ & -> & url & Ha & St)|(Hf & _)];
        [|congruence].
      rewrite St. cbn. split; [reflexivity|].
      split; [exists url; auto | exact (Hl eq_refl)].
    + intros Hs. destruct C as [(Ht & _)|(_ & St)]; [congruence|].
      unfold destinationKept in *. rewrite St. exact Hd.
Qed.

Lemma session_reset_rules_witness :
  ((exists r w',
       newConversation Examples.withSidebar None Examples.runningWorld
       = (Ret r, w')
       /\ success r = true
       /\ sessionState w' = cleared (sessionState Examples.runningWorld))
   /\ (exists r w',
          selectProject Examples.withSidebar None (JS.lit "Claude")
            Examples.runningWorld = (Ret r, w')
          /\ (success r = true ->
              exists url,
                sessionState w' = moved url (sessionState Examples.runningWorld))
          /\ (success r = false ->
              sessionState w' = sessionState Examples.runningWorld)))
  /\ currentProjectUrl
       (sessionState (snd (newConversation Examples.withSidebar None
                             (initialWorld 0))))
     = currentProjectUrl (sessionState (initialWorld 0))
  /\ isLoggedIn
       (sessionState (snd (newConversation Examples.withSidebar None
                             (initialWorld 0))))
     = true.
Proof.
  split.
  - apply (proj1 (session_reset_rules Examples.withSidebar None
                    (JS.lit "Claude") Examples.runningWorld)); reflexivity.
  - destruct (session_reset_rules Examples.withSidebar None (JS.lit "Claude")
                (initialWorld 0)) as (_ & H & _).
    destruct (H {| success := true;
                   message := JS.lit "New conversation started." |}
                (snd (newConversation Examples.withSidebar None
                        (initialWorld 0))))
      as (_ & _ & Hd & Hs).
    + vm_compute. reflexivity.
    + split; [apply Hd; reflexivity|].
      destruct (Hs eq_refl) as [_ Hl]. exact Hl.
Defined.

End ResetRules.
